(** * Reconciliation of the on-disk machinepack cache (lib/syncMachines.js)

    A shallow embedding of [cleanPacks], [writePacks], the install queue
    [sails.npmQueue] and the [async.each] join that drives them, followed
    by the properties of the reconciliation engine.

    Conventions of the embedding:
    - The synchronous code runs in a state-and-exception monad [M] over
      [state]; a thrown exception keeps the effects made before it.
    - The file system is the cache root [machinesDir] (one for
      [options.export], one under node_modules/yarr): a finite map from
      names to pack directories or plain files, a pack directory being a
      finite map from file names to contents.  An entry is addressed
      by its name where the code calls [path.join]; the two agree on
      names that are single path segments ([segment], [slash_free]
      below), and the properties that depend on it carry that as a
      hypothesis.  The file system is case-sensitive, and file
      operations fail only for structural reasons (ENOENT, EEXIST,
      EISDIR, ENOTDIR).
    - A manifest on disk that parses is represented by the value
      [JSON.parse] returns for it: the three properties the module
      reads, and whether the value prints as the module prints its own
      manifests ([PackageJson.printed]); [js_beautify] is kept symbolic
      ([Beautified]).  Objects are string-keyed dictionaries of own
      properties in enumeration order; of [Object.prototype] only the
      [__proto__] accessor matters to the module ([Js.set], [Js.get]).
    - The packages the module requires are modelled from what they do:
      [async.queue] (a task pushed is appended and [process] is deferred;
      when a task's command exits the worker is released, the task's
      callback is called, [drain] runs if nothing is pending or in
      flight, and [process] is called), [async.each] (a counter of
      completed items, the final callback on the first error or when all
      items have completed), [_.difference], [wrench.rmdirSyncRecursive]
      with [failSilent], [fs-extra].  [npm update] itself is opaque: only
      its exit status is observed.  [sails.config] is taken to exist. *)

From stdpp Require Import gmap strings list fin_maps pretty.
From Stdlib Require Import ZArith Ascii.

Open Scope string_scope.
Open Scope list_scope.
Open Scope nat_scope.
Set Warnings "-register-all,-clear-no-such-hyp".

(** ** JavaScript values used by the module *)

Module Js.

(** A plain object: its own enumerable properties in enumeration order. *)
Abbreviation obj A := (list (string * A)) (only parsing).

(** [Object.keys(o)] *)
Definition keys {A} (o : obj A) : list string := o.*1.

(** [o[k]] for an own property [k]; [None] when [o] has no own property
    [k]: the code then gets [undefined], or what [Object.prototype]
    provides under that name (for [constructor], [toString],
    [__proto__], ...), which is an object or a function and never a
    string. *)
Fixpoint get {A} (o : obj A) (k : string) : option A :=
  match o with
  | [] => None
  | (k', v) :: o' => if decide (k' = k) then Some v else get o' k
  end.

(** [s.split(sep)] for a one-character separator: never empty. *)
Fixpoint split (sep : ascii) (s : string) : list string :=
  match s with
  | EmptyString => [EmptyString]
  | String c s' =>
      if Ascii.eqb c sep then EmptyString :: split sep s'
      else match split sep s' with
           | [] => [String c EmptyString]
           | w :: ws => String c w :: ws
           end
  end.

(** Canonical array indices ("0", "7", "42", ... below 2^32 - 1): the
    property names an engine enumerates first, in numeric order. *)
Definition digit (c : ascii) : option N :=
  let n := N_of_ascii c in
  if ((48 <=? n) && (n <=? 57))%N then Some (n - 48)%N else None.

Fixpoint digits (s : string) (acc : N) : option N :=
  match s with
  | EmptyString => Some acc
  | String c s' =>
      match digit c with
      | Some d => digits s' (acc * 10 + d)%N
      | None => None
      end
  end.

Definition array_index (s : string) : option N :=
  match s with
  | EmptyString => None
  | String c EmptyString => digit c
  | String c _ =>
      if Ascii.eqb c "0" then None
      else match digits s 0 with
           | Some n => if (n <? 4294967295)%N then Some n else None
           | None => None
           end
  end.

(** Position of a new index key [n]: before the first property that is
    not an index or is a larger index. *)
Fixpoint insert_index {A} (n : N) (k : string) (v : A) (o : obj A) : obj A :=
  match o with
  | [] => [(k, v)]
  | (k', v') :: o' =>
      match array_index k' with
      | Some n' =>
          if (n' <? n)%N then (k', v') :: insert_index n k v o'
          else (k, v) :: o
      | None => (k, v) :: o
      end
  end.

Fixpoint replace {A} (k : string) (v : A) (o : obj A) : obj A :=
  match o with
  | [] => []
  | (k', v') :: o' =>
      if decide (k' = k) then (k', v) :: o' else (k', v') :: replace k v o'
  end.

Definition has {A} (o : obj A) (k : string) : bool :=
  bool_decide (k ∈ keys o).

(** [o[k] = v] for a string or [undefined] [v], on an object made by an
    object literal: an existing property keeps its place; a new index key
    goes among the index keys; any other new key goes last.  The key
    [__proto__] is the accessor inherited from [Object.prototype]: its
    setter ignores a value that is neither an object nor [null], so the
    assignment adds no property. *)
Definition set {A} (o : obj A) (k : string) (v : A) : obj A :=
  if decide (k = "__proto__") then o
  else if has o k then replace k v o
  else match array_index k with
       | Some n => insert_index n k v o
       | None => (o ++ [(k, v)])%list
       end.

(** [_.difference(xs, ys)]: the elements of [xs] that are not in [ys]. *)
Definition difference (xs ys : list string) : list string :=
  filter (λ x, x ∉ ys) xs.

(** [xs.join(sep)] *)
Fixpoint join (sep : string) (xs : list string) : string :=
  match xs with
  | [] => EmptyString
  | [x] => x
  | x :: xs' => x +:+ sep +:+ join sep xs'
  end.

(** JSON data as the server sends it.  A number is given by the text
    JavaScript prints for it ([String(n)], which is also what
    [JSON.stringify(n)] gives for a number that came out of
    [JSON.parse]): ["42"], ["0.5"], ["1e+21"]. *)
Inductive json :=
| JNull
| JBool (b : bool)
| JNum (text : string)
| JStr (s : string)
| JArr (items : list json)
| JObj (props : list (string * json)).

Definition dquote : string := String (ascii_of_N 34) EmptyString.
Definition newline : string := String (ascii_of_N 10) EmptyString.

Definition hex_digit (n : N) : ascii :=
  ascii_of_N (if (n <? 10)%N then 48 + n else 87 + n)%N.

(** Escaping of one character inside a JSON string literal. *)
Definition escape_char (c : ascii) : string :=
  let n := N_of_ascii c in
  if (n =? 34)%N then "\" +:+ dquote
  else if (n =? 92)%N then "\\"
  else if (n =? 8)%N then "\b"
  else if (n =? 9)%N then "\t"
  else if (n =? 10)%N then "\n"
  else if (n =? 12)%N then "\f"
  else if (n =? 13)%N then "\r"
  else if (n <? 32)%N then
    "\u00" +:+ String (hex_digit (n / 16)) (String (hex_digit (n mod 16)) EmptyString)
  else String c EmptyString.

Fixpoint escape (s : string) : string :=
  match s with
  | EmptyString => EmptyString
  | String c s' => escape_char c +:+ escape s'
  end.

Definition quote (s : string) : string := dquote +:+ escape s +:+ dquote.

(** [JSON.stringify(v)] *)
Fixpoint stringify (v : json) : string :=
  match v with
  | JNull => "null"
  | JBool b => if b then "true" else "false"
  | JNum text => text
  | JStr s => quote s
  | JArr items => "[" +:+ join "," (map stringify items) +:+ "]"
  | JObj props =>
      "{" +:+ join "," (map (λ kv, quote kv.1 +:+ ":" +:+ stringify kv.2) props)
          +:+ "}"
  end.

(** String coercion, as in ['fn:' + v]. *)
Fixpoint to_string (v : json) : string :=
  match v with
  | JNull => "null"
  | JBool b => if b then "true" else "false"
  | JNum text => text
  | JStr s => s
  | JArr items =>
      join "," (map (λ x, match x with JNull => EmptyString | _ => to_string x end) items)
  | JObj _ => "[object Object]"
  end.

End Js.

(** ** Data model *)

(** A unit definition: the fields the server sends ([fn], [name], ...). *)
Abbreviation machineDef := (Js.obj Js.json) (only parsing).

(** One entry of the server response: [{machines: {...}, dependencies: {...}}].
    [dependencies] is [None] when the property is missing ([undefined]). *)
Module PackSpec.
Record t := Make {
  machines : Js.obj machineDef;
  dependencies : option (Js.obj string)
}.
End PackSpec.

(** The server response: pack directory name -> pack. *)
Abbreviation document := (Js.obj PackSpec.t) (only parsing).

(** A parsed package.json, as far as the module looks at it: the
    properties [dependencies], [machinepack.machines] and
    [machinepack.machineVersions], and [printed]: whether
    [JSON.stringify] prints the parsed value as it prints
    [{dependencies: ..., machinepack: {machines: [...], machineVersions: {...}}}]
    built from these three (with [dependencies] left out when it is
    [undefined]).  [printed] is false for a manifest with further
    properties or with its properties in another order: its text differs
    from the text of every manifest the module builds.  [Make] is a
    manifest as the module builds and writes it. *)
Module PackageJson.
Record t := Parsed {
  dependencies : option (Js.obj string);
  machines : list string;
  machineVersions : Js.obj string;
  printed : bool
}.
Definition Make (dependencies : option (Js.obj string)) (machines : list string)
    (machineVersions : Js.obj string) : t :=
  Parsed dependencies machines machineVersions true.
Global Instance eq_dec : EqDecision t.
Proof. solve_decision. Defined.
End PackageJson.

(** [newPackageJson] while it is being built: a version is [undefined]
    ([None]) when the unit key has no [':']. *)
Module NewPackageJson.
Record t := Make {
  dependencies : option (Js.obj string);
  machines : list string;
  machineVersions : Js.obj (option string)
}.
End NewPackageJson.

(** What a file holds.  A manifest that parses is represented by the
    value [JSON.parse] returns for it, as [PackageJson.t] describes it;
    the texts [beautify(JSON.stringify(...))] of two such values are
    equal exactly when the values are equal as [PackageJson.t], [printed]
    included.  [Text] and [Beautified] hold JavaScript source; read as a
    manifest they stand for a file that [JSON.parse] rejects.
    [JsonNoVersions] is a text that parses to a value in which
    [machinepack], or [machinepack.machineVersions], is missing or
    [null] (such as [{}]).  A manifest whose [machineVersions] is
    neither that nor an object of strings has no representation. *)
Inductive content :=
| Text (s : string)
| Beautified (s : string)            (* beautify(s, {indent_size: 2}) *)
| Json (p : PackageJson.t)           (* a text that parses to [p] *)
| JsonNoVersions.

Global Instance content_eq_dec : EqDecision content.
Proof. solve_decision. Defined.

(** An entry of the cache root: a pack directory (file name -> file) or a
    plain file. *)
Inductive node :=
| File (c : content)
| Dir (entries : gmap string content).

Inductive error :=
| ENOENT | EEXIST | EISDIR | ENOTDIR    (* fs errors, by [e.code] *)
| SyntaxError                           (* JSON.parse *)
| TypeError
| ExecError (code : N).                 (* npm update exited with [code] <> 0 *)

Global Instance error_eq_dec : EqDecision error.
Proof. solve_decision. Defined.

Inductive result (A : Type) :=
| Ok (a : A)
| Throw (e : error).
Arguments Ok {A} a.
Arguments Throw {A} e.

(** Effects, in the order they happen. *)
Inductive kind := UnitFile | ManifestFile | IndexFile.

Inductive event :=
| Mkdir (path : string)
| Rmdir (path : string)                          (* recursive *)
| Unlink (path : string)
| Write (k : kind) (path : string) (c : content)
| Push (cwd : string)                            (* sails.npmQueue.push *)
| Exec (cwd : string).                           (* exec("npm update", {cwd}) *)

Global Instance kind_eq_dec : EqDecision kind.
Proof. solve_decision. Defined.
Global Instance event_eq_dec : EqDecision event.
Proof. solve_decision. Defined.

(** A queued install: its working directory and its callback, the
    per-item callback of the [async.each] call number [task_join]. *)
Record task := Task { task_cwd : string; task_join : nat }.

(** The state of one [async.each] call: [arr.length], [completed], and
    [callback]: the caller's completion callback (named by a number), or
    [None] for a no-op function (the default [function(){}], or what
    [done] puts in its place after an error). *)
Record join := Join { total : nat; completed : nat; callback : option nat }.

Record state := State {
  cwd : string;                                   (* process.cwd() *)
  cwd_machines : option (gmap string node);       (* <cwd>/node_machines *)
  yarr_machines : option (gmap string node);      (* <cwd>/node_modules/yarr/node_machines *)
  trace : list event;
  maintenance : bool;                             (* sails.config.maintenance *)
  tasks : list task;                              (* npmQueue.tasks *)
  running : option task;                          (* the task of the one worker, if any *)
  immediates : nat;                               (* setImmediate(q.process) still to fire *)
  joins : list join;
  calls : list (nat * option error)               (* completion callbacks invoked, with [err] *)
}.

Definition M (A : Type) : Type := state → result A * state.

Definition ret {A} (a : A) : M A := λ s, (Ok a, s).
Definition throw {A} (e : error) : M A := λ s, (Throw e, s).
Definition bind {A B} (m : M A) (k : A → M B) : M B :=
  λ s, match m s with
       | (Ok a, s') => k a s'
       | (Throw e, s') => (Throw e, s')
       end.
(** [try { m } catch (e) { h e }] *)
Definition try_catch {A} (m : M A) (h : error → M A) : M A :=
  λ s, match m s with
       | (Ok a, s') => (Ok a, s')
       | (Throw e, s') => h e s'
       end.

Notation "'let*' x ':=' m 'in' k" := (bind m (λ x, k))
  (at level 10, x name, m at level 100, k at level 200).
Notation "m ;; k" := (bind m (λ _, k))
  (at level 100, k at level 200, right associativity).

(** [xs.forEach(f)] with a body that may throw. *)
Fixpoint forEach {A} (f : A → M unit) (xs : list A) : M unit :=
  match xs with
  | [] => ret ()
  | x :: xs' => f x ;; forEach f xs'
  end.

(** ** State access *)

Definition with_root (export : bool) (r : option (gmap string node)) (s : state) : state :=
  if export
  then State (cwd s) r (yarr_machines s) (trace s) (maintenance s) (tasks s)
             (running s) (immediates s) (joins s) (calls s)
  else State (cwd s) (cwd_machines s) r (trace s) (maintenance s) (tasks s)
             (running s) (immediates s) (joins s) (calls s).

Definition emit (e : event) (s : state) : state :=
  State (cwd s) (cwd_machines s) (yarr_machines s) (trace s ++ [e])%list
        (maintenance s) (tasks s) (running s) (immediates s) (joins s) (calls s).

Definition with_queue (m : bool) (ts : list task) (r : option task) (i : nat)
    (s : state) : state :=
  State (cwd s) (cwd_machines s) (yarr_machines s) (trace s) m ts r i
        (joins s) (calls s).

Definition with_joins (js : list join) (cs : list (nat * option error))
    (s : state) : state :=
  State (cwd s) (cwd_machines s) (yarr_machines s) (trace s) (maintenance s)
        (tasks s) (running s) (immediates s) js cs.

(** ** The file system under the cache root *)

Module Options.
Record t := Make { export : bool }.   (* truthiness of [options.export] *)
End Options.

(** [path.join(a, b)] (POSIX) for a normalised absolute path [a]
    ([process.cwd()], or a path joined to it; only the root directory
    ends in a slash) and a relative path [b] made of single segments. *)
Definition path_join (a b : string) : string :=
  (if decide (a = "/") then a else a +:+ "/") +:+ b.

(** [path.join(process.cwd(), options.export ? '' : 'node_modules/yarr/', 'node_machines')] *)
Definition machinesDir (export : bool) (s : state) : string :=
  path_join (if export then cwd s else path_join (cwd s) "node_modules/yarr")
            "node_machines".

Definition root (export : bool) (s : state) : option (gmap string node) :=
  if export then cwd_machines s else yarr_machines s.

(** Paths below the cache root are given by their segments: [[name]] is
    [machinesDir/name], [[pack; file]] is [machinesDir/pack/file].  This
    is [path.join(machinesDir, name)] and
    [path.join(machinesDir, pack, file)] for names that are single path
    segments ([segment]); [path.join] would resolve any other name
    (empty, [.], [..], or with a ['/']) to another place. *)
Definition full_path (export : bool) (segs : list string) (s : state) : string :=
  path_join (machinesDir export s) (Js.join "/" segs).

(** [fs.mkdirsSync(machinesDir)]: creates the directory when it is missing. *)
Definition mkdirsSync (export : bool) : M unit := λ s,
  match root export s with
  | Some _ => (Ok (), s)
  | None => (Ok (), emit (Mkdir (machinesDir export s)) (with_root export (Some ∅) s))
  end.

(** [fs.readdirSync(machinesDir)] *)
Definition readdirSync (export : bool) : M (list string) := λ s,
  match root export s with
  | Some t => (Ok (map_to_list t).*1, s)
  | None => (Throw ENOENT, s)
  end.

(** [wrench.rmdirSyncRecursive(machinesDir/name, true)]: fails silently on
    anything that is not a directory. *)
Definition rmdirSyncRecursive (export : bool) (name : string) : M unit := λ s,
  match root export s with
  | Some t =>
      match t !! name with
      | Some (Dir _) =>
          (Ok (), emit (Rmdir (full_path export [name] s))
                       (with_root export (Some (delete name t)) s))
      | _ => (Ok (), s)
      end
  | None => (Ok (), s)
  end.

(** [fs.mkdirSync(machinesDir/name)], for a [name] that is a single path
    segment: the entry [name] of the cache root. *)
Definition mkdirSync (export : bool) (name : string) : M unit := λ s,
  match root export s with
  | Some t =>
      match t !! name with
      | Some _ => (Throw EEXIST, s)
      | None =>
          (Ok (), emit (Mkdir (full_path export [name] s))
                       (with_root export (Some (<[name := Dir ∅]> t)) s))
      end
  | None => (Throw ENOENT, s)
  end.

(** [fs.readFileSync(path)], the path given by segments as for
    [full_path]. *)
Definition readFileSync (export : bool) (segs : list string) : M content := λ s,
  match root export s, segs with
  | Some t, [name] =>
      match t !! name with
      | Some (File c) => (Ok c, s)
      | Some (Dir _) => (Throw EISDIR, s)
      | None => (Throw ENOENT, s)
      end
  | Some t, [pack; file] =>
      match t !! pack with
      | Some (Dir d) =>
          match d !! file with
          | Some c => (Ok c, s)
          | None => (Throw ENOENT, s)
          end
      | Some (File _) => (Throw ENOTDIR, s)
      | None => (Throw ENOENT, s)
      end
  | _, _ => (Throw ENOENT, s)
  end.

(** [fs.unlinkSync(path)], the path given by segments as for
    [full_path]: an entry of the cache root, or a file of a pack
    directory. *)
Definition unlinkSync (export : bool) (segs : list string) : M unit := λ s,
  match root export s, segs with
  | Some t, [name] =>
      match t !! name with
      | Some (File _) =>
          (Ok (), emit (Unlink (full_path export segs s))
                       (with_root export (Some (delete name t)) s))
      | Some (Dir _) => (Throw EISDIR, s)
      | None => (Throw ENOENT, s)
      end
  | Some t, [pack; file] =>
      match t !! pack with
      | Some (Dir d) =>
          match d !! file with
          | Some _ =>
              (Ok (), emit (Unlink (full_path export segs s))
                           (with_root export (Some (<[pack := Dir (delete file d)]> t)) s))
          | None => (Throw ENOENT, s)
          end
      | Some (File _) => (Throw ENOTDIR, s)
      | None => (Throw ENOENT, s)
      end
  | _, _ => (Throw ENOENT, s)
  end.

(** [fs.writeFileSync(path, c)], the path given by segments as for
    [full_path]; [k] records which statement writes. *)
Definition writeFileSync (k : kind) (export : bool) (segs : list string)
    (c : content) : M unit := λ s,
  match root export s, segs with
  | Some t, [name] =>
      match t !! name with
      | Some (Dir _) => (Throw EISDIR, s)
      | _ =>
          (Ok (), emit (Write k (full_path export segs s) c)
                       (with_root export (Some (<[name := File c]> t)) s))
      end
  | Some t, [pack; file] =>
      match t !! pack with
      | Some (Dir d) =>
          (Ok (), emit (Write k (full_path export segs s) c)
                       (with_root export (Some (<[pack := Dir (<[file := c]> d)]> t)) s))
      | Some (File _) => (Throw ENOTDIR, s)
      | None => (Throw ENOENT, s)
      end
  | _, _ => (Throw ENOENT, s)
  end.

(** [JSON.parse] of a file's text, as far as the pass can tell.  For
    [JsonNoVersions] the parse itself succeeds, and the next thing done
    with its result, [Object.keys(packageJson.machinepack.machineVersions)]
    on line 124, throws a TypeError, with nothing done in between
    (lines 120-123 read the document only); that TypeError is raised
    here, where the catch clause of line 110 passes it on like every
    error that is not ENOENT. *)
Definition JSON_parse (c : content) : M PackageJson.t :=
  match c with
  | Json p => ret p
  | JsonNoVersions => throw TypeError
  | Text _ | Beautified _ => throw SyntaxError
  end.

(** ** The install queue: [sails.npmQueue = async.queue(worker, 1)] *)

(** Invoking a completion callback [cb(err)]. *)
Definition invoke (cb : option nat) (err : option error) (s : state) : state :=
  match cb with
  | Some f => with_joins (joins s) (calls s ++ [(f, err)])%list s
  | None => s
  end.

(** [async.each]'s [done(err)], the per-item callback of join [j]:
    an error goes to [callback] at once, which then becomes a no-op;
    otherwise [completed] grows and [callback()] runs when it reaches
    [arr.length]. *)
Definition done (j : nat) (err : option error) (s : state) : state :=
  match joins s !! j with
  | None => s
  | Some jn =>
      match err with
      | Some e =>
          invoke (callback jn) (Some e)
            (with_joins (<[j := Join (total jn) (completed jn) None]> (joins s)) (calls s) s)
      | None =>
          let s' := with_joins (<[j := Join (total jn) (S (completed jn)) (callback jn)]> (joins s))
                               (calls s) s in
          if (total jn <=? S (completed jn))%nat then invoke (callback jn) None s' else s'
      end
  end.

(** The worker (lines 10-16) up to the point where [exec] is started. *)
Definition worker (dir : string) (s : state) : state :=
  emit (Exec dir) (with_queue true (tasks s) (running s) (immediates s) s).

(** [sails.npmQueue.drain] *)
Definition drain (s : state) : state :=
  with_queue false (tasks s) (running s) (immediates s) s.

(** [q.process()]: starts the next task when no worker is busy. *)
Definition process (s : state) : state :=
  match running s, tasks s with
  | None, t :: ts =>
      worker (task_cwd t) (with_queue (maintenance s) ts (Some t) (immediates s) s)
  | _, _ => s
  end.

(** [q.push(dir, cb)] with [cb] the per-item callback of join [j]: the task
    is appended and [q.process] is deferred with [setImmediate]. *)
Definition push (dir : string) (j : nat) : M unit := λ s,
  (Ok (), emit (Push dir)
            (with_queue (maintenance s) (tasks s ++ [Task dir j])%list (running s)
                        (S (immediates s)) s)).

(** The event loop runs one deferred [q.process]. *)
Definition tick (s : state) : option state :=
  match immediates s with
  | O => None
  | S n => Some (process (with_queue (maintenance s) (tasks s) (running s) n s))
  end.

(** The running [npm update] exits; [exec]'s callback runs [cb(err)], that
    is the queue's [next]: the worker is released, the task's callback gets
    [err], [drain] runs if nothing is pending or in flight, and
    [q.process()] is called. *)
Definition exec_exit (err : option error) (s : state) : option state :=
  match running s with
  | None => None
  | Some t =>
      let s1 := with_queue (maintenance s) (tasks s) None (immediates s) s in
      let s2 := done (task_join t) err s1 in
      let s3 := match tasks s2 with [] => drain s2 | _ => s2 end in
      Some (process s3)
  end.

(** What the environment can do between two synchronous runs. *)
Inductive step :=
| Tick
| ExecExit (err : option error).

Definition run_step (e : step) (s : state) : option state :=
  match e with
  | Tick => tick s
  | ExecExit err => exec_exit err s
  end.

Fixpoint run_steps (es : list step) (s : state) : option state :=
  match es with
  | [] => Some s
  | e :: es' =>
      match run_step e s with
      | Some s' => run_steps es' s'
      | None => None
      end
  end.

(** [async.each(arr, iterator, callback)]: the iterator gets an item and
    the number of the join whose [done] is its callback. *)
Definition new_join (n : nat) (cb : option nat) (s : state) : state :=
  with_joins (joins s ++ [Join n 0 cb]) (calls s) s.

Definition async_each (arr : list string) (iterator : string → nat → M unit)
    (cb : option nat) : M unit := λ s,
  let j := length (joins s) in
  let s' := new_join (length arr) cb s in
  match arr with
  | [] => (Ok (), invoke cb None s')
  | _ => forEach (λ x, iterator x j) arr s'
  end.

(** ** cleanPacks *)

(** An argument position that may hold what it is meant for, a function,
    or nothing. *)
Inductive arg (A : Type) :=
| Given (a : A)
| Callback (f : option error → M unit)
| Undefined.
Arguments Given {A} a.
Arguments Callback {A} f.
Arguments Undefined {A}.

Definition Object_keys (data : arg document) : M (list string) :=
  match data with
  | Given d => ret (Js.keys d)
  | Callback _ => ret []
  | Undefined => throw TypeError
  end.

(** [options.export], as a truth value *)
Definition options_export (options : arg Options.t) : M bool :=
  match options with
  | Given o => ret (Options.export o)
  | Callback _ => ret false
  | Undefined => throw TypeError
  end.

Definition cleanPacks (options : arg Options.t) (data : arg document)
    (cb : option (option error → M unit)) : M unit :=
  let '(options, data, cb) :=
    match data, options with
    | Callback f, _ => (options, Given [], Some f)
    | _, Callback f => (Given (Options.Make false), Given [], Some f)
    | _, _ => (options, data, cb)
    end in
  let* curDirs := Object_keys data in
  let* export := options_export options in
  (* Make the dir if it doesn't exist *)
  try_catch (mkdirsSync export) (λ _, ret ()) ;;
  (* Get all of the machine pack subdirs *)
  let* curMachinePacks := readdirSync export in
  (* Find the ones that aren't present in the curDirs array *)
  let eraseDirs := Js.difference curMachinePacks curDirs in
  forEach (rmdirSyncRecursive export) eraseDirs ;;
  match cb with
  | Some f => f None
  | None => throw TypeError
  end.

(** ** writePacks *)

(** The manifest used when package.json does not exist:
    [{machinepack: {machines: [], machineVersions: {}}}]. *)
Definition emptyPackageJson : PackageJson.t := PackageJson.Make None [] [].

(** Lines 106-118: read and parse package.json; only [ENOENT] is caught. *)
Definition loadPackageJson (export : bool) (machineDir : string) : M PackageJson.t :=
  try_catch
    (let* packageJson := readFileSync export [machineDir; "package.json"] in
     JSON_parse packageJson)
    (λ e, if decide (e = ENOENT) then ret emptyPackageJson else throw e).

(** [_master.split(':')[0]] and [_master.split(':')[1]] *)
Definition master_of (_master : string) : string :=
  hd EmptyString (Js.split ":" _master).
Definition version_of (_master : string) : option string :=
  Js.split ":" _master !! 1%nat.

(** Lines 138-143: the text of a unit file, for a definition whose own
    properties [_.map] visits one by one in enumeration order, that is
    one without a numeric [length] property ([plain_def] below; lodash
    walks an object that has one as an array). *)
Definition render_field (kv : string * Js.json) : string :=
  if decide (kv.1 = "fn") then "fn:" +:+ Js.to_string kv.2
  else if decide (kv.1 = "name") then "identity: " +:+ Js.stringify kv.2
  else kv.1 +:+ ": " +:+ Js.stringify kv.2.

Definition render (def : machineDef) : content :=
  Beautified ("module.exports={" +:+ Js.newline
              +:+ Js.join ("," +:+ Js.newline) (map render_field def) +:+ "}").

(** Line 137:
    [!packageJson.machinepack.machineVersions[master] ||
      packageJson.machinepack.machineVersions[master] !== version] *)
Definition falsy (v : string) : bool := bool_decide (v = EmptyString).

Definition replace_it (packageJson : PackageJson.t) (master : string)
    (version : option string) : bool :=
  match Js.get (PackageJson.machineVersions packageJson) master with
  | None => true
  | Some v => falsy v || negb (bool_decide (Some v = version))
  end.

(** Lines 132-148: the body of the loop over the pack's machines. *)
Definition each_machine (export : bool) (machineDir : string)
    (packageJson : PackageJson.t) (newPackageJson : NewPackageJson.t)
    (entry : string * machineDef) : M NewPackageJson.t :=
  let master := master_of entry.1 in
  let version := version_of entry.1 in
  (if replace_it packageJson master version
   then writeFileSync UnitFile export [machineDir; master +:+ ".js"] (render entry.2)
   else ret ()) ;;
  ret (NewPackageJson.Make
         (NewPackageJson.dependencies newPackageJson)
         (NewPackageJson.machines newPackageJson ++ [master])%list
         (Js.set (NewPackageJson.machineVersions newPackageJson) master version)).

Fixpoint each_machines (export : bool) (machineDir : string)
    (packageJson : PackageJson.t) (newPackageJson : NewPackageJson.t)
    (machines : Js.obj machineDef) : M NewPackageJson.t :=
  match machines with
  | [] => ret newPackageJson
  | entry :: rest =>
      let* n := each_machine export machineDir packageJson newPackageJson entry in
      each_machines export machineDir packageJson n rest
  end.

(** [JSON.stringify(newPackageJson)], read as a value: properties whose
    value is [undefined] are left out. *)
Definition stringify_new (n : NewPackageJson.t) : PackageJson.t :=
  PackageJson.Make
    (NewPackageJson.dependencies n)
    (NewPackageJson.machines n)
    (omap (λ kv, (λ v, (kv.1, v)) <$> kv.2) (NewPackageJson.machineVersions n)).

Definition index_js : content :=
  Text "module.exports = require('node-machine').pack({pkg: require('./package.json'), dir: __dirname});".

(** Lines 100-158: the iterator of [async.each]; [j] names its callback. *)
Definition each_pack (export : bool) (data : document) (machineDir : string)
    (j : nat) : M unit :=
  (* Create the dir if necessary *)
  try_catch (mkdirSync export machineDir) (λ _, ret ()) ;;
  (* Get the package.json file *)
  let* packageJson := loadPackageJson export machineDir in
  match Js.get data machineDir with
  | None => throw TypeError
  | Some spec =>
      let machines := PackSpec.machines spec in
      let newMasters := map master_of (Js.keys machines) in
      let currentMasters := Js.keys (PackageJson.machineVersions packageJson) in
      let mastersToDelete := Js.difference currentMasters newMasters in
      (* Delete any masters that are no longer part of the pack *)
      forEach (λ master, unlinkSync export [master +:+ ".js"]) mastersToDelete ;;
      let newPackageJson :=
        NewPackageJson.Make (PackSpec.dependencies spec) [] [] in
      let* newPackageJson :=
        each_machines export machineDir packageJson newPackageJson machines in
      (* Output the package.json for this pack *)
      let output := Json (stringify_new newPackageJson) in
      if decide (output = Json packageJson) then
        λ s, (Ok (), done j None s)
      else
        writeFileSync ManifestFile export [machineDir; "package.json"] output ;;
        (* Write out the index file *)
        writeFileSync IndexFile export [machineDir; "index.js"] index_js ;;
        λ s, push (path_join (machinesDir export s) machineDir) j s
  end.

Definition writePacks (options : Options.t) (data : document) (cb : option nat)
    : M unit :=
  let export := Options.export options in
  async_each (Js.keys data) (each_pack export data) cb.

(** [reloadAllMachinePacks], from the moment [socket.get] has answered with
    [data]; a missing [cb] is [function(){}]. *)
Definition reloadAllMachinePacks (options : Options.t) (data : document)
    (cb : option nat) : M unit :=
  cleanPacks (Given options) (Given data)
    (Some (λ err,
       match err with
       | Some e => λ s, (Ok (), invoke cb (Some e) s)
       | None => writePacks options data cb
       end)).

(** A fresh process: nothing queued, the flag not set. *)
Definition boot (dir : string) (exported hosted : option (gmap string node)) : state :=
  State dir exported hosted [] false [] None 0 [] [].

(** ** Observations used in the statements *)

(** The pack subdirectories of a cache root. *)
Definition is_dir (n : node) : bool :=
  match n with Dir _ => true | File _ => false end.

Definition pack_dirs (r : option (gmap string node)) : gset string :=
  match r with
  | Some t => dom (filter (λ kv, is_dir kv.2 = true) t)
  | None => ∅
  end.

(** The files of pack [pack], when it is a directory. *)
Definition pack_files (r : option (gmap string node)) (pack : string)
    : option (gmap string content) :=
  match r with
  | Some t => match t !! pack with Some (Dir d) => Some d | _ => None end
  | None => None
  end.

(** [s] extended by the events [evs]. *)
Definition emit_list (evs : list event) (s : state) : state :=
  State (cwd s) (cwd_machines s) (yarr_machines s) (trace s ++ evs)%list
        (maintenance s) (tasks s) (running s) (immediates s) (joins s) (calls s).

Definition is_write (k : kind) (e : event) : bool :=
  match e with Write k' _ _ => bool_decide (k' = k) | _ => false end.
Definition is_push (e : event) : bool :=
  match e with Push _ => true | _ => false end.
Definition is_unlink (e : event) : bool :=
  match e with Unlink _ => true | _ => false end.

(** Events that change the file system. *)
Definition is_fs_change (e : event) : bool :=
  match e with
  | Mkdir _ | Rmdir _ | Unlink _ | Write _ _ _ => true
  | Push _ | Exec _ => false
  end.

(** [newPackageJson] as the loop over the machines leaves it. *)
Definition candidate_step (n : NewPackageJson.t) (_master : string) : NewPackageJson.t :=
  NewPackageJson.Make
    (NewPackageJson.dependencies n)
    (NewPackageJson.machines n ++ [master_of _master])%list
    (Js.set (NewPackageJson.machineVersions n) (master_of _master) (version_of _master)).

Definition candidate (spec : PackSpec.t) : NewPackageJson.t :=
  foldl candidate_step
        (NewPackageJson.Make (PackSpec.dependencies spec) [] [])
        (Js.keys (PackSpec.machines spec)).

(** The unit files the loop writes for [machines] against the loaded
    manifest: file name and text, in order. *)
Definition unit_writes (packageJson : PackageJson.t) (machines : Js.obj machineDef)
    : list (string * content) :=
  map (λ entry, (master_of entry.1 +:+ ".js", render entry.2))
      (filter (λ entry, replace_it packageJson (master_of entry.1) (version_of entry.1) = true)
              machines).

(** The manifest [loadPackageJson] yields for the files [d] of a pack. *)
Definition manifest_of (d : gmap string content) : result PackageJson.t :=
  match d !! "package.json" with
  | None => Ok emptyPackageJson
  | Some (Json p) => Ok p
  | Some JsonNoVersions => Throw TypeError
  | Some _ => Throw SyntaxError
  end.

(** Scheduling: the first failed install of a schedule, and the number of
    installs that have exited. *)
Fixpoint first_error (es : list step) : option error :=
  match es with
  | [] => None
  | ExecExit (Some e) :: _ => Some e
  | _ :: es' => first_error es'
  end.

Definition is_exit (e : step) : bool :=
  match e with ExecExit _ => true | Tick => false end.

Definition exits (es : list step) : nat := length (filter (λ e, is_exit e = true) es).

(** What the completion callback [cb] of a run with [k] installs has
    received after the schedule [es]. *)
Definition delivered (cb : nat) (k : nat) (es : list step) : list (nat * option error) :=
  match first_error es with
  | Some e => [(cb, Some e)]
  | None => if decide (exits es = k) then [(cb, None)] else []
  end.

(** Queue activity including enqueues, and the history of the flag. *)
Inductive action :=
| Enqueue (dir : string) (j : nat)
| Env (e : step).

Definition run_action (a : action) (s : state) : option state :=
  match a with
  | Enqueue dir j => Some (push dir j s).2
  | Env e => run_step e s
  end.

Fixpoint run_actions (acts : list action) (s : state) : option state :=
  match acts with
  | [] => Some s
  | a :: acts' =>
      match run_action a s with
      | Some s' => run_actions acts' s'
      | None => None
      end
  end.

(** The flag after each action of [acts], in order. *)
Fixpoint flag_history (acts : list action) (s : state) : option (list bool) :=
  match acts with
  | [] => Some []
  | a :: acts' =>
      match run_action a s with
      | Some s' => (λ h, maintenance s' :: h) <$> flag_history acts' s'
      | None => None
      end
  end.

(** Number of changes of value along [b :: h]. *)
Fixpoint changes (b : bool) (h : list bool) : nat :=
  match h with
  | [] => 0
  | b' :: h' => (if bool_decide (b = b') then 0 else 1) + changes b' h'
  end.

Definition idle (s : state) : Prop :=
  tasks s = [] ∧ running s = None ∧ immediates s = 0%nat.

(** ** Auxiliary notions for the proofs and scenarios *)

(** The flag is set exactly while a command is in flight, and an idle
    worker with pending tasks still has a processing step scheduled. *)
Definition flag_inv (s : state) : Prop :=
  (maintenance s = true ↔ is_Some (running s)) ∧
  (running s = None → length (tasks s) ≤ immediates s).

(** The queue as the flag sees it: flag, pending tasks, task in flight,
    scheduled processing steps. *)
Definition qview (s : state) : bool * list task * option task * nat :=
  (maintenance s, tasks s, running s, immediates s).

Definition qstep (a : action) (v : bool * list task * option task * nat)
    : option (bool * list task * option task * nat) :=
  let '(m, ts, r, i) := v in
  match a with
  | Enqueue dir j => Some (m, ts ++ [Task dir j], r, S i)
  | Env Tick =>
      match i with
      | O => None
      | S n =>
          match r, ts with
          | None, t :: ts' => Some (true, ts', Some t, n)
          | _, _ => Some (m, ts, r, n)
          end
      end
  | Env (ExecExit _) =>
      match r with
      | None => None
      | Some _ =>
          match ts with
          | [] => Some (false, [], None, i)
          | t :: ts' => Some (true, ts', Some t, i)
          end
      end
  end.

Fixpoint qhistory (acts : list action) (v : bool * list task * option task * nat)
    : option (list bool) :=
  match acts with
  | [] => Some []
  | a :: acts' =>
      match qstep a v with
      | Some v' => (λ h, v'.1.1.1 :: h) <$> qhistory acts' v'
      | None => None
      end
  end.

(** The event of writing unit file [f] of pack [machineDir]. *)
Definition unit_event (export : bool) (machineDir : string) (s : state)
    (f : string * content) : event :=
  Write UnitFile (full_path export [machineDir; f.1] s) f.2.

Definition put_files (d : gmap string content) (fs : list (string * content))
    : gmap string content :=
  foldl (λ d f, <[f.1 := f.2]> d) d fs.

(** Directory creations. *)
Definition is_mkdir (e : event) : bool :=
  match e with Mkdir _ => true | _ => false end.

(** The state in which [each_pack] leaves a pack whose directory holds
    [d], after the events [evs] that came before the unit files and with
    [t] the cache root at that point. *)
Definition pack_outcome (export : bool) (p : string) (j : nat) (spec : PackSpec.t)
    (old : PackageJson.t) (d : gmap string content) (evs : list event)
    (t : gmap string node) (s : state) : state :=
  let writes := unit_writes old (PackSpec.machines spec) in
  let d_c := put_files d writes in
  let cand := stringify_new (candidate spec) in
  let dir := path_join (machinesDir export s) p in
  if decide (cand = old) then
    done j None
      (emit_list (evs ++ map (unit_event export p s) writes)
                 (with_root export (Some (<[p := Dir d_c]> t)) s))
  else
    emit_list
      (evs ++ map (unit_event export p s) writes ++
       [Write ManifestFile (full_path export [p; "package.json"] s) (Json cand);
        Write IndexFile (full_path export [p; "index.js"] s) index_js;
        Push dir])
      (with_queue (maintenance s) (tasks s ++ [Task dir j]) (running s)
         (S (immediates s))
         (with_root export
            (Some (<[p := Dir (<["index.js" := index_js]>
                                 (<["package.json" := Json cand]> d_c))]> t))
            s)).

(** Events that are neither a manifest or index write nor an enqueue. *)
Definition quiet (e : event) : Prop :=
  is_write ManifestFile e = false ∧ is_write IndexFile e = false ∧ is_push e = false.

(** When line 137 asks for the unit file to be written: nothing is
    recorded for the base name, or what is recorded is the empty string,
    or it differs from the desired version. *)
Definition rewritten (old : PackageJson.t) (_master : string) : Prop :=
  let recorded := Js.get (PackageJson.machineVersions old) (master_of _master) in
  recorded = None ∨ recorded = Some EmptyString ∨ recorded ≠ version_of _master.

Global Instance rewritten_dec old _master : Decision (rewritten old _master).
Proof. unfold rewritten. apply _. Defined.

(** The manifest the specification describes for a pack without
    package.json: an empty dependencies mapping, no machines, no
    versions. *)
Definition documented_empty_manifest : PackageJson.t :=
  PackageJson.Make (Some []) [] [].

(** Whether a file holds JSON text. *)
Definition is_json (c : content) : bool :=
  match c with Json _ | JsonNoVersions => true | Text _ | Beautified _ => false end.

(** Everything but the file system and the trace. *)
Definition sched (s : state)
    : bool * list task * option task * nat * list join * list (nat * option error) :=
  (maintenance s, tasks s, running s, immediates s, joins s, calls s).

(** The invocation of a completion callback, as an entry of [calls]. *)
Definition invoked (cb : option nat) (err : option error) : list (nat * option error) :=
  match cb with
  | Some f => [(f, err)]
  | None => []
  end.

(** The first error of [es], unless one ([fe]) came before. *)
Definition combine_error (fe : option error) (es : list step) : option error :=
  match fe with
  | Some e => Some e
  | None => first_error es
  end.

(** What the callback [cb] of a run with [k] installs has received once
    [m] installs have exited, [fe] being the first error among them. *)
Definition received (cb k m : nat) (fe : option error) : list (nat * option error) :=
  match fe with
  | Some e => [(cb, Some e)]
  | None => if decide (m = k) then [(cb, None)] else []
  end.

(** The installs of one run (join [j], [n] packs, [k] installs, callback
    [cb]) while they are processed: [m] have exited, [fe] is the first
    error; [base] is what had been delivered before the run. *)
Definition run_inv (j n k cb : nat) (base : list (nat * option error))
    (m : nat) (fe : option error) (s : state) : Prop :=
  k ≤ n ∧
  length (tasks s) + (match running s with Some _ => 1 | None => 0 end) + m = k ∧
  (∀ t, running s = Some t → task_join t = j) ∧
  Forall (λ t, task_join t = j) (tasks s) ∧
  (∃ c, joins s !! j =
          Some (Join n c (match fe with Some _ => None | None => Some cb end)) ∧
        (fe = None → c = n - k + m)) ∧
  calls s = base ++ received cb k m fe.

(** A pack whose unit keys have pairwise distinct base names, none of
    them [__proto__], and each a non-empty version. *)
Definition versioned (_master : string) : bool :=
  match version_of _master with
  | Some v => negb (falsy v)
  | None => false
  end.

Definition recordable (_master : string) : bool :=
  negb (bool_decide (master_of _master = "__proto__")).

Definition tidy (spec : PackSpec.t) : bool :=
  bool_decide (NoDup (map master_of (Js.keys (PackSpec.machines spec)))) &&
  forallb (λ k, versioned k && recordable k) (Js.keys (PackSpec.machines spec)).

Definition tidy_document (D : document) : bool :=
  forallb (λ kv, tidy kv.2) D.

(** Whether a file name ends in [.js]. *)
Fixpoint ends_in_js (name : string) : bool :=
  match name with
  | EmptyString => false
  | String c rest => bool_decide (name = ".js") || ends_in_js rest
  end.

(** The file system: working directory and the two cache roots. *)
Definition disk (s : state)
    : string * option (gmap string node) * option (gmap string node) :=
  (cwd s, cwd_machines s, yarr_machines s).

(** The cache root agrees with the document [D] for the packs [ps]: it
    exists, its directories are keys of [D], and each pack of [ps] has
    its directory, with a manifest that prints like its candidate. *)
Definition settled_for (export : bool) (D : document) (ps : list string)
    (s : state) : Prop :=
  ∃ t, root export s = Some t ∧
    (∀ n d, t !! n = Some (Dir d) → n ∈ Js.keys D) ∧
    (∀ p spec, p ∈ ps → Js.get D p = Some spec →
       ∃ d, t !! p = Some (Dir d) ∧
            manifest_of d = Ok (stringify_new (candidate spec))).

(** The scenario of a first synchronisation: one pack with one unit. *)
Module Example.
Definition u1 : machineDef :=
  [("fn", Js.JStr "function(i,e){e.success();}"); ("name", Js.JStr "u1")].
Definition packA : PackSpec.t :=
  PackSpec.Make [("u1:1.0", u1)] (Some [("request", "0.2.8")]).
Definition D : document := [("packA", packA)].
(** a process started in /app, with an empty cache root *)
Definition empty_cache : state := boot "/app" None (Some ∅).
Definition started : state := new_join 1 (Some 7) empty_cache.
Definition synced : state := (each_pack false D "packA" 0 started).2.
(** after [writePacks], and after the install then failed with code 1 *)
Definition queued : state := (writePacks (Options.Make false) D (Some 7) empty_cache).2.
Definition failed : state :=
  default queued (run_steps [Tick; ExecExit (Some (ExecError 1))] queued).
End Example.

(** A pack on disk with units [a] and [b], both at version 1, and a
    desired state that keeps only [a]. *)
Module Stale.
Definition old : PackageJson.t :=
  PackageJson.Make (Some []) ["a"; "b"] [("a", "1"); ("b", "1")].
Definition files : gmap string content :=
  {[ "package.json" := Json old;
     "a.js" := render Example.u1;
     "b.js" := render Example.u1;
     "index.js" := index_js ]}.
Definition D : document := [("p", PackSpec.Make [("a:1", Example.u1)] (Some []))].
(** the cache root holds the pack only *)
Definition disk : state := boot "/app" None (Some {[ "p" := Dir files ]}).
(** the cache root also holds a plain file named b.js *)
Definition disk_with_root_file : state :=
  boot "/app" None (Some {[ "p" := Dir files; "b.js" := File (Text "x") ]}).
End Stale.

(** ** Frames *)

(** [m] relates the state it starts in to the state it leaves, whatever
    its outcome. *)
Definition preserves {A} (R : state → state → Prop) (m : M A) : Prop :=
  ∀ s r s', m s = (r, s') → R s s'.

Definition is_exec (e : event) : bool :=
  match e with Exec _ => true | _ => false end.

(** What synchronous code working under the cache root [export] may do:
    anything to that root, further events but no command started, tasks
    appended to the queue, callbacks invoked. *)
Definition sync_frame (export : bool) (s s' : state) : Prop :=
  cwd s' = cwd s ∧
  root (negb export) s' = root (negb export) s ∧
  maintenance s' = maintenance s ∧
  running s' = running s ∧
  (∃ ts, tasks s' = tasks s ++ ts) ∧
  (∃ cs, calls s' = calls s ++ cs) ∧
  (∃ evs, trace s' = trace s ++ evs ∧ Forall (λ e, is_exec e = false) evs).

(** Pack directories stay, and so does every file in them. *)
Definition keeps_files (export : bool) (s s' : state) : Prop :=
  ∀ q d, pack_files (root export s) q = Some d →
    ∃ d', pack_files (root export s') q = Some d' ∧
          ∀ name, is_Some (d !! name) → is_Some (d' !! name).

(** The cache root after pruning for the document keys [curDirs]. *)
Definition pruned (curDirs : list string) (t : gmap string node) (n : string)
    : option node :=
  match t !! n with
  | Some (Dir d) => if decide (n ∈ curDirs) then Some (Dir d) else None
  | x => x
  end.

Definition is_rmdir (e : event) : bool :=
  match e with Rmdir _ => true | _ => false end.

(** ** The install queue as the trace shows it *)

(** The directories of the commands started, and of the tasks pushed, in
    the order of the trace. *)
Definition execs (evs : list event) : list string :=
  omap (λ e, match e with Exec d => Some d | _ => None end) evs.

Definition enqueued (acts : list action) : list string :=
  omap (λ a, match a with Enqueue d _ => Some d | Env _ => None end) acts.

Definition exited (acts : list action) : nat :=
  exits (omap (λ a, match a with Env e => Some e | Enqueue _ _ => None end) acts).

(** The number of commands in flight: at most one. *)
Definition in_flight (s : state) : nat :=
  match running s with Some _ => 1 | None => 0 end.

Definition enqueue (t : task) : action := Enqueue (task_cwd t) (task_join t).

(** ** Unit keys *)

Fixpoint no_colon (s : string) : bool :=
  match s with
  | EmptyString => true
  | String c s' => negb (Ascii.eqb c ":") && no_colon s'
  end.

(** Every pack directory other than [p] is as it was. *)
Definition same_others (export : bool) (p : string) (s s' : state) : Prop :=
  ∀ q, q ≠ p → pack_files (root export s') q = pack_files (root export s) q.

(** ** Names and definitions the model is exact for *)

(** The model addresses an entry of a directory by its name, where the
    code calls [path.join] (POSIX), and they agree on names that are
    single path segments.  [slash_free]: no ['/'] and no NUL character;
    a base name [m] of that kind makes [m + '.js'] a file directly in
    the directory it is joined to.  [segment]: moreover not empty and
    neither [.] nor [..]; [path.join(dir, name)] is then the entry
    [name] of [dir], and two different segments are two different
    entries. *)
Fixpoint slash_free (name : string) : bool :=
  match name with
  | EmptyString => true
  | String c rest =>
      negb (Ascii.eqb c "/") && negb (Ascii.eqb c (ascii_of_N 0)) && slash_free rest
  end.

Definition segment (name : string) : bool :=
  slash_free name &&
  negb (bool_decide (name = EmptyString)) &&
  negb (bool_decide (name = ".")) &&
  negb (bool_decide (name = "..")).

(** [render] follows [_.map] over the own properties of the definition;
    lodash walks an object with a numeric [length] property as an array
    instead (for which lengths depends on its version), so [render] is
    the text written for definitions without one. *)
Definition plain_def (def : machineDef) : bool :=
  match Js.get def "length" with
  | Some (Js.JNum _) => false
  | _ => true
  end.

(** A pack spec whose unit keys have base names without ['/'], and one
    whose definitions have no numeric [length]. *)
Definition plain_units (spec : PackSpec.t) : bool :=
  forallb (λ k, slash_free (master_of k)) (Js.keys (PackSpec.machines spec)).

Definition plain_defs (spec : PackSpec.t) : bool :=
  forallb (λ entry : string * machineDef, plain_def entry.2) (PackSpec.machines spec).

(** A document whose pack names are single path segments and whose unit
    base names have no ['/']. *)
Definition plain_names (D : document) : bool :=
  forallb (λ kv : string * PackSpec.t, segment kv.1 && plain_units kv.2) D.

(** A cache root in which the manifests that parse record base names
    without ['/'] only: what line 128 joins to [machinesDir] is then a
    file name. *)
Definition plain_node (n : node) : bool :=
  match n with
  | Dir d =>
      match manifest_of d with
      | Ok old => forallb slash_free (Js.keys (PackageJson.machineVersions old))
      | Throw _ => true
      end
  | File _ => true
  end.

Definition plain_manifests (r : option (gmap string node)) : bool :=
  match r with
  | Some t => bool_decide (map_Forall (λ _ n, plain_node n = true) t)
  | None => true
  end.

(** The installs of a loop that an exception has ended (join [j] of [n]
    packs, [k] installs queued by the packs visited, callback [cb]) while
    they are processed: [m] have exited, [fe] is the first error; the
    completions still possible cannot bring the join to [n]. *)
Definition stalled_inv (j n k : nat) (cb : option nat)
    (base : list (nat * option error)) (m : nat) (fe : option error)
    (s : state) : Prop :=
  length (tasks s) + (match running s with Some _ => 1 | None => 0 end) + m = k ∧
  (∀ t, running s = Some t → task_join t = j) ∧
  Forall (λ t, task_join t = j) (tasks s) ∧
  (∃ c, joins s !! j =
          Some (Join n c (match fe with Some _ => None | None => cb end)) ∧
        c + (k - m) < n) ∧
  calls s = base ++ match fe with Some e => invoked cb (Some e) | None => [] end.

(** A document in which no unit definition has a numeric [length]. *)
Definition plain_definitions (D : document) : bool :=
  forallb (λ kv : string * PackSpec.t, plain_defs kv.2) D.

(** * Properties *)

(** ** The install queue and the maintenance flag *)

Section Queue.

Lemma invoke_queue cb err s :
  maintenance (invoke cb err s) = maintenance s ∧
  tasks (invoke cb err s) = tasks s ∧
  running (invoke cb err s) = running s ∧
  immediates (invoke cb err s) = immediates s.
Proof. by destruct cb. Qed.

Lemma done_queue j err s :
  maintenance (done j err s) = maintenance s ∧
  tasks (done j err s) = tasks s ∧
  running (done j err s) = running s ∧
  immediates (done j err s) = immediates s.
Proof.
  unfold done, invoke. repeat case_match; done.
Qed.

Lemma flag_inv_process s :
  (maintenance s = true ↔ is_Some (running s)) →
  (maintenance (process s) = true ↔ is_Some (running (process s))).
Proof.
  unfold process. destruct (running s) eqn:Hr; [by rewrite Hr|].
  destruct (tasks s) eqn:Ht; [by rewrite Hr|].
  simpl. split; eauto.
Qed.

Lemma flag_inv_step a s s' :
  flag_inv s → run_action a s = Some s' → flag_inv s'.
Proof.
  intros [Hm Hp] Hrun. destruct a as [dir j|[|err]]; simpl in Hrun.
  - injection Hrun as <-. split; simpl; [done|].
    intros Hr. rewrite length_app. simpl. specialize (Hp Hr). lia.
  - unfold tick in Hrun. destruct (immediates s) as [|n] eqn:Hi; [done|].
    injection Hrun as <-. split.
    + by apply flag_inv_process.
    + unfold process. simpl. destruct (running s) eqn:Hr; simpl; [done|].
      destruct (tasks s) eqn:Ht; simpl; [lia|done].
  - unfold exec_exit in Hrun. destruct (running s) as [t|] eqn:Hr; [|done].
    injection Hrun as <-.
    set (s1 := with_queue _ _ _ _ s).
    destruct (done_queue (task_join t) err s1) as (Dm & Dt & Dr & Di).
    set (s2 := done _ _ s1) in *.
    destruct (tasks s2) as [|t' ts] eqn:Ht.
    + unfold process, drain. simpl. rewrite Dr, Ht. simpl.
      split; [|intros _; simpl; lia]. split; [done|]. by intros [? ?].
    + unfold process. rewrite Dr, Ht. simpl. split; [|done].
      split; eauto.
Qed.

Lemma flag_inv_run acts : ∀ s s',
  flag_inv s → run_actions acts s = Some s' → flag_inv s'.
Proof.
  induction acts as [|a acts IH]; intros s s' Hinv Hrun; simpl in Hrun.
  - by injection Hrun as <-.
  - destruct (run_action a s) as [s1|] eqn:Ha; [|done].
    eapply IH; [|done]. by eapply flag_inv_step.
Qed.

End Queue.

(** C9 (as stated, refuted): right after the first enqueue onto an idle
    queue a task is pending and the maintenance flag is still false; it
    is the worker, started by the deferred [q.process], that sets it. *)
Lemma C9_flag_still_false_after_first_enqueue :
  let s0 := boot "/app" None None in
  let s1 := (push "/app/node_modules/yarr/node_machines/p" 0 s0).2 in
  idle s0 ∧ maintenance s0 = false ∧
  tasks s1 = [Task "/app/node_modules/yarr/node_machines/p" 0] ∧
  running s1 = None ∧ maintenance s1 = false ∧
  (maintenance <$> tick s1) = Some true.
Proof. vm_compute. repeat split; reflexivity. Qed.

Lemma qview_step a s : qview <$> run_action a s = qstep a (qview s).
Proof.
  unfold qview. destruct a as [dir j|[|err]]; simpl.
  - reflexivity.
  - unfold tick, process. destruct (immediates s); simpl; [done|].
    destruct (running s), (tasks s); reflexivity.
  - unfold exec_exit. destruct (running s) as [t|] eqn:Hr; simpl; [|done].
    set (s1 := with_queue _ _ _ _ s).
    destruct (done_queue (task_join t) err s1) as (Dm & Dt & Dr & Di).
    set (s2 := done _ _ s1) in *. simpl in *.
    destruct (tasks s) as [|t' ts]; rewrite Dt.
    + unfold process, drain. simpl. by rewrite Dr, Dt, Di.
    + unfold process. rewrite Dr, Dt. simpl. by rewrite Di.
Qed.

Lemma flag_history_qhistory acts : ∀ s, flag_history acts s = qhistory acts (qview s).
Proof.
  induction acts as [|a acts IH]; intros s; [done|].
  cbn [flag_history qhistory]. pose proof (qview_step a s) as H.
  destruct (run_action a s) as [s'|]; rewrite <- H; [|done].
  cbn [fmap option_fmap option_map]. by rewrite IH.
Qed.

(** C9 (amended): starting from an idle queue with the flag false, after
    any sequence of enqueues, deferred processing steps and command exits
    the flag is true exactly while an install command is in flight (so it
    stays true while tasks wait behind a running one and is false again
    exactly when the queue has drained), and tasks pending on an idle
    worker always have their processing step still scheduled.  With three
    enqueues made back to back and then processed, the flag goes false,
    true, false: exactly one rise and one fall. *)
Theorem C9_maintenance_flag_lifecycle (s : state) :
  idle s → maintenance s = false →
  (∀ acts s', run_actions acts s = Some s' →
     (maintenance s' = true ↔ is_Some (running s')) ∧
     (running s' = None → length (tasks s') ≤ immediates s')) ∧
  (∀ d1 d2 d3 j1 j2 j3 e1 e2 e3,
     flag_history [Enqueue d1 j1; Enqueue d2 j2; Enqueue d3 j3;
                   Env Tick; Env Tick; Env Tick;
                   Env (ExecExit e1); Env (ExecExit e2); Env (ExecExit e3)] s
     = Some [false; false; false; true; true; true; true; true; false]) ∧
  changes false [false; false; false; true; true; true; true; true; false] = 2.
Proof.
  intros (Ht & Hr & Hi) Hm. split; [|split; [|reflexivity]].
  - intros acts s' Hrun. eapply flag_inv_run; [|done].
    split; [|rewrite Ht; simpl; lia].
    rewrite Hm, Hr. split; [done|]. by intros [? ?].
  - intros. rewrite flag_history_qhistory. unfold qview.
    rewrite Ht, Hr, Hi, Hm. reflexivity.
Qed.

Lemma C9_maintenance_flag_lifecycle_witness :
  let s := boot "/app" None None in
  (∀ acts s', run_actions acts s = Some s' →
     (maintenance s' = true ↔ is_Some (running s')) ∧
     (running s' = None → length (tasks s') ≤ immediates s')) ∧
  (∀ d1 d2 d3 j1 j2 j3 e1 e2 e3,
     flag_history [Enqueue d1 j1; Enqueue d2 j2; Enqueue d3 j3;
                   Env Tick; Env Tick; Env Tick;
                   Env (ExecExit e1); Env (ExecExit e2); Env (ExecExit e3)] s
     = Some [false; false; false; true; true; true; true; true; false]) ∧
  changes false [false; false; false; true; true; true; true; true; false] = 2.
Proof.
  apply (C9_maintenance_flag_lifecycle (boot "/app" None None)).
  - repeat split; reflexivity.
  - reflexivity.
Defined.

(** ** The pruner *)

Section Pruner.

Lemma root_with_root export r s : root export (with_root export r s) = r.
Proof. by destruct export. Qed.

Lemma root_with_root_other export r s :
  root (negb export) (with_root export r s) = root (negb export) s.
Proof. by destruct export. Qed.

Lemma root_emit export e s : root export (emit e s) = root export s.
Proof. by destruct export. Qed.

Lemma elem_of_pack_dirs t n :
  n ∈ pack_dirs (Some t) ↔ ∃ d, t !! n = Some (Dir d).
Proof.
  unfold pack_dirs. rewrite elem_of_dom. unfold is_Some.
  setoid_rewrite map_lookup_filter_Some. simpl. split.
  - intros ([c|d] & Hl & Hd); [done|eauto].
  - intros (d & Hl). eauto.
Qed.

Lemma elem_of_readdir (t : gmap string node) n :
  n ∈ (map_to_list t).*1 ↔ is_Some (t !! n).
Proof.
  rewrite list_elem_of_fmap. split.
  - intros ([k v] & -> & Hin). apply elem_of_map_to_list in Hin. eauto.
  - intros [v Hv]. exists (n, v). split; [done|]. by apply elem_of_map_to_list.
Qed.

(** The loop of recursive removals takes away exactly the directories
    named in the list; files are left alone. *)
Lemma forEach_rmdir export l : ∀ s t,
  root export s = Some t →
  ∃ s' t', forEach (rmdirSyncRecursive export) l s = (Ok (), s') ∧
    root export s' = Some t' ∧
    (∀ n, t' !! n = match t !! n with
                    | Some (Dir d) => if decide (n ∈ l) then None else Some (Dir d)
                    | x => x
                    end).
Proof.
  induction l as [|x l IH]; intros s t Hroot.
  - exists s, t. split; [done|]. split; [done|].
    intros n. destruct (t !! n) as [[|]|]; first [done | by rewrite decide_False by set_solver].
  - cbn [forEach]. unfold bind at 1. unfold rmdirSyncRecursive at 1. rewrite Hroot.
    destruct (t !! x) as [[c|d]|] eqn:Hx.
    + destruct (IH s t Hroot) as (s' & t' & Hrun & Hr & Hl).
      exists s', t'. split; [done|]. split; [done|]. intros n. rewrite Hl.
      destruct (t !! n) as [[|]|] eqn:Hn; try done.
      assert (n ≠ x) by congruence.
      destruct (decide (n ∈ l)), (decide (n ∈ x :: l)); set_solver.
    + edestruct (IH (emit (Rmdir (full_path export [x] s))
                       (with_root export (Some (delete x t)) s)) (delete x t))
        as (s' & t' & Hrun & Hr & Hl).
      { by rewrite root_emit, root_with_root. }
      exists s', t'. split; [done|]. split; [done|]. intros n. rewrite Hl.
      destruct (decide (n = x)) as [->|Hne].
      * rewrite lookup_delete_eq, Hx. by rewrite decide_True by set_solver.
      * rewrite lookup_delete_ne by done.
        destruct (t !! n) as [[|]|] eqn:Hn; try done.
        destruct (decide (n ∈ l)), (decide (n ∈ x :: l)); set_solver.
    + destruct (IH s t Hroot) as (s' & t' & Hrun & Hr & Hl).
      exists s', t'. split; [done|]. split; [done|]. intros n. rewrite Hl.
      destruct (t !! n) as [[|]|] eqn:Hn; try done.
      assert (n ≠ x) by congruence.
      destruct (decide (n ∈ l)), (decide (n ∈ x :: l)); set_solver.
Qed.

(** The body of [cleanPacks] once its arguments are sorted out. *)
Lemma prune_dirs export (curDirs : list string) s :
  ∃ s1 curMachinePacks s',
    try_catch (mkdirsSync export) (λ _, ret ()) s = (Ok (), s1) ∧
    readdirSync export s1 = (Ok curMachinePacks, s1) ∧
    forEach (rmdirSyncRecursive export) (Js.difference curMachinePacks curDirs) s1
      = (Ok (), s') ∧
    is_Some (root export s') ∧
    pack_dirs (root export s') = pack_dirs (root export s) ∩ list_to_set curDirs.
Proof.
  unfold try_catch, mkdirsSync.
  destruct (root export s) as [t|] eqn:Hroot.
  - exists s, (map_to_list t).*1. unfold readdirSync. rewrite Hroot.
    destruct (forEach_rmdir export (Js.difference (map_to_list t).*1 curDirs) s t Hroot)
      as (s' & t' & Hrun & Hr & Hl).
    exists s'. split; [done|]. split; [done|]. split; [done|]. rewrite Hr.
    split; [eauto|].
    apply set_eq. intros n. rewrite elem_of_intersection, !elem_of_pack_dirs.
    rewrite elem_of_list_to_set. rewrite Hl. unfold Js.difference.
    split.
    + intros (d & Hd). destruct (t !! n) as [[c|d']|] eqn:Hn; try done.
      case_decide as Hin; [done|]. split; [eauto|].
      rewrite list_elem_of_filter, elem_of_readdir, Hn in Hin.
      destruct (decide (n ∈ curDirs)); [done|]. exfalso. apply Hin. eauto.
    + intros ((d & Hd) & Hin). rewrite Hd. exists d.
      rewrite decide_False; [done|]. rewrite list_elem_of_filter. tauto.
  - exists (emit (Mkdir (machinesDir export s)) (with_root export (Some ∅) s)), [].
    unfold readdirSync. rewrite root_emit, root_with_root.
    rewrite map_to_list_empty. simpl. eexists. split; [done|]. split; [done|].
    split; [done|]. rewrite root_emit, root_with_root. split; [eauto|].
    apply set_eq. intros n.
    rewrite elem_of_intersection, elem_of_pack_dirs. setoid_rewrite lookup_empty.
    simpl. split; [by intros (? & ?)|]. set_solver.
Qed.

End Pruner.

(** C4: whatever the document [D] and whatever is on disk, when
    [cleanPacks] hands over to its callback the pack subdirectories of
    the cache root are exactly those that were there and are keys of [D]
    (names compared as exact strings), and the callback gets no error. *)
Theorem C4_cleanPacks_keeps_exactly_the_desired_packs
    (options : Options.t) (D : document) (f : option error → M unit) (s : state) :
  ∃ s', cleanPacks (Given options) (Given D) (Some f) s = f None s' ∧
    pack_dirs (root (Options.export options) s') =
      pack_dirs (root (Options.export options) s) ∩ list_to_set (Js.keys D).
Proof.
  destruct (prune_dirs (Options.export options) (Js.keys D) s)
    as (s1 & names & s' & Hmk & Hrd & Hrm & _ & Hdirs).
  exists s'. split; [|done].
  unfold cleanPacks. cbn [Object_keys options_export].
  unfold bind at 1. unfold ret at 1. unfold bind at 1. unfold ret at 1.
  unfold bind at 1. rewrite Hmk. unfold bind at 1. rewrite Hrd.
  unfold bind at 1. by rewrite Hrm.
Qed.

(** C10: with the callback in the place of the document, or in the place
    of the options, the desired set is empty: every pack subdirectory of
    the cache root is removed and the callback is invoked with no error.
    In the second case the options are reset, so the cache root is the
    one under node_modules/yarr. *)
Theorem C10_cleanPacks_with_callback_in_place_of_data
    (options : Options.t) (D : document) (f : option error → M unit)
    (cb : option (option error → M unit)) (s : state) :
  (∃ s', cleanPacks (Given options) (Callback f) cb s = f None s' ∧
         pack_dirs (root (Options.export options) s') = ∅) ∧
  (∃ s', cleanPacks (Callback f) Undefined cb s = f None s' ∧
         pack_dirs (root false s') = ∅) ∧
  (∃ s', cleanPacks (Callback f) (Given D) cb s = f None s' ∧
         pack_dirs (root false s') = ∅).
Proof.
  split; [|split].
  - destruct (prune_dirs (Options.export options) [] s)
      as (s1 & names & s' & Hmk & Hrd & Hrm & _ & Hdirs).
    exists s'. split; [|set_solver].
    unfold cleanPacks. cbn [Object_keys options_export Js.keys fmap list_fmap].
    unfold bind at 1. unfold ret at 1. unfold bind at 1. unfold ret at 1.
    unfold bind at 1. rewrite Hmk. unfold bind at 1. rewrite Hrd.
    unfold bind at 1. by rewrite Hrm.
  - destruct (prune_dirs false [] s) as (s1 & names & s' & Hmk & Hrd & Hrm & _ & Hdirs).
    exists s'. split; [|set_solver].
    unfold cleanPacks. cbn [Object_keys options_export Js.keys fmap list_fmap Options.export].
    unfold bind at 1. unfold ret at 1. unfold bind at 1. unfold ret at 1.
    unfold bind at 1. rewrite Hmk. unfold bind at 1. rewrite Hrd.
    unfold bind at 1. by rewrite Hrm.
  - destruct (prune_dirs false [] s) as (s1 & names & s' & Hmk & Hrd & Hrm & _ & Hdirs).
    exists s'. split; [|set_solver].
    unfold cleanPacks. cbn [Object_keys options_export Js.keys fmap list_fmap Options.export].
    unfold bind at 1. unfold ret at 1. unfold bind at 1. unfold ret at 1.
    unfold bind at 1. rewrite Hmk. unfold bind at 1. rewrite Hrd.
    unfold bind at 1. by rewrite Hrm.
Qed.

(** ** The reconciler *)

Section StateAlgebra.

Lemma with_root_id export s : with_root export (root export s) s = s.
Proof. by destruct s, export. Qed.

Lemma with_root_with_root export r r' s :
  with_root export r (with_root export r' s) = with_root export r s.
Proof. by destruct export. Qed.

Lemma with_root_emit export r e s :
  with_root export r (emit e s) = emit e (with_root export r s).
Proof. by destruct export. Qed.

Lemma with_root_emit_list export r evs s :
  with_root export r (emit_list evs s) = emit_list evs (with_root export r s).
Proof. by destruct export. Qed.

Lemma emit_emit_list e s : emit e s = emit_list [e] s.
Proof. done. Qed.

Lemma emit_list_nil s : emit_list [] s = s.
Proof. destruct s. unfold emit_list. simpl. by rewrite app_nil_r. Qed.

Lemma emit_list_emit_list evs evs' s :
  emit_list evs (emit_list evs' s) = emit_list (evs' ++ evs) s.
Proof. unfold emit_list. simpl. by rewrite app_assoc. Qed.

Lemma root_emit_list export evs s : root export (emit_list evs s) = root export s.
Proof. by destruct export. Qed.

Lemma full_path_with_root export ex r segs s :
  full_path export segs (with_root ex r s) = full_path export segs s.
Proof. by destruct ex. Qed.

Lemma full_path_emit_list export evs segs s :
  full_path export segs (emit_list evs s) = full_path export segs s.
Proof. done. Qed.

Lemma machinesDir_with_root export ex r s :
  machinesDir export (with_root ex r s) = machinesDir export s.
Proof. by destruct ex. Qed.

Lemma full_path_emit export e segs s :
  full_path export segs (emit e s) = full_path export segs s.
Proof. done. Qed.

Lemma machinesDir_emit export e s : machinesDir export (emit e s) = machinesDir export s.
Proof. done. Qed.

Lemma machinesDir_emit_list export evs s :
  machinesDir export (emit_list evs s) = machinesDir export s.
Proof. done. Qed.

Lemma push_normal export dir j e1 e2 evs r1 r2 r3 s :
  push dir j (emit e2 (with_root export r3 (emit e1 (with_root export r2
     (emit_list evs (with_root export r1 s)))))) =
  (Ok (), emit_list (evs ++ [e1; e2; Push dir])
    (with_queue (maintenance s) (tasks s ++ [Task dir j]) (running s)
       (S (immediates s)) (with_root export r3 s))).
Proof.
  unfold push. f_equal. destruct s, export;
    cbn [push emit emit_list with_queue with_root cwd cwd_machines
         yarr_machines trace maintenance tasks running immediates joins
         calls fst snd];
    unfold emit, with_queue, emit_list;
    cbn [cwd cwd_machines yarr_machines trace maintenance tasks running
         immediates joins calls];
    f_equal; by rewrite <- !app_assoc.
Qed.

Lemma trace_with_root export r s : trace (with_root export r s) = trace s.
Proof. by destruct export. Qed.

Lemma sched_with_root export r s :
  maintenance (with_root export r s) = maintenance s ∧
  tasks (with_root export r s) = tasks s ∧
  running (with_root export r s) = running s ∧
  immediates (with_root export r s) = immediates s ∧
  joins (with_root export r s) = joins s ∧
  calls (with_root export r s) = calls s ∧
  cwd (with_root export r s) = cwd s.
Proof. by destruct export. Qed.

End StateAlgebra.

Section Units.

Lemma candidate_step_keys n machines :
  foldl candidate_step n (Js.keys machines) =
  foldl (λ n (entry : string * machineDef), candidate_step n entry.1) n machines.
Proof.
  revert n. induction machines as [|e m IH]; intros n; [done|]. simpl. apply IH.
Qed.

(** The loop over the machines of a pack whose directory exists: it
    writes the unit files of [unit_writes], in order, and builds
    [newPackageJson] from the keys alone. *)
Lemma each_machines_run export machineDir packageJson machines : ∀ n s t d,
  root export s = Some t → t !! machineDir = Some (Dir d) →
  each_machines export machineDir packageJson n machines s =
    (Ok (foldl candidate_step n (Js.keys machines)),
     emit_list (map (unit_event export machineDir s) (unit_writes packageJson machines))
       (with_root export
          (Some (<[machineDir := Dir (put_files d (unit_writes packageJson machines))]> t)) s)).
Proof.
  induction machines as [|entry rest IH]; intros n s t d Hroot Hdir.
  - simpl. unfold ret, unit_writes, put_files. simpl.
    rewrite emit_list_nil, insert_id by done. by rewrite <- Hroot, with_root_id.
  - cbn [each_machines]. unfold bind at 1. unfold each_machine at 1.
    unfold unit_writes. rewrite filter_cons. fold (unit_writes packageJson rest).
    destruct (replace_it packageJson (master_of entry.1) (version_of entry.1)) eqn:Hrep.
    + rewrite decide_True by done.
      unfold bind at 1. unfold writeFileSync at 1. rewrite Hroot, Hdir.
      unfold ret at 1.
      set (f := master_of entry.1 +:+ ".js").
      set (t' := <[machineDir := Dir (<[f := render entry.2]> d)]> t).
      set (s1 := emit _ _).
      rewrite (IH _ s1 t' (<[f := render entry.2]> d)).
      * f_equal. subst s1 t'. cbn [map put_files foldl fst snd].
        rewrite emit_emit_list, with_root_emit_list, with_root_with_root.
        rewrite emit_list_emit_list. rewrite insert_insert_eq.
        f_equal. simpl. f_equal.
        apply map_ext. intros fl. unfold unit_event.
        by rewrite full_path_emit_list, full_path_with_root.
      * subst s1. by rewrite root_emit, root_with_root.
      * subst t'. apply lookup_insert_eq.
    + rewrite decide_False by done.
      unfold bind at 1. unfold ret at 1. unfold ret at 1.
      by rewrite (IH _ s t d).
Qed.

End Units.

Section Pack.

(** Creating the pack directory: a missing one is created, an existing
    entry makes [mkdirSync] throw, which is swallowed. *)
Lemma mkdir_attempt export p s t :
  root export s = Some t →
  try_catch (mkdirSync export p) (λ _, ret ()) s =
    (Ok (), match t !! p with
            | None => emit (Mkdir (full_path export [p] s))
                           (with_root export (Some (<[p := Dir ∅]> t)) s)
            | Some _ => s
            end).
Proof.
  intros Hroot. unfold try_catch, mkdirSync. rewrite Hroot.
  by destruct (t !! p).
Qed.

Lemma mkdir_attempt_no_root export p s :
  root export s = None →
  try_catch (mkdirSync export p) (λ _, ret ()) s = (Ok (), s).
Proof. intros Hroot. unfold try_catch, mkdirSync. by rewrite Hroot. Qed.

Lemma load_run export p s t :
  root export s = Some t →
  loadPackageJson export p s =
    (match t !! p with
     | Some (Dir d) => manifest_of d
     | Some (File _) => Throw ENOTDIR
     | None => Ok emptyPackageJson
     end, s).
Proof.
  intros Hroot. unfold loadPackageJson, try_catch, bind, readFileSync.
  rewrite Hroot. destruct (t !! p) as [[c|d]|]; try done.
  unfold manifest_of. destruct (d !! "package.json") as [[| | |]|]; done.
Qed.

Lemma load_run_no_root export p s :
  root export s = None →
  loadPackageJson export p s = (Ok emptyPackageJson, s).
Proof.
  intros Hroot. unfold loadPackageJson, try_catch, bind, readFileSync.
  by rewrite Hroot.
Qed.

(** The loop that unlinks [machinesDir/<master>.js]: it can only take
    plain files away from the cache root itself. *)
Lemma forEach_unlink export l : ∀ s t r s',
  root export s = Some t →
  forEach (λ master, unlinkSync export [master +:+ ".js"]) l s = (r, s') →
  ∃ evs t', s' = emit_list evs (with_root export (Some t') s) ∧
    Forall (λ e, is_unlink e = true) evs ∧
    (∀ n, t' !! n = t !! n ∨ (t' !! n = None ∧ ∃ c, t !! n = Some (File c))).
Proof.
  induction l as [|x l IH]; intros s t r s' Hroot Hrun.
  - injection Hrun as <- <-. exists [], t.
    rewrite emit_list_nil, <- Hroot, with_root_id. eauto.
  - cbn [forEach] in Hrun. unfold bind at 1 in Hrun.
    unfold unlinkSync at 1 in Hrun. rewrite Hroot in Hrun.
    destruct (t !! (x +:+ ".js")) as [[c|d]|] eqn:Hx.
    + eapply IH in Hrun; [|by rewrite root_emit, root_with_root].
      destruct Hrun as (evs & t' & -> & Hevs & Hl).
      eexists (_ :: evs), t'. split; [|split].
      * rewrite emit_emit_list, with_root_emit_list, with_root_with_root.
        by rewrite emit_list_emit_list.
      * by constructor.
      * intros n. destruct (Hl n) as [He|[He (c' & Hc)]].
        -- destruct (decide (n = x +:+ ".js")) as [->|Hne].
           ++ rewrite lookup_delete_eq in He. right. eauto.
           ++ rewrite lookup_delete_ne in He by done. by left.
        -- right. split; [done|]. exists c'.
           destruct (decide (n = x +:+ ".js")) as [->|Hne].
           ++ by rewrite lookup_delete_eq in Hc.
           ++ by rewrite lookup_delete_ne in Hc.
    + injection Hrun as <- <-. exists [], t.
      rewrite emit_list_nil, <- Hroot, with_root_id. eauto.
    + injection Hrun as <- <-. exists [], t.
      rewrite emit_list_nil, <- Hroot, with_root_id. eauto.
Qed.

Lemma forEach_unlink_no_root export l s r s' :
  root export s = None →
  forEach (λ master, unlinkSync export [master +:+ ".js"]) l s = (r, s') →
  s' = s.
Proof.
  intros Hroot. destruct l as [|x l]; simpl.
  - by intros [= <- <-].
  - unfold bind, unlinkSync. rewrite Hroot. by intros [= <- <-].
Qed.

End Pack.

Section PackRun.

Lemma each_pack_dir export data p j spec s s' t d :
  Js.get data p = Some spec →
  root export s = Some t → t !! p = Some (Dir d) →
  each_pack export data p j s = (Ok (), s') →
  ∃ old evs t_u,
    manifest_of d = Ok old ∧
    Forall (λ e, is_unlink e = true) evs ∧
    (∀ n, t_u !! n = t !! n ∨ (t_u !! n = None ∧ ∃ c, t !! n = Some (File c))) ∧
    s' = pack_outcome export p j spec old d evs t_u s.
Proof.
  intros Hget Hroot Hdir Hrun. unfold each_pack in Hrun.
  unfold bind at 1 in Hrun. rewrite (mkdir_attempt _ _ _ _ Hroot), Hdir in Hrun.
  unfold bind at 1 in Hrun. rewrite (load_run _ _ _ _ Hroot), Hdir in Hrun.
  destruct (manifest_of d) as [old|e] eqn:Hold; [|done].
  rewrite Hget in Hrun. unfold bind at 1 in Hrun.
  destruct (forEach _ _ s) as [[[]|e] s_u] eqn:Hun; [|done].
  apply (forEach_unlink _ _ _ t) in Hun; [|done].
  destruct Hun as (evs & t_u & -> & Hevs & Hl).
  exists old, evs, t_u. split; [done|]. split; [done|]. split; [done|].
  assert (t_u !! p = Some (Dir d)) as Hdir'.
  { destruct (Hl p) as [->|[_ [c Hc]]]; congruence. }
  unfold bind at 1 in Hrun.
  rewrite (each_machines_run _ _ _ _ _ _ t_u d) in Hrun;
    [|by rewrite root_emit_list, root_with_root|done].
  fold (candidate spec) in Hrun.
  rewrite with_root_emit_list, with_root_with_root, emit_list_emit_list in Hrun.
  unfold pack_outcome.
  rewrite (map_ext (unit_event export p (emit_list evs (with_root export (Some t_u) s)))
                   (unit_event export p s)) in Hrun.
  2:{ intros f. unfold unit_event.
      by rewrite full_path_emit_list, full_path_with_root. }
  destruct (decide (Json (stringify_new (candidate spec)) = Json old)) as [Heq|Hne].
  - injection Hrun as <-. injection Heq as Heq. by rewrite decide_True.
  - rewrite decide_False by congruence.
    unfold bind at 1 in Hrun. unfold writeFileSync at 1 in Hrun.
    rewrite root_emit_list, root_with_root, lookup_insert_eq in Hrun.
    unfold bind at 1 in Hrun. unfold writeFileSync at 1 in Hrun.
    rewrite root_emit, root_with_root, lookup_insert_eq in Hrun.
    repeat rewrite ?full_path_emit, ?full_path_with_root, ?full_path_emit_list,
      ?machinesDir_emit, ?machinesDir_with_root, ?machinesDir_emit_list in Hrun.
    rewrite push_normal, !insert_insert_eq in Hrun.
    injection Hrun as <-. by rewrite <- app_assoc.
Qed.

End PackRun.

Section PackRunAll.

Lemma each_pack_fresh export data p j s t :
  root export s = Some t → t !! p = None →
  each_pack export data p j s =
  each_pack export data p j
    (emit (Mkdir (full_path export [p] s))
          (with_root export (Some (<[p := Dir ∅]> t)) s)).
Proof.
  intros Hroot Hp. unfold each_pack. unfold bind at 1.
  rewrite (mkdir_attempt _ _ _ _ Hroot), Hp.
  symmetry. unfold bind at 1.
  erewrite mkdir_attempt; [|by rewrite root_emit, root_with_root].
  by rewrite lookup_insert_eq.
Qed.

Lemma pack_outcome_emit export p j spec old d evs t e r s :
  pack_outcome export p j spec old d evs t (emit e (with_root export r s)) =
  pack_outcome export p j spec old d (e :: evs) t s.
Proof.
  unfold pack_outcome.
  rewrite (map_ext (unit_event export p (emit e (with_root export r s)))
                   (unit_event export p s)).
  2:{ intros f. unfold unit_event. by rewrite full_path_emit, full_path_with_root. }
  repeat rewrite ?full_path_emit, ?full_path_with_root, ?machinesDir_emit,
    ?machinesDir_with_root.
  set (U := map _ _). set (C := stringify_new _). set (W := unit_writes _ _).
  clearbody U C W.
  case_decide.
  - f_equal. rewrite with_root_emit, with_root_with_root.
    by rewrite emit_emit_list, emit_list_emit_list.
  - destruct s, export;
      cbn [emit emit_list with_queue with_root cwd cwd_machines
           yarr_machines trace maintenance tasks running immediates joins
           calls fst snd];
      unfold emit, with_queue, emit_list;
      cbn [cwd cwd_machines yarr_machines trace maintenance tasks running
           immediates joins calls];
      f_equal; by rewrite <- !app_assoc.
Qed.

(** What a completed pass over one pack has done, when the cache root
    exists: [d] is what the pack directory held (nothing for a new
    one), [old] the manifest loaded from it, [evs] the directory
    creation and the unlinks, [t_u] the cache root after them. *)
Lemma each_pack_ok export data p j spec s s' t :
  Js.get data p = Some spec →
  root export s = Some t →
  each_pack export data p j s = (Ok (), s') →
  ∃ d old evs t_u,
    (t !! p = Some (Dir d) ∨ (t !! p = None ∧ d = ∅)) ∧
    manifest_of d = Ok old ∧
    Forall (λ e, is_unlink e = true ∨ is_mkdir e = true) evs ∧
    (∀ n, n ≠ p → t_u !! n = t !! n ∨ (t_u !! n = None ∧ ∃ c, t !! n = Some (File c))) ∧
    t_u !! p = Some (Dir d) ∧
    s' = pack_outcome export p j spec old d evs t_u s.
Proof.
  intros Hget Hroot Hrun.
  destruct (t !! p) as [[c|d]|] eqn:Hp.
  - unfold each_pack in Hrun. unfold bind at 1 in Hrun.
    rewrite (mkdir_attempt _ _ _ _ Hroot), Hp in Hrun.
    unfold bind at 1 in Hrun. by rewrite (load_run _ _ _ _ Hroot), Hp in Hrun.
  - destruct (each_pack_dir _ _ _ _ _ _ _ _ _ Hget Hroot Hp Hrun)
      as (old & evs & t_u & Hold & Hevs & Hl & ->).
    exists d, old, evs, t_u. split; [eauto|]. split; [done|].
    split; [eapply Forall_impl; [done|]; simpl; eauto|].
    split; [eauto|]. split; [|done].
    destruct (Hl p) as [->|[_ [c Hc]]]; congruence.
  - rewrite (each_pack_fresh _ _ _ _ _ _ Hroot Hp) in Hrun.
    eapply each_pack_dir in Hrun;
      [|done|by rewrite root_emit, root_with_root|apply lookup_insert_eq].
    destruct Hrun as (old & evs & t_u & Hold & Hevs & Hl & ->).
    exists ∅, old, (Mkdir (full_path export [p] s) :: evs), t_u.
    split; [eauto|]. split; [done|]. split; [|split; [|split]].
    + constructor; [eauto|]. eapply Forall_impl; [done|]; simpl; eauto.
    + intros n Hn. specialize (Hl n). by rewrite lookup_insert_ne in Hl.
    + destruct (Hl p) as [He|[_ [c Hc]]].
      * by rewrite He, lookup_insert_eq.
      * by rewrite lookup_insert_eq in Hc.
    + apply pack_outcome_emit.
Qed.

(** Without a cache root only a pack with nothing to write gets through. *)
Lemma each_pack_no_root export data p j spec s s' :
  Js.get data p = Some spec →
  root export s = None →
  each_pack export data p j s = (Ok (), s') →
  stringify_new (candidate spec) = emptyPackageJson ∧ s' = done j None s.
Proof.
  intros Hget Hroot Hrun. unfold each_pack in Hrun. unfold bind at 1 in Hrun.
  rewrite (mkdir_attempt_no_root _ _ _ Hroot) in Hrun.
  unfold bind at 1 in Hrun. rewrite (load_run_no_root _ _ _ Hroot), Hget in Hrun.
  cbn [PackageJson.machineVersions emptyPackageJson PackageJson.Make Js.keys fmap list_fmap
       Js.difference filter list_filter forEach] in Hrun.
  unfold bind at 1 in Hrun. unfold ret at 1 in Hrun.
  destruct (PackSpec.machines spec) as [|entry rest] eqn:Hm.
  - cbn [each_machines] in Hrun. unfold bind at 1 in Hrun. unfold ret at 1 in Hrun.
    unfold candidate. rewrite Hm. cbn [Js.keys fmap list_fmap foldl].
    case_decide as Heq.
    + injection Hrun as <-. split; [congruence|done].
    + unfold bind at 1 in Hrun. unfold writeFileSync at 1 in Hrun.
      by rewrite Hroot in Hrun.
  - cbn [each_machines] in Hrun. unfold bind at 1 in Hrun. unfold bind at 1 in Hrun.
    unfold each_machine at 1 in Hrun. unfold bind at 1 in Hrun.
    unfold replace_it, emptyPackageJson, PackageJson.Make in Hrun.
    cbn [PackageJson.machineVersions Js.get] in Hrun.
    unfold writeFileSync at 1 in Hrun. by rewrite Hroot in Hrun.
Qed.

End PackRunAll.

Section DoneFrame.

Lemma done_fs j err s :
  cwd (done j err s) = cwd s ∧
  cwd_machines (done j err s) = cwd_machines s ∧
  yarr_machines (done j err s) = yarr_machines s ∧
  trace (done j err s) = trace s.
Proof. unfold done, invoke. repeat case_match; done. Qed.

Lemma root_done export j err s : root export (done j err s) = root export s.
Proof.
  destruct (done_fs j err s) as (_ & H1 & H2 & _). unfold root.
  by destruct export.
Qed.

Lemma trace_emit_list evs s : trace (emit_list evs s) = trace s ++ evs.
Proof. done. Qed.

Lemma tasks_emit_list evs s : tasks (emit_list evs s) = tasks s.
Proof. done. Qed.

Lemma tasks_with_root export r s : tasks (with_root export r s) = tasks s.
Proof. by destruct export. Qed.

(** The trace and the pending tasks of [pack_outcome]. *)
Lemma pack_outcome_trace export p j spec old d evs t s :
  trace (pack_outcome export p j spec old d evs t s) =
  trace s ++ evs ++
    map (unit_event export p s) (unit_writes old (PackSpec.machines spec)) ++
    (if decide (stringify_new (candidate spec) = old) then []
     else [Write ManifestFile (full_path export [p; "package.json"] s)
                 (Json (stringify_new (candidate spec)));
           Write IndexFile (full_path export [p; "index.js"] s) index_js;
           Push (path_join (machinesDir export s) p)]).
Proof.
  unfold pack_outcome. case_decide.
  - destruct (done_fs j None
      (emit_list (evs ++ map (unit_event export p s)
                    (unit_writes old (PackSpec.machines spec)))
         (with_root export
            (Some (<[p:=Dir (put_files d (unit_writes old (PackSpec.machines spec)))]> t))
            s))) as (_ & _ & _ & ->).
    rewrite trace_emit_list, trace_with_root. by rewrite app_nil_r.
  - rewrite trace_emit_list. cbn [with_queue trace].
    by rewrite trace_with_root.
Qed.

Lemma pack_outcome_tasks export p j spec old d evs t s :
  tasks (pack_outcome export p j spec old d evs t s) =
  tasks s ++
    (if decide (stringify_new (candidate spec) = old) then []
     else [Task (path_join (machinesDir export s) p) j]).
Proof.
  unfold pack_outcome. case_decide.
  - destruct (done_queue j None
      (emit_list (evs ++ map (unit_event export p s)
                    (unit_writes old (PackSpec.machines spec)))
         (with_root export
            (Some (<[p:=Dir (put_files d (unit_writes old (PackSpec.machines spec)))]> t))
            s))) as (_ & -> & _ & _).
    rewrite tasks_emit_list, tasks_with_root. by rewrite app_nil_r.
  - done.
Qed.

(** The manifest [loadPackageJson] sees does not depend on whether the
    pack directory was just created. *)
Lemma loaded_manifest export p s t d :
  root export s = Some t →
  (t !! p = Some (Dir d) ∨ (t !! p = None ∧ d = ∅)) →
  (loadPackageJson export p s).1 = manifest_of d.
Proof.
  intros Hroot Hd. rewrite (load_run _ _ _ _ Hroot).
  destruct Hd as [->|[-> ->]]; done.
Qed.

End DoneFrame.

(** ** Change detection *)

Lemma filter_none {A} (P : A → Prop) `{∀ x, Decision (P x)} (l : list A) :
  Forall (λ x, ¬ P x) l → filter P l = [].
Proof.
  induction 1 as [|x l Hx Hl IH]; [done|].
  rewrite filter_cons. by rewrite decide_False.
Qed.

Lemma filter_all {A} (P : A → Prop) `{∀ x, Decision (P x)} (l : list A) :
  Forall P l → filter P l = l.
Proof.
  induction 1 as [|x l Hx Hl IH]; [done|].
  rewrite filter_cons. rewrite decide_True by done. by rewrite IH.
Qed.

Lemma replace_it_rewritten old _master :
  replace_it old (master_of _master) (version_of _master) = true ↔ rewritten old _master.
Proof.
  unfold replace_it, rewritten, falsy.
  destruct (Js.get (PackageJson.machineVersions old) (master_of _master)) as [v|].
  - rewrite orb_true_iff, negb_true_iff, bool_decide_eq_true, bool_decide_eq_false.
    split.
    + intros [->|Hne]; eauto.
    + intros [?|[[= ->]|?]]; eauto; done.
  - split; eauto.
Qed.

Lemma candidate_machines ks : ∀ n,
  NewPackageJson.machines (foldl candidate_step n ks) =
  NewPackageJson.machines n ++ map master_of ks.
Proof.
  induction ks as [|k ks IH]; intros n; simpl; [by rewrite app_nil_r|].
  rewrite IH. simpl. by rewrite <- app_assoc.
Qed.

(** C5 (the code departs from it): the manifest records the empty
    string as the version of unit [a] and the desired key ["a:"] asks
    for that same version, yet the unit file is written.  The first
    disjunct of line 137, [!machineVersions[master]], is there for a
    pack that "doesn't have this master" (comment of lines 135-136); it
    is a truthiness test, and a recorded empty string is falsy. *)
Lemma C5_recorded_empty_version_is_rewritten :
  let old := PackageJson.Make None ["a"] [("a", EmptyString)] in
  let s := boot "/app" None (Some {["p" := Dir {["package.json" := Json old]}]}) in
  Js.get (PackageJson.machineVersions old) (master_of "a:") = Some EmptyString ∧
  version_of "a:" = Some EmptyString ∧
  trace (each_machine false "p" old (NewPackageJson.Make None [] [])
           ("a:", Example.u1) s).2 =
    [Write UnitFile "/app/node_modules/yarr/node_machines/p/a.js" (render Example.u1)].
Proof. vm_compute. repeat split; reflexivity. Qed.

(** What line 137 makes of a completed pass over a pack: the unit
    files written are those of the desired entries for which the test
    holds ([rewritten]), each written once per entry and in order. *)
Lemma unit_writes_follow_the_version_test
    (export : bool) (data : document) (p : string) (j : nat)
    (spec : PackSpec.t) (old : PackageJson.t) (s s' : state) :
  Js.get data p = Some spec →
  (loadPackageJson export p s).1 = Ok old →
  each_pack export data p j s = (Ok (), s') →
  ∃ evs, trace s' = trace s ++ evs ∧
    filter (λ e, is_write UnitFile e = true) evs =
    map (λ entry, Write UnitFile (full_path export [p; master_of entry.1 +:+ ".js"] s)
                        (render entry.2))
        (filter (λ entry, rewritten old entry.1) (PackSpec.machines spec)).
Proof.
  intros Hget Hold Hrun.
  destruct (root export s) as [t|] eqn:Hroot.
  - destruct (each_pack_ok _ _ _ _ _ _ _ _ Hget Hroot Hrun)
      as (d & old' & evs & t_u & Hd & Hold' & Hevs & Hl & Hp & ->).
    rewrite (loaded_manifest _ _ _ _ _ Hroot Hd), Hold' in Hold.
    injection Hold as ->.
    eexists. split; [apply pack_outcome_trace|].
    rewrite !filter_app.
    rewrite (filter_none _ evs).
    2:{ eapply Forall_impl; [done|]. intros [] [? | ?]; done. }
    rewrite (filter_none _ (if decide _ then _ else _)).
    2:{ case_decide; repeat constructor; done. }
    rewrite app_nil_r. cbn [app].
    rewrite filter_all.
    2:{ apply Forall_forall. intros e [f [-> _]]%list_elem_of_fmap. done. }
    unfold unit_writes. rewrite map_map.
    rewrite (list_filter_iff _ (λ entry, rewritten old entry.1)
               (PackSpec.machines spec)) by (intros; apply replace_it_rewritten).
    done.
  - destruct (each_pack_no_root _ _ _ _ _ _ _ Hget Hroot Hrun) as (Hc & ->).
    exists []. destruct (done_fs j None s) as (_ & _ & _ & ->).
    split; [by rewrite app_nil_r|].
    apply (f_equal PackageJson.machines) in Hc. simpl in Hc.
    unfold candidate in Hc. rewrite candidate_machines in Hc. simpl in Hc.
    destruct (PackSpec.machines spec); [done|discriminate].
Qed.

(** ** Loading the manifest *)

(** C7 (as stated, refuted): for a pack directory without package.json
    the manifest used has no [dependencies] property at all, it is not
    the one with an empty dependencies mapping; the difference shows when
    a pack with no units and [dependencies: {}] is reconciled in a new
    directory: its candidate prints like the documented empty manifest,
    yet package.json and index.js are written and an install is queued. *)
Lemma C7_synthesized_manifest_has_no_dependencies :
  let s := boot "/app" None (Some {["p" := Dir ∅]}) in
  let D : document := [("p", PackSpec.Make [] (Some []))] in
  (loadPackageJson false "p" s).1 = Ok (PackageJson.Make None [] []) ∧
  PackageJson.Make None [] [] ≠ documented_empty_manifest ∧
  stringify_new (candidate (PackSpec.Make [] (Some []))) = documented_empty_manifest ∧
  trace (each_pack false D "p" 0 (new_join 1 None s)).2 =
    [Write ManifestFile "/app/node_modules/yarr/node_machines/p/package.json"
       (Json documented_empty_manifest);
     Write IndexFile "/app/node_modules/yarr/node_machines/p/index.js" index_js;
     Push "/app/node_modules/yarr/node_machines/p"].
Proof. vm_compute. repeat split; try reflexivity. discriminate. Qed.

(** C7 (amended): when package.json is absent ([readFileSync] fails with
    ENOENT) loading is not an error: it yields the manifest
    [{machinepack: {machines: [], machineVersions: {}}}], which has no
    [dependencies] property, an empty machines list and an empty
    machineVersions mapping, and leaves the state as it was. *)
Theorem C7_absent_manifest_is_replaced_by_empty_one
    (export : bool) (machineDir : string) (s : state) :
  (readFileSync export [machineDir; "package.json"] s).1 = Throw ENOENT →
  loadPackageJson export machineDir s = (Ok (PackageJson.Make None [] []), s).
Proof.
  unfold loadPackageJson, try_catch, bind.
  destruct (readFileSync export [machineDir; "package.json"] s) as [[c|e] s1] eqn:Hread;
    simpl; [done|].
  intros [= ->]. rewrite decide_True by done.
  unfold readFileSync in Hread. repeat case_match; by simplify_eq.
Qed.

Lemma C7_absent_manifest_is_replaced_by_empty_one_witness :
  loadPackageJson false "packA" Example.empty_cache =
    (Ok (PackageJson.Make None [] []), Example.empty_cache).
Proof.
  apply (C7_absent_manifest_is_replaced_by_empty_one false "packA" Example.empty_cache).
  vm_compute. reflexivity.
Defined.

(** ** Scheduling: the join of [async.each] and the queue *)

Section Join.

Lemma sched_emit_list evs s : sched (emit_list evs s) = sched s.
Proof. done. Qed.

Lemma sched_root export r s : sched (with_root export r s) = sched s.
Proof. by destruct export. Qed.

Lemma done_sched_congr j err s1 s2 :
  sched s1 = sched s2 → sched (done j err s1) = sched (done j err s2).
Proof.
  unfold sched. intros [= Hm Ht Hr Hi Hj Hc].
  unfold done, invoke. rewrite Hj.
  destruct (joins s2 !! j) as [jn|]; [|congruence].
  destruct err.
  - destruct (callback jn); simpl; congruence.
  - case_match; destruct (callback jn); simpl; congruence.
Qed.

(** [done()] on a join that is not complete yet. *)
Lemma done_ok_sched j s n c cb :
  joins s !! j = Some (Join n c cb) →
  sched (done j None s) =
    (maintenance s, tasks s, running s, immediates s,
     <[j := Join n (S c) cb]> (joins s),
     calls s ++ (if decide (n ≤ S c) then invoked cb None else [])).
Proof.
  intros Hj. unfold done. rewrite Hj. cbn [total completed callback].
  destruct (decide (n ≤ S c)) as [Hle|Hgt].
  - rewrite (proj2 (Nat.leb_le _ _) Hle). unfold sched, invoke, invoked.
    destruct cb; simpl; [done|]. by rewrite app_nil_r.
  - rewrite (proj2 (Nat.leb_gt _ _)) by lia. unfold sched. simpl.
    by rewrite app_nil_r.
Qed.

(** [done(err)]: the error goes to the callback, which becomes a no-op. *)
Lemma done_err_sched j s n c cb e :
  joins s !! j = Some (Join n c cb) →
  sched (done j (Some e) s) =
    (maintenance s, tasks s, running s, immediates s,
     <[j := Join n c None]> (joins s),
     calls s ++ invoked cb (Some e)).
Proof.
  intros Hj. unfold done. rewrite Hj. cbn [total completed callback].
  unfold sched, invoke, invoked. destruct cb; simpl; [done|].
  by rewrite app_nil_r.
Qed.

Lemma sched_pack_outcome export p j spec old d evs t s :
  sched (pack_outcome export p j spec old d evs t s) =
  if decide (stringify_new (candidate spec) = old) then sched (done j None s)
  else (maintenance s, tasks s ++ [Task (path_join (machinesDir export s) p) j],
        running s, S (immediates s), joins s, calls s).
Proof.
  unfold pack_outcome. case_decide.
  - apply done_sched_congr. by rewrite sched_emit_list, sched_root.
  - rewrite sched_emit_list. unfold sched. cbn [with_queue maintenance tasks
      running immediates joins calls].
    destruct (sched_with_root export
      (Some (<[p:=Dir (<["index.js":=index_js]>
         (<["package.json":=Json (stringify_new (candidate spec))]>
            (put_files d (unit_writes old (PackSpec.machines spec)))))]> t)) s)
      as (_ & _ & _ & _ & -> & -> & _).
    done.
Qed.

(** A completed pass over one pack either reports to its join or
    queues an install whose callback reports to it. *)
Lemma each_pack_sched export data p j spec s s' :
  Js.get data p = Some spec →
  each_pack export data p j s = (Ok (), s') →
  sched s' = sched (done j None s) ∨
  ∃ dir, sched s' = (maintenance s, tasks s ++ [Task dir j], running s,
                     S (immediates s), joins s, calls s).
Proof.
  intros Hget Hrun. destruct (root export s) as [t|] eqn:Hroot.
  - destruct (each_pack_ok _ _ _ _ _ _ _ _ Hget Hroot Hrun)
      as (d & old & evs & t_u & _ & _ & _ & _ & _ & ->).
    rewrite sched_pack_outcome. case_decide; eauto.
  - destruct (each_pack_no_root _ _ _ _ _ _ _ Hget Hroot Hrun) as (_ & ->).
    by left.
Qed.

Lemma get_is_Some {A} (o : Js.obj A) k : k ∈ Js.keys o → is_Some (Js.get o k).
Proof.
  induction o as [|[k' v] o IH]; simpl; [by intros ?%elem_of_nil|].
  intros Hin. case_decide; [eauto|]. apply IH. set_solver.
Qed.

(** The loop over the packs, as the join and the queue see it: [pushed]
    are the installs queued, [c1] the passes that reported at once. *)
Lemma forEach_packs_sched export D j n cb l : ∀ s s1 c,
  (∀ x, x ∈ l → x ∈ Js.keys D) →
  joins s !! j = Some (Join n c cb) →
  c + length l ≤ n →
  forEach (λ x, each_pack export D x j) l s = (Ok (), s1) →
  ∃ pushed,
    Forall (λ t, task_join t = j) pushed ∧ length pushed ≤ length l ∧
    let c1 := c + length l - length pushed in
    sched s1 =
      (maintenance s, tasks s ++ pushed, running s,
       immediates s + length pushed,
       <[j := Join n c1 cb]> (joins s),
       calls s ++ (if decide (c < c1 ∧ c1 = n) then invoked cb None else [])).
Proof.
  induction l as [|x l IH]; intros s s1 c Hkeys Hj Hn Hrun.
  - injection Hrun as <-. exists []. split; [done|]. split; [done|].
    cbn zeta. cbn [length]. rewrite Nat.add_0_r, Nat.sub_0_r, !app_nil_r.
    rewrite decide_False by lia. rewrite Nat.add_0_r.
    rewrite list_insert_id by done. by rewrite app_nil_r.
  - cbn [forEach] in Hrun. unfold bind at 1 in Hrun.
    destruct (each_pack export D x j s) as [[[]|e] s'] eqn:Hx; [|done].
    destruct (get_is_Some D x) as [spec Hget]; [apply Hkeys; set_solver|].
    cbn [length] in Hn.
    destruct (each_pack_sched _ _ _ _ _ _ _ Hget Hx) as [Hs|[dir Hs]].
    + rewrite (done_ok_sched _ _ _ _ _ Hj) in Hs.
      injection Hs as Hm Ht Hr Hi Hjs Hc.
      destruct (IH s' s1 (S c)) as (pushed & Hall & Hlen & Hs1); [set_solver| |lia|done|].
      { rewrite Hjs. apply list_lookup_insert_eq. by eapply lookup_lt_Some. }
      exists pushed. split; [done|]. split; [cbn [length]; lia|].
      cbn zeta in *. rewrite Hs1, Hm, Ht, Hr, Hi, Hjs, Hc.
      rewrite list_insert_insert_eq. cbn [length].
      replace (c + S (length l) - length pushed) with (S c + length l - length pushed) by lia.
      f_equal. rewrite <- app_assoc. f_equal.
      repeat case_decide; try lia; try done; by rewrite ?app_nil_r.
    + injection Hs as Hm Ht Hr Hi Hjs Hc.
      destruct (IH s' s1 c) as (pushed & Hall & Hlen & Hs1); [set_solver| |lia|done|].
      { by rewrite Hjs. }
      exists (Task dir j :: pushed). split; [by constructor|].
      split; [cbn [length]; lia|].
      cbn zeta in *. rewrite Hs1, Hm, Ht, Hr, Hi, Hjs, Hc. cbn [length].
      rewrite <- app_assoc. cbn [app].
      replace (c + S (length l) - S (length pushed)) with (c + length l - length pushed) by lia.
      by rewrite Nat.add_succ_r.
Qed.

End Join.

(** ** A manifest that does not parse *)

Section Malformed.

Lemma forEach_app_throw {A} (f : A → M unit) l1 x l2 s s1 s2 e :
  forEach f l1 s = (Ok (), s1) →
  f x s1 = (Throw e, s2) →
  forEach f (l1 ++ x :: l2) s = (Throw e, s2).
Proof.
  revert s. induction l1 as [|y l1 IH]; intros s Hl1 Hx.
  - injection Hl1 as <-. cbn [app forEach]. unfold bind. by rewrite Hx.
  - cbn [app forEach] in *. unfold bind in *.
    destruct (f y s) as [[[]|e'] s'] eqn:Hy; [|done]. by apply IH.
Qed.

(** A package.json that is there but is not JSON makes the pass over
    its pack throw before anything is changed. *)
Lemma each_pack_malformed export data p j s c :
  (readFileSync export [p; "package.json"] s).1 = Ok c →
  is_json c = false →
  each_pack export data p j s = (Throw SyntaxError, s).
Proof.
  intros Hread Hc. unfold readFileSync in Hread.
  destruct (root export s) as [t|] eqn:Hroot; [|done].
  destruct (t !! p) as [[c'|d]|] eqn:Hp; try done.
  destruct (d !! "package.json") as [c'|] eqn:Hf; [|done].
  injection Hread as ->.
  unfold each_pack. unfold bind at 1.
  rewrite (mkdir_attempt _ _ _ _ Hroot), Hp.
  unfold bind at 1. rewrite (load_run _ _ _ _ Hroot), Hp.
  unfold manifest_of. rewrite Hf. by destruct c.
Qed.

End Malformed.

(** C8 (as stated, refuted): of two packs, the first has a package.json
    that is not JSON; [writePacks] throws, the second pack is never
    visited (its directory is not even created, nothing is written) and
    the completion callback is not invoked. *)
Lemma C8_packs_after_a_malformed_manifest_are_skipped :
  let spec := PackSpec.Make [("u1:1.0", Example.u1)] (Some []) in
  let D : document := [("p1", spec); ("p2", spec)] in
  let s := boot "/app" None
             (Some {["p1" := Dir {["package.json" := Text "{oops"]}]}) in
  let r := writePacks (Options.Make false) D (Some 7) s in
  r.1 = Throw SyntaxError ∧
  trace r.2 = [] ∧
  pack_files (yarr_machines r.2) "p2" = None ∧
  calls r.2 = [].
Proof. vm_compute. repeat split; reflexivity. Qed.

(** ** Installs and the completion callback *)

Section Installs.

Lemma done_jc_congr j err s1 s2 :
  joins s1 = joins s2 → calls s1 = calls s2 →
  joins (done j err s1) = joins (done j err s2) ∧
  calls (done j err s1) = calls (done j err s2).
Proof.
  intros Hj Hc. unfold done, invoke. rewrite Hj.
  destruct (joins s2 !! j) as [jn|]; [|done].
  destruct err.
  - destruct (callback jn); simpl; split; congruence.
  - case_match; destruct (callback jn); simpl; split; congruence.
Qed.

Lemma process_jc s : joins (process s) = joins s ∧ calls (process s) = calls s.
Proof. unfold process. by repeat case_match. Qed.

(** The join and the callbacks across one step of the environment. *)
Lemma jc_step e s s' :
  run_step e s = Some s' →
  match e with
  | Tick => joins s' = joins s ∧ calls s' = calls s
  | ExecExit err =>
      ∃ t, running s = Some t ∧
           joins s' = joins (done (task_join t) err s) ∧
           calls s' = calls (done (task_join t) err s)
  end.
Proof.
  destruct e as [|err]; simpl.
  - unfold tick. destruct (immediates s) as [|i]; [done|]. intros [= <-].
    by destruct (process_jc (with_queue (maintenance s) (tasks s) (running s) i s))
      as [-> ->].
  - unfold exec_exit. destruct (running s) as [t|]; [|done]. intros [= <-].
    exists t. split; [done|].
    set (s1 := with_queue _ _ _ _ s).
    destruct (done_jc_congr (task_join t) err s1 s) as [Hj Hc]; [done|done|].
    rewrite <- Hj, <- Hc. set (s2 := done (task_join t) err s1).
    destruct (process_jc (match tasks s2 with [] => drain s2 | _ => s2 end))
      as [-> ->].
    by destruct (tasks s2).
Qed.

End Installs.

Section InstallsInv.

Lemma joins_done_ok j s n c cb :
  joins s !! j = Some (Join n c cb) →
  joins (done j None s) = <[j := Join n (S c) cb]> (joins s) ∧
  calls (done j None s) =
    calls s ++ (if decide (n ≤ S c) then invoked cb None else []).
Proof.
  intros Hj. pose proof (done_ok_sched _ _ _ _ _ Hj) as H.
  unfold sched in H. by injection H as _ _ _ _ -> ->.
Qed.

Lemma joins_done_err j s n c cb e :
  joins s !! j = Some (Join n c cb) →
  joins (done j (Some e) s) = <[j := Join n c None]> (joins s) ∧
  calls (done j (Some e) s) = calls s ++ invoked cb (Some e).
Proof.
  intros Hj. pose proof (done_err_sched _ _ _ _ _ e Hj) as H.
  unfold sched in H. by injection H as _ _ _ _ -> ->.
Qed.

Lemma run_inv_step j n k cb base m fe e s s' :
  run_inv j n k cb base m fe s →
  run_step e s = Some s' →
  run_inv j n k cb base (m + exits [e]) (combine_error fe [e]) s'.
Proof.
  intros (Hkn & Hcount & Hrun & Hall & (c & Hj & Hc) & Hcalls) Hstep.
  pose proof (qview_step (Env e) s) as Hq. cbn [run_action] in Hq.
  pose proof (jc_step e s s' Hstep) as Hjc.
  rewrite Hstep in Hq. unfold qview in Hq. cbn [fmap option_fmap option_map] in Hq.
  destruct e as [|err].
  - (* a deferred q.process *)
    destruct Hjc as [Hjs Hcs].
    replace (m + exits [Tick]) with m by (unfold exits; simpl; lia).
    replace (combine_error fe [Tick]) with fe by (by destruct fe).
    cbn [qstep] in Hq. destruct (immediates s) as [|i]; [done|].
    unfold run_inv. rewrite Hjs, Hcs.
    destruct (running s) as [t|] eqn:Hr.
    + injection Hq as _ Ht Hr' _. rewrite Ht, Hr'. eauto 10.
    + destruct (tasks s) as [|t ts] eqn:Hts.
      * injection Hq as _ Ht Hr' _. rewrite Ht, Hr'. eauto 10.
      * injection Hq as _ Ht Hr' _. rewrite Ht, Hr'.
        apply Forall_cons in Hall as [Ht1 Hts1].
        split; [done|]. split; [cbn [length] in *; lia|].
        split; [by intros ? [= <-]|]. eauto.
  - (* the running command exits *)
    destruct Hjc as (t & Hr & Hjs & Hcs).
    replace (m + exits [ExecExit err]) with (S m) by (unfold exits; simpl; lia).
    assert (task_join t = j) as Htj by auto. rewrite Htj in *.
    assert (j < length (joins s)) as Hlt by (by eapply lookup_lt_Some).
    cbn [qstep] in Hq. rewrite Hr in Hq, Hcount.
    assert (length (tasks s') + (match running s' with Some _ => 1 | None => 0 end)
            = length (tasks s) ∧
            (∀ t', running s' = Some t' → task_join t' = j) ∧
            Forall (λ t', task_join t' = j) (tasks s')) as (Hcount' & Hrun' & Hall').
    { destruct (tasks s) as [|t' ts] eqn:Hts.
      - injection Hq as _ Ht Hr' _. rewrite Ht, Hr'. done.
      - injection Hq as _ Ht Hr' _. rewrite Ht, Hr'.
        apply Forall_cons in Hall as [Ht1 Hts1].
        split; [cbn [length]; lia|]. split; [by intros ? [= <-]|done]. }
    unfold run_inv. split; [done|]. split; [lia|]. split; [done|]. split; [done|].
    rewrite Hjs, Hcs.
    destruct fe as [e0|]; cbn [combine_error].
    + (* an install has failed before: the callback is a no-op *)
      destruct err as [e|].
      * destruct (joins_done_err _ _ _ _ _ e Hj) as [-> ->]. split.
        -- eexists. split; [by apply list_lookup_insert_eq|done].
        -- by rewrite Hcalls, app_nil_r.
      * destruct (joins_done_ok _ _ _ _ _ Hj) as [-> ->]. split.
        -- eexists. split; [by apply list_lookup_insert_eq|done].
        -- rewrite Hcalls. case_decide; by rewrite app_nil_r.
    + specialize (Hc eq_refl). destruct err as [e|]; cbn [first_error].
      * destruct (joins_done_err _ _ _ _ _ e Hj) as [-> ->]. split.
        -- eexists. split; [by apply list_lookup_insert_eq|done].
        -- rewrite Hcalls. unfold received, invoked.
           rewrite decide_False by lia. by rewrite app_nil_r.
      * destruct (joins_done_ok _ _ _ _ _ Hj) as [-> ->]. split.
        -- eexists. split; [by apply list_lookup_insert_eq|]. intros _. lia.
        -- rewrite Hcalls. unfold received, invoked.
           rewrite (decide_False (P := m = k)) by lia. rewrite app_nil_r.
           repeat case_decide; done || lia.
Qed.

Lemma exits_cons e es : exits (e :: es) = exits [e] + exits es.
Proof. unfold exits. rewrite !filter_cons. case_decide; simpl; lia. Qed.

Lemma combine_error_cons fe e es :
  combine_error (combine_error fe [e]) es = combine_error fe (e :: es).
Proof. destruct fe; [done|]. by destruct e as [|[|]]. Qed.

Lemma run_inv_steps j n k cb base es : ∀ m fe s s',
  run_inv j n k cb base m fe s →
  run_steps es s = Some s' →
  run_inv j n k cb base (m + exits es) (combine_error fe es) s'.
Proof.
  induction es as [|e es IH]; intros m fe s s' Hinv Hrun.
  - injection Hrun as <-. unfold exits. simpl. rewrite Nat.add_0_r.
    by destruct fe.
  - cbn [run_steps] in Hrun.
    destruct (run_step e s) as [s1|] eqn:He; [|done].
    rewrite exits_cons, Nat.add_assoc, <- combine_error_cons.
    eapply IH; [|done]. by eapply run_inv_step.
Qed.

End InstallsInv.

Section Stalled.

Lemma stalled_inv_step j n k cb base m fe e s s' :
  stalled_inv j n k cb base m fe s →
  run_step e s = Some s' →
  stalled_inv j n k cb base (m + exits [e]) (combine_error fe [e]) s'.
Proof.
  intros (Hcount & Hrun & Hall & (c & Hj & Hc) & Hcalls) Hstep.
  pose proof (qview_step (Env e) s) as Hq. cbn [run_action] in Hq.
  pose proof (jc_step e s s' Hstep) as Hjc.
  rewrite Hstep in Hq. unfold qview in Hq. cbn [fmap option_fmap option_map] in Hq.
  destruct e as [|err].
  - destruct Hjc as [Hjs Hcs].
    replace (m + exits [Tick]) with m by (unfold exits; simpl; lia).
    replace (combine_error fe [Tick]) with fe by (by destruct fe).
    cbn [qstep] in Hq. destruct (immediates s) as [|i]; [done|].
    unfold stalled_inv. rewrite Hjs, Hcs.
    destruct (running s) as [t|] eqn:Hr.
    + injection Hq as _ Ht Hr' _. rewrite Ht, Hr'. eauto 10.
    + destruct (tasks s) as [|t ts] eqn:Hts.
      * injection Hq as _ Ht Hr' _. rewrite Ht, Hr'. eauto 10.
      * injection Hq as _ Ht Hr' _. rewrite Ht, Hr'.
        apply Forall_cons in Hall as [Ht1 Hts1].
        split; [cbn [length] in *; lia|].
        split; [by intros ? [= <-]|]. eauto.
  - destruct Hjc as (t & Hr & Hjs & Hcs).
    replace (m + exits [ExecExit err]) with (S m) by (unfold exits; simpl; lia).
    assert (task_join t = j) as Htj by auto. rewrite Htj in *.
    cbn [qstep] in Hq. rewrite Hr in Hq, Hcount.
    assert (length (tasks s') + (match running s' with Some _ => 1 | None => 0 end)
            = length (tasks s) ∧
            (∀ t', running s' = Some t' → task_join t' = j) ∧
            Forall (λ t', task_join t' = j) (tasks s')) as (Hcount' & Hrun' & Hall').
    { destruct (tasks s) as [|t' ts] eqn:Hts.
      - injection Hq as _ Ht Hr' _. rewrite Ht, Hr'. done.
      - injection Hq as _ Ht Hr' _. rewrite Ht, Hr'.
        apply Forall_cons in Hall as [Ht1 Hts1].
        split; [cbn [length]; lia|]. split; [by intros ? [= <-]|done]. }
    unfold stalled_inv. split; [lia|]. split; [done|]. split; [done|].
    rewrite Hjs, Hcs.
    destruct fe as [e0|]; cbn [combine_error].
    + destruct err as [e|].
      * destruct (joins_done_err _ _ _ _ _ e Hj) as [-> ->]. split.
        -- eexists. split; [by apply list_lookup_insert_eq; eapply lookup_lt_Some|lia].
        -- by rewrite Hcalls, app_nil_r.
      * destruct (joins_done_ok _ _ _ _ _ Hj) as [-> ->]. split.
        -- eexists. split; [by apply list_lookup_insert_eq; eapply lookup_lt_Some|lia].
        -- rewrite Hcalls. case_decide; by rewrite app_nil_r.
    + destruct err as [e|]; cbn [first_error].
      * destruct (joins_done_err _ _ _ _ _ e Hj) as [-> ->]. split.
        -- eexists. split; [by apply list_lookup_insert_eq; eapply lookup_lt_Some|lia].
        -- by rewrite Hcalls, app_nil_r.
      * destruct (joins_done_ok _ _ _ _ _ Hj) as [-> ->]. split.
        -- eexists. split; [by apply list_lookup_insert_eq; eapply lookup_lt_Some|lia].
        -- rewrite Hcalls, decide_False by lia. by rewrite app_nil_r.
Qed.

Lemma stalled_inv_steps j n k cb base es : ∀ m fe s s',
  stalled_inv j n k cb base m fe s →
  run_steps es s = Some s' →
  stalled_inv j n k cb base (m + exits es) (combine_error fe es) s'.
Proof.
  induction es as [|e es IH]; intros m fe s s' Hinv Hrun.
  - injection Hrun as <-. unfold exits. simpl. rewrite Nat.add_0_r.
    by destruct fe.
  - cbn [run_steps] in Hrun.
    destruct (run_step e s) as [s1|] eqn:He; [|done].
    rewrite exits_cons, Nat.add_assoc, <- combine_error_cons.
    eapply IH; [|done]. by eapply stalled_inv_step.
Qed.

End Stalled.

(** C8 (amended): when the package.json of a pack exists but is not
    JSON, the SyntaxError leaves [writePacks] as an exception to its
    caller.  The packs before it in the document's key order have been
    reconciled, the state is the one they left: no pack after it is
    visited, and the completion callback has not been invoked.  Nor can
    it be invoked with success later on, since the loop never gets to
    count all its packs: started on an idle queue, along any schedule of
    processing steps and command exits the callback is invoked at most
    once, and only with the error of the first install that fails, an
    install queued for one of the packs before. *)
Theorem C8_malformed_manifest_aborts_the_whole_loop
    (options : Options.t) (D : document) (cb : option nat) (s s1 : state)
    (before after : list string) (p : string) (c : content) :
  Js.keys D = before ++ p :: after →
  forEach (λ x, each_pack (Options.export options) D x (length (joins s))) before
          (new_join (length (Js.keys D)) cb s) = (Ok (), s1) →
  (readFileSync (Options.export options) [p; "package.json"] s1).1 = Ok c →
  is_json c = false →
  writePacks options D cb s = (Throw SyntaxError, s1) ∧ calls s1 = calls s ∧
  (tasks s = [] → running s = None →
   ∀ es s2, run_steps es s1 = Some s2 →
     calls s2 = calls s ++ match first_error es with
                           | Some e => invoked cb (Some e)
                           | None => []
                           end).
Proof.
  intros Hkeys Hbefore Hread Hc.
  assert (length (Js.keys D) = length before + S (length after)) as Hlen.
  { rewrite Hkeys, length_app. done. }
  unfold writePacks, async_each.
  remember (length (Js.keys D)) as n eqn:Hn in *. clear Hn.
  split.
  { rewrite Hkeys.
    destruct (before ++ p :: after) eqn:Happ; [by destruct before|].
    rewrite <- Happ. eapply forEach_app_throw; [done|].
    by eapply each_pack_malformed. }
  eapply (forEach_packs_sched _ _ _ n cb _ _ _ 0) in Hbefore.
  2:{ intros x Hx. rewrite Hkeys. set_solver. }
  2:{ unfold new_join. cbn [joins with_joins]. apply list_lookup_middle. done. }
  2:{ lia. }
  destruct Hbefore as (pushed & Hall & Hpushed & Hs). cbn zeta in Hs.
  unfold sched, new_join in Hs.
  cbn [maintenance tasks running immediates joins calls with_joins] in Hs.
  injection Hs as _ Ht Hr' _ Hj Hcalls.
  rewrite decide_False, app_nil_r in Hcalls by lia.
  split; [done|]. intros Hts Hr es s2 Hes.
  assert (stalled_inv (length (joins s)) n (length pushed) cb (calls s) 0 None s1)
    as Hinv.
  { unfold stalled_inv. rewrite Ht, Hr', Hts, Hr, Hj, Hcalls. cbn [app].
    split; [lia|]. split; [done|]. split; [done|]. split; [|by rewrite app_nil_r].
    eexists. split.
    - apply list_lookup_insert_eq. rewrite length_app. cbn [length]. lia.
    - lia. }
  pose proof (stalled_inv_steps _ _ _ _ _ es _ _ _ _ Hinv Hes) as (_ & _ & _ & _ & Hc').
  by rewrite Hc'.
Qed.

Lemma C8_malformed_manifest_aborts_the_whole_loop_witness :
  let spec := PackSpec.Make [("u1:1.0", Example.u1)] (Some []) in
  let D : document := [("p0", spec); ("p1", spec); ("p2", spec)] in
  let s := boot "/app" None
             (Some {["p1" := Dir {["package.json" := Text "{oops"]}]}) in
  let s1 := (each_pack false D "p0" 0 (new_join 3 (Some 7) s)).2 in
  writePacks (Options.Make false) D (Some 7) s = (Throw SyntaxError, s1) ∧
  calls s1 = calls s ∧
  (tasks s = [] → running s = None →
   ∀ es s2, run_steps es s1 = Some s2 →
     calls s2 = calls s ++ match first_error es with
                           | Some e => invoked (Some 7) (Some e)
                           | None => []
                           end).
Proof.
  intros spec D s s1.
  apply (C8_malformed_manifest_aborts_the_whole_loop (Options.Make false) D (Some 7)
           s s1 ["p0"] ["p2"] "p1" (Text "{oops")).
  - reflexivity.
  - vm_compute. reflexivity.
  - vm_compute. reflexivity.
  - reflexivity.
Defined.

(** C2 (as stated, refuted): one pack changes, so one install is queued.
    When [writePacks] returns, every pass has finished but the
    completion callback (number 7) has not been invoked: it waits for
    the install.  When [npm update] then exits with code 1, that error is
    what the completion callback receives. *)
Lemma C2_install_error_reaches_the_completion_callback :
  let r := reloadAllMachinePacks (Options.Make false) Example.D (Some 7) Example.empty_cache in
  r.1 = Ok () ∧
  length (tasks r.2) = 1 ∧
  calls r.2 = [] ∧
  (calls <$> run_steps [Tick] r.2) = Some [] ∧
  (calls <$> run_steps [Tick; ExecExit (Some (ExecError 1))] r.2)
    = Some [(7, Some (ExecError 1))] ∧
  (calls <$> run_steps [Tick; ExecExit None] r.2) = Some [(7, None)].
Proof. vm_compute. repeat split; reflexivity. Qed.

(** C2 (amended): an install's exit status goes to its task's callback,
    which is the per-pack callback of the reconciliation loop, so it does
    reach the completion callback of [writePacks]: started on an idle
    queue and having queued [k] installs, [writePacks] leaves the
    completion callback invoked at once only when [k = 0]; otherwise,
    along any schedule of processing steps and command exits, it is
    invoked exactly once: with the first install error as soon as an
    install fails, or with no error when the last of the [k] installs
    has exited successfully. *)
Theorem C2_completion_callback_follows_the_installs
    (options : Options.t) (D : document) (cb : nat) (s s1 : state) :
  tasks s = [] → running s = None →
  writePacks options D (Some cb) s = (Ok (), s1) →
  ∀ es s2, run_steps es s1 = Some s2 →
    calls s2 = calls s ++ delivered cb (length (tasks s1)) es.
Proof.
  intros Hts Hr Hrun es s2 Hes.
  assert (run_inv (length (joins s)) (length (Js.keys D)) (length (tasks s1)) cb
            (calls s) 0 None s1) as Hinv.
  { unfold writePacks, async_each in Hrun.
    destruct (Js.keys D) as [|x l] eqn:Hkeys.
    - injection Hrun as <-. cbn [length].
      unfold run_inv, new_join, invoke. cbn [tasks running joins calls with_joins].
      rewrite Hts, Hr. cbn [length]. split; [done|]. split; [done|].
      split; [done|]. split; [done|]. split; [|done].
      exists 0. split; [|done]. by apply list_lookup_middle.
    - eapply (forEach_packs_sched _ _ _ (length (x :: l)) (Some cb) _ _ _ 0) in Hrun.
      + destruct Hrun as (pushed & Hall & Hlen & Hs). cbn zeta in Hs.
        unfold sched, new_join in Hs.
        cbn [maintenance tasks running immediates joins calls with_joins] in Hs.
        injection Hs as _ Ht Hr' _ Hj Hc. rewrite Hts in Ht. cbn [app] in Ht.
        unfold run_inv. rewrite Ht, Hr', Hr, Hj, Hc. cbn [length] in *.
        split; [lia|]. split; [lia|]. split; [done|]. split; [done|]. split.
        * eexists. split.
          -- apply list_lookup_insert_eq. rewrite length_app. cbn [length]. lia.
          -- intros _. cbn [length]. lia.
        * f_equal. unfold received, invoked. cbn [length] in *.
          repeat case_decide; done || lia.
      + intros y Hy. by rewrite Hkeys.
      + unfold new_join. cbn [joins with_joins]. by apply list_lookup_middle.
      + lia. }
  pose proof (run_inv_steps _ _ _ _ _ es _ _ _ _ Hinv Hes) as (_ & _ & _ & _ & _ & Hc).
  by rewrite Hc.
Qed.

Lemma C2_completion_callback_follows_the_installs_witness :
  calls Example.failed =
  calls Example.empty_cache ++
    delivered 7 (length (tasks Example.queued)) [Tick; ExecExit (Some (ExecError 1))].
Proof.
  apply (C2_completion_callback_follows_the_installs (Options.Make false) Example.D 7
           Example.empty_cache Example.queued).
  - reflexivity.
  - reflexivity.
  - vm_compute. reflexivity.
  - vm_compute. reflexivity.
Defined.

(** ** Stale units *)

(** C3 (the code departs from it): unit [b] has left the desired spec.
    The loop that deletes stale units unlinks [machinesDir/b.js], not
    [machinesDir/p/b.js].  With nothing of that name at the cache root
    [writePacks] throws ENOENT and leaves the pack as it was; with a
    plain file of that name there, that file is removed, the pass
    completes, the new manifest lists [a] only, and the stale
    [p/b.js] is still in the pack's directory. *)
Theorem C3_stale_unit_file_is_not_removed :
  let r := writePacks (Options.Make false) Stale.D (Some 7) Stale.disk in
  let r' := writePacks (Options.Make false) Stale.D (Some 7) Stale.disk_with_root_file in
  (r.1 = Throw ENOENT ∧ trace r.2 = [] ∧
   pack_files (yarr_machines r.2) "p" = Some Stale.files) ∧
  (r'.1 = Ok () ∧
   trace r'.2 =
     [Unlink "/app/node_modules/yarr/node_machines/b.js";
      Write ManifestFile "/app/node_modules/yarr/node_machines/p/package.json"
        (Json (PackageJson.Make (Some []) ["a"] [("a", "1")]));
      Write IndexFile "/app/node_modules/yarr/node_machines/p/index.js" index_js;
      Push "/app/node_modules/yarr/node_machines/p"] ∧
   (yarr_machines r'.2 ≫= (.!! "b.js")) = None ∧
   (pack_files (yarr_machines r'.2) "p" ≫= (.!! "b.js")) = Some (render Example.u1) ∧
   (pack_files (yarr_machines r'.2) "p" ≫= (.!! "package.json"))
     = Some (Json (PackageJson.Make (Some []) ["a"] [("a", "1")]))).
Proof.
  cbv zeta. split; [split; [|split]|split; [|split; [|split; [|split]]]].
  - vm_compute. reflexivity.
  - vm_compute. reflexivity.
  - apply (bool_decide_unpack _). vm_compute. reflexivity.
  - vm_compute. reflexivity.
  - vm_compute. reflexivity.
  - vm_compute. reflexivity.
  - vm_compute. reflexivity.
  - vm_compute. reflexivity.
Qed.

(** ** Idempotence *)

(** C1 (as stated, refuted): a pack whose document has two keys with the
    same base name, ["a:1"] and ["a:2"].  The first reconciliation
    records version 2 for [a]; the second one, with the same document,
    finds 2 recorded where the key ["a:1"] asks for 1 and writes
    [p/a.js] again. *)
Lemma C1_second_run_rewrites_a_unit :
  let D : document :=
    [("p", PackSpec.Make [("a:1", Example.u1); ("a:2", Example.u1)] (Some []))] in
  let r1 := reloadAllMachinePacks (Options.Make false) D (Some 7) (boot "/app" None None) in
  let installed := run_steps [Tick; ExecExit None] r1.2 in
  let r2 := (λ s, reloadAllMachinePacks (Options.Make false) D (Some 8) s) <$> installed in
  r1.1 = Ok () ∧
  (calls <$> installed) = Some [(7, None)] ∧
  (fst <$> r2) = Some (Ok ()) ∧
  ((λ r, filter (λ e, is_fs_change e = true) (drop (length (trace r1.2)) (trace r.2))) <$> r2)
    = Some [Write UnitFile "/app/node_modules/yarr/node_machines/p/a.js" (render Example.u1)].
Proof. vm_compute. repeat split; reflexivity. Qed.

Section Objects.
Context {A : Type}.
Implicit Types (o : Js.obj A) (k : string) (v : A).

Lemma get_is_Some_keys o k : is_Some (Js.get o k) ↔ k ∈ Js.keys o.
Proof.
  induction o as [|[k' v'] o IH]; simpl.
  - split; [by intros [? ?]|by intros ?%elem_of_nil].
  - case_decide as Hk.
    + subst. split; [set_solver|eauto].
    + rewrite IH. set_solver.
Qed.

Lemma get_replace o k v k' :
  k ∈ Js.keys o →
  Js.get (Js.replace k v o) k' = if decide (k = k') then Some v else Js.get o k'.
Proof.
  induction o as [|[k0 v0] o IH]; simpl; [by intros ?%elem_of_nil|].
  intros Hin. destruct (decide (k0 = k)) as [->|Hne]; simpl.
  - repeat case_decide; congruence.
  - rewrite IH by set_solver. repeat case_decide; congruence.
Qed.

Lemma get_insert_index o n k v k' :
  k ∉ Js.keys o →
  Js.get (Js.insert_index n k v o) k' = if decide (k = k') then Some v else Js.get o k'.
Proof.
  induction o as [|[k0 v0] o IH]; simpl; [done|].
  intros Hin. destruct (Js.array_index k0) as [n'|]; [|done].
  destruct (n' <? n)%N; [|done]. simpl.
  rewrite IH by set_solver.
  repeat case_decide; try congruence. set_solver.
Qed.

Lemma get_app_new o k v k' :
  k ∉ Js.keys o →
  Js.get (o ++ [(k, v)]) k' = if decide (k = k') then Some v else Js.get o k'.
Proof.
  induction o as [|[k0 v0] o IH]; simpl; [done|].
  intros Hin. rewrite IH by set_solver.
  repeat case_decide; try congruence. set_solver.
Qed.

(** Reading back what [o[k] = v] stored. *)
Lemma get_set o k v k' :
  k ≠ "__proto__" →
  Js.get (Js.set o k v) k' = if decide (k = k') then Some v else Js.get o k'.
Proof.
  intros Hk. unfold Js.set, Js.has. rewrite decide_False by done.
  case_bool_decide as Hin.
  - by apply get_replace.
  - destruct (Js.array_index k); [by apply get_insert_index|by apply get_app_new].
Qed.

(** An assignment to [__proto__] stores nothing. *)
Lemma set_proto o v : Js.set o "__proto__" v = o.
Proof. done. Qed.

Lemma keys_set o k v x :
  x ∈ Js.keys (Js.set o k v) ↔ (x = k ∧ k ≠ "__proto__") ∨ x ∈ Js.keys o.
Proof.
  destruct (decide (k = "__proto__")) as [->|Hk]; [rewrite set_proto; naive_solver|].
  rewrite <- !get_is_Some_keys, get_set by done. case_decide; [|naive_solver].
  subst. split; eauto.
Qed.

End Objects.

Section Candidate.

Lemma candidate_versions_other ks : ∀ n m,
  m ∉ map master_of ks →
  Js.get (NewPackageJson.machineVersions (foldl candidate_step n ks)) m =
  Js.get (NewPackageJson.machineVersions n) m.
Proof.
  induction ks as [|k ks IH]; intros n m Hm; [done|].
  cbn [foldl]. rewrite IH by set_solver. cbn [candidate_step NewPackageJson.machineVersions].
  destruct (decide (master_of k = "__proto__")) as [->|Hk]; [done|].
  rewrite get_set by done. rewrite decide_False; [done|]. set_solver.
Qed.

Lemma candidate_versions_in ks : ∀ n k,
  NoDup (map master_of ks) → k ∈ ks → master_of k ≠ "__proto__" →
  Js.get (NewPackageJson.machineVersions (foldl candidate_step n ks)) (master_of k) =
  Some (version_of k).
Proof.
  induction ks as [|k0 ks IH]; intros n k Hnd Hin Hk; [by apply elem_of_nil in Hin|].
  cbn [map] in Hnd. apply NoDup_cons in Hnd as [Hk0 Hnd].
  cbn [foldl]. apply elem_of_cons in Hin as [->|Hin].
  - rewrite candidate_versions_other by done.
    cbn [candidate_step NewPackageJson.machineVersions].
    rewrite get_set by done. by rewrite decide_True.
  - by apply IH.
Qed.

Lemma candidate_versions_keys ks : ∀ n m,
  m ∈ Js.keys (NewPackageJson.machineVersions (foldl candidate_step n ks)) →
  m ∈ map master_of ks ∨ m ∈ Js.keys (NewPackageJson.machineVersions n).
Proof.
  induction ks as [|k ks IH]; intros n m Hm; [by right|].
  cbn [foldl] in Hm. apply IH in Hm as [Hm|Hm]; [set_solver|].
  cbn [candidate_step NewPackageJson.machineVersions] in Hm.
  apply keys_set in Hm as [[-> _]|Hm]; set_solver.
Qed.

Lemma get_stringified (o : Js.obj (option string)) k v :
  Js.get o k = Some (Some v) →
  Js.get (omap (λ kv, (λ v, (kv.1, v)) <$> kv.2) o) k = Some v.
Proof.
  induction o as [|[k0 [v0|]] o IH]; simpl; [done| |].
  - case_decide; [by intros [= ->]|done].
  - case_decide; [done|done].
Qed.

Lemma keys_stringified (o : Js.obj (option string)) k :
  k ∈ Js.keys (omap (λ kv, (λ v, (kv.1, v)) <$> kv.2) o) → k ∈ Js.keys o.
Proof.
  unfold Js.keys. rewrite !list_elem_of_fmap.
  intros ([k' v] & -> & Hin). apply list_elem_of_omap in Hin as ([k0 v0] & Hin & Heq).
  destruct v0; simplify_eq/=. by exists (k', Some v).
Qed.

End Candidate.

Section UnitFileNames.

Lemma append_js_ends m : ends_in_js (m +:+ ".js") = true.
Proof.
  induction m as [|c m IH]; [done|].
  change (String c m +:+ ".js") with (String c (m +:+ ".js")).
  cbn [ends_in_js]. rewrite IH. apply orb_true_r.
Qed.

(** No unit is stored under the manifest's name. *)
Lemma unit_file_not_manifest m : m +:+ ".js" ≠ "package.json".
Proof.
  intros Heq. pose proof (append_js_ends m) as H. rewrite Heq in H.
  vm_compute in H. done.
Qed.

Lemma put_files_other d fs name :
  Forall (λ f : string * content, f.1 ≠ name) fs →
  put_files d fs !! name = d !! name.
Proof.
  revert d. induction fs as [|f fs IH]; intros d Hfs; [done|].
  apply Forall_cons in Hfs as [Hf Hfs]. cbn [put_files foldl].
  fold (put_files (<[f.1:=f.2]> d) fs). rewrite IH by done.
  by rewrite lookup_insert_ne.
Qed.

Lemma put_files_keeps_manifest d old machines :
  manifest_of (put_files d (unit_writes old machines)) = manifest_of d.
Proof.
  unfold manifest_of. rewrite put_files_other; [done|].
  apply Forall_forall. intros f [entry [-> _]]%list_elem_of_fmap.
  apply unit_file_not_manifest.
Qed.

Lemma root_with_queue export m ts r i s :
  root export (with_queue m ts r i s) = root export s.
Proof. by destruct export. Qed.

Lemma root_pack_outcome export p j spec old d evs t s :
  root export (pack_outcome export p j spec old d evs t s) =
  Some (<[p := Dir
            (if decide (stringify_new (candidate spec) = old)
             then put_files d (unit_writes old (PackSpec.machines spec))
             else <["index.js" := index_js]>
                    (<["package.json" := Json (stringify_new (candidate spec))]>
                       (put_files d (unit_writes old (PackSpec.machines spec)))))]> t).
Proof.
  unfold pack_outcome. case_decide.
  - by rewrite root_done, root_emit_list, root_with_root.
  - by rewrite root_emit_list, root_with_queue, root_with_root.
Qed.

(** After a completed pass the pack's directory holds a manifest that
    prints like the candidate; the other directories are untouched. *)
Lemma each_pack_post export D p j spec s s' t :
  Js.get D p = Some spec →
  root export s = Some t →
  each_pack export D p j s = (Ok (), s') →
  ∃ t' d',
    root export s' = Some t' ∧
    t' !! p = Some (Dir d') ∧
    manifest_of d' = Ok (stringify_new (candidate spec)) ∧
    (∀ q, q ≠ p → t' !! q = t !! q ∨ (t' !! q = None ∧ ∃ c, t !! q = Some (File c))).
Proof.
  intros Hget Hroot Hrun.
  destruct (each_pack_ok _ _ _ _ _ _ _ _ Hget Hroot Hrun)
    as (d & old & evs & t_u & Hd & Hold & Hevs & Hl & Hp & ->).
  rewrite root_pack_outcome. eexists _, _. split; [done|].
  split; [apply lookup_insert_eq|]. split.
  - case_decide as Hc.
    + rewrite put_files_keeps_manifest. congruence.
    + unfold manifest_of. rewrite lookup_insert_ne by done.
      by rewrite lookup_insert_eq.
  - intros q Hq. rewrite lookup_insert_ne by done. by apply Hl.
Qed.

End UnitFileNames.

(** C6: in a completed pass over a pack (its name a single path
    segment), with [old] the manifest loaded from disk and the candidate
    built from the desired spec: if both print to the same text, no
    manifest file and no index file is written, package.json holds what
    it held, and no install task is enqueued; otherwise the manifest
    file and then the index file are written, so that package.json holds
    the candidate and index.js the loader stub, and exactly one install
    task, for the pack's directory, is appended to the queue. *)
Theorem C6_manifest_written_only_when_text_differs
    (export : bool) (data : document) (p : string) (j : nat)
    (spec : PackSpec.t) (old : PackageJson.t) (s s' : state) :
  segment p = true →
  Js.get data p = Some spec →
  (loadPackageJson export p s).1 = Ok old →
  each_pack export data p j s = (Ok (), s') →
  let cand := stringify_new (candidate spec) in
  let dir := path_join (machinesDir export s) p in
  ∃ evs, Forall quiet evs ∧
    if decide (Json cand = Json old)
    then trace s' = trace s ++ evs ∧ tasks s' = tasks s ∧
         (pack_files (root export s') p ≫= (.!! "package.json")) =
         (pack_files (root export s) p ≫= (.!! "package.json"))
    else trace s' = trace s ++ evs ++
           [Write ManifestFile (full_path export [p; "package.json"] s) (Json cand);
            Write IndexFile (full_path export [p; "index.js"] s) index_js;
            Push dir] ∧
         tasks s' = tasks s ++ [Task dir j] ∧
         (pack_files (root export s') p ≫= (.!! "package.json")) = Some (Json cand) ∧
         (pack_files (root export s') p ≫= (.!! "index.js")) = Some index_js.
Proof.
  intros _ Hget Hold Hrun cand dir.
  destruct (root export s) as [t|] eqn:Hroot.
  - destruct (each_pack_ok _ _ _ _ _ _ _ _ Hget Hroot Hrun)
      as (d & old' & evs & t_u & Hd & Hold' & Hevs & Hl & Hp & ->).
    rewrite (loaded_manifest _ _ _ _ _ Hroot Hd), Hold' in Hold.
    injection Hold as ->.
    exists (evs ++ map (unit_event export p s) (unit_writes old (PackSpec.machines spec))).
    split.
    + apply Forall_app. split.
      * eapply Forall_impl; [done|]. intros [] [? | ?]; done.
      * apply Forall_forall. intros e [f [-> _]]%list_elem_of_fmap. done.
    + rewrite pack_outcome_trace, pack_outcome_tasks, root_pack_outcome. fold cand.
      unfold pack_files at 1. rewrite lookup_insert_eq. cbn [mbind option_bind].
      destruct (decide (Json cand = Json old)) as [Heq|Hne].
      * injection Heq as Heq. rewrite !decide_True by done.
        split; [by rewrite !app_nil_r, app_assoc|]. split; [by rewrite app_nil_r|].
        rewrite put_files_other.
        2:{ apply Forall_forall. intros f [entry [-> _]]%list_elem_of_fmap.
            apply unit_file_not_manifest. }
        unfold pack_files. by destruct Hd as [->|[-> ->]].
      * rewrite !decide_False by congruence.
        split; [by rewrite <- app_assoc|]. split; [done|].
        unfold pack_files. rewrite lookup_insert_eq. cbn [mbind option_bind].
        rewrite lookup_insert_eq. split; [|done].
        rewrite lookup_insert_ne by done. by rewrite lookup_insert_eq.
  - destruct (each_pack_no_root _ _ _ _ _ _ _ Hget Hroot Hrun) as (Hc & ->).
    rewrite (load_run_no_root _ _ _ Hroot) in Hold. injection Hold as <-.
    exists []. split; [done|]. fold cand in Hc. rewrite decide_True by congruence.
    destruct (done_fs j None s) as (_ & _ & _ & ->).
    destruct (done_queue j None s) as (_ & -> & _ & _).
    rewrite root_done, Hroot. by rewrite app_nil_r.
Qed.

Lemma C6_manifest_written_only_when_text_differs_witness :
  ∃ evs, Forall quiet evs ∧
    if decide (Json (stringify_new (candidate Example.packA)) = Json emptyPackageJson)
    then trace Example.synced = trace Example.started ++ evs ∧
         tasks Example.synced = tasks Example.started ∧
         (pack_files (root false Example.synced) "packA" ≫= (.!! "package.json")) =
         (pack_files (root false Example.started) "packA" ≫= (.!! "package.json"))
    else trace Example.synced = trace Example.started ++ evs ++
           [Write ManifestFile (full_path false ["packA"; "package.json"] Example.started)
              (Json (stringify_new (candidate Example.packA)));
            Write IndexFile (full_path false ["packA"; "index.js"] Example.started) index_js;
            Push (path_join (machinesDir false Example.started) "packA")] ∧
         tasks Example.synced = tasks Example.started ++
           [Task (path_join (machinesDir false Example.started) "packA") 0] ∧
         (pack_files (root false Example.synced) "packA" ≫= (.!! "package.json")) =
           Some (Json (stringify_new (candidate Example.packA))) ∧
         (pack_files (root false Example.synced) "packA" ≫= (.!! "index.js")) =
           Some index_js.
Proof.
  apply (C6_manifest_written_only_when_text_differs false Example.D "packA" 0
           Example.packA emptyPackageJson Example.started Example.synced).
  - reflexivity.
  - reflexivity.
  - vm_compute. reflexivity.
  - vm_compute. reflexivity.
Defined.

(** A manifest on disk that holds the candidate's three properties but
    prints otherwise (further properties, another order) is not the
    candidate's text: the pass takes the branch that writes. *)
Remark foreign_manifest_differs (n : NewPackageJson.t) (old : PackageJson.t) :
  PackageJson.printed old = false → Json (stringify_new n) ≠ Json old.
Proof. intros Hold [= Heq]. by rewrite <- Heq in Hold. Qed.


Lemma put_files_is_Some d fs name :
  is_Some (d !! name) → is_Some (put_files d fs !! name).
Proof.
  revert d. induction fs as [|f fs IH]; intros d Hd; [done|].
  cbn [put_files foldl]. fold (put_files (<[f.1:=f.2]> d) fs). apply IH.
  destruct (decide (f.1 = name)) as [->|Hne].
  - rewrite lookup_insert_eq. eauto.
  - by rewrite lookup_insert_ne.
Qed.

(** More generally, no completed pass over a pack ever takes a file out
    of a pack directory: whatever is in one stays there. *)
Lemma pack_files_survive export D p j s s' q d name :
  (∃ spec, Js.get D p = Some spec) →
  each_pack export D p j s = (Ok (), s') →
  pack_files (root export s) q = Some d → is_Some (d !! name) →
  ∃ d', pack_files (root export s') q = Some d' ∧ is_Some (d' !! name).
Proof.
  intros [spec Hget] Hrun Hq Hname. unfold pack_files in Hq.
  destruct (root export s) as [t|] eqn:Hroot; [|done].
  destruct (t !! q) as [[c|dq]|] eqn:Htq; try done. injection Hq as ->.
  destruct (each_pack_ok _ _ _ _ _ _ _ _ Hget Hroot Hrun)
    as (d0 & old & evs & t_u & Hd & Hold & Hevs & Hl & Hp & ->).
  unfold pack_files. rewrite root_pack_outcome.
  destruct (decide (q = p)) as [->|Hne].
  - rewrite lookup_insert_eq. eexists. split; [done|].
    assert (d0 = d) as -> by (destruct Hd as [Hd|[Hd _]]; congruence).
    case_decide.
    + by apply put_files_is_Some.
    + destruct (decide (name = "index.js")) as [->|?];
        [rewrite lookup_insert_eq; eauto|rewrite lookup_insert_ne by done].
      destruct (decide (name = "package.json")) as [->|?];
        [rewrite lookup_insert_eq; eauto|rewrite lookup_insert_ne by done].
      by apply put_files_is_Some.
  - rewrite lookup_insert_ne by done.
    destruct (Hl q Hne) as [->|[_ [c Hc]]]; [|congruence].
    rewrite Htq. eauto.
Qed.

Section Converged.

Lemma tidy_versions spec entry :
  tidy spec = true → entry ∈ PackSpec.machines spec →
  ∃ v, version_of entry.1 = Some v ∧ v ≠ EmptyString ∧
    Js.get (PackageJson.machineVersions (stringify_new (candidate spec)))
           (master_of entry.1) = Some v.
Proof.
  unfold tidy. rewrite andb_true_iff, bool_decide_eq_true, forallb_forall.
  intros [Hnd Hver] Hin.
  assert (entry.1 ∈ Js.keys (PackSpec.machines spec)) as Hk.
  { unfold Js.keys. apply list_elem_of_fmap. eauto. }
  specialize (Hver entry.1 (proj1 (list_elem_of_In _ _) Hk)).
  apply andb_true_iff in Hver as [Hver Hrec].
  unfold recordable in Hrec. apply negb_true_iff, bool_decide_eq_false in Hrec.
  unfold versioned in Hver.
  destruct (version_of entry.1) as [v|] eqn:Hv; [|done].
  apply negb_true_iff in Hver. unfold falsy in Hver.
  apply bool_decide_eq_false in Hver.
  exists v. split; [done|]. split; [done|].
  cbn [stringify_new PackageJson.machineVersions PackageJson.Make]. apply get_stringified.
  unfold candidate. rewrite candidate_versions_in by done. by rewrite Hv.
Qed.

(** Against its own manifest a tidy pack has no unit to write and no
    stale unit to delete. *)
Lemma unit_writes_converged spec :
  tidy spec = true →
  unit_writes (stringify_new (candidate spec)) (PackSpec.machines spec) = [].
Proof.
  intros Htidy. unfold unit_writes. rewrite filter_none; [done|].
  apply Forall_forall. intros entry Hin.
  destruct (tidy_versions _ _ Htidy Hin) as (v & Hv & Hne & Hget).
  unfold replace_it. rewrite Hget, Hv. unfold falsy.
  rewrite bool_decide_eq_false_2 by done.
  by rewrite bool_decide_eq_true_2.
Qed.

Lemma stale_converged spec :
  Js.difference
    (Js.keys (PackageJson.machineVersions (stringify_new (candidate spec))))
    (map master_of (Js.keys (PackSpec.machines spec))) = [].
Proof.
  unfold Js.difference. apply filter_none. apply Forall_forall.
  intros m Hm. cbn [stringify_new PackageJson.machineVersions] in Hm.
  apply keys_stringified in Hm. unfold candidate in Hm.
  apply candidate_versions_keys in Hm as [Hm|Hm]; [by intros []|].
  by apply elem_of_nil in Hm.
Qed.

(** A pass over a pack that is already as desired changes nothing and
    reports to its join at once. *)
Lemma each_pack_converged export D p j spec s t d :
  Js.get D p = Some spec → tidy spec = true →
  root export s = Some t → t !! p = Some (Dir d) →
  manifest_of d = Ok (stringify_new (candidate spec)) →
  each_pack export D p j s = (Ok (), done j None s).
Proof.
  intros Hget Htidy Hroot Hdir Hold. unfold each_pack.
  unfold bind at 1. rewrite (mkdir_attempt _ _ _ _ Hroot), Hdir.
  unfold bind at 1. rewrite (load_run _ _ _ _ Hroot), Hdir, Hold, Hget.
  rewrite stale_converged. cbn [forEach]. unfold bind at 1. unfold ret at 1.
  unfold bind at 1.
  rewrite (each_machines_run _ _ _ _ _ _ t d Hroot Hdir).
  rewrite (unit_writes_converged _ Htidy). cbn [map put_files foldl].
  rewrite emit_list_nil, insert_id by done. rewrite <- Hroot, with_root_id.
  fold (candidate spec). by rewrite decide_True.
Qed.

End Converged.

Section Settled.

Lemma get_elem {A} (o : Js.obj A) k v : Js.get o k = Some v → (k, v) ∈ o.
Proof.
  induction o as [|[k' v'] o IH]; simpl; [done|].
  case_decide; [intros [= ->]; subst; set_solver|]. set_solver.
Qed.

Lemma tidy_document_spec D p spec :
  tidy_document D = true → Js.get D p = Some spec → tidy spec = true.
Proof.
  unfold tidy_document. rewrite forallb_forall.
  intros Hall Hget%get_elem. by apply (Hall (p, spec)), list_elem_of_In.
Qed.

Lemma disk_root export s s' : disk s' = disk s → root export s' = root export s.
Proof. unfold disk, root. intros [= _ -> ->]. done. Qed.

Lemma disk_done j err s : disk (done j err s) = disk s.
Proof.
  destruct (done_fs j err s) as (H1 & H2 & H3 & _). unfold disk.
  by rewrite H1, H2, H3.
Qed.

Lemma settled_for_disk export D ps s s' :
  disk s' = disk s → settled_for export D ps s → settled_for export D ps s'.
Proof.
  intros Hd (t & Hroot & H). exists t. by rewrite (disk_root _ _ _ Hd).
Qed.

(** The loop over the packs establishes the agreement pack by pack. *)
Lemma forEach_settles export D j l : ∀ ps s s',
  (∀ x, x ∈ l → x ∈ Js.keys D) →
  settled_for export D ps s →
  forEach (λ x, each_pack export D x j) l s = (Ok (), s') →
  settled_for export D (ps ++ l) s'.
Proof.
  induction l as [|x l IH]; intros ps s s' Hkeys Hset Hrun.
  - injection Hrun as <-. by rewrite app_nil_r.
  - cbn [forEach] in Hrun. unfold bind at 1 in Hrun.
    destruct (each_pack export D x j s) as [[[]|e] s1] eqn:Hx; [|done].
    replace (ps ++ x :: l) with ((ps ++ [x]) ++ l) by (by rewrite <- app_assoc).
    eapply IH; [set_solver| |done].
    destruct Hset as (t & Hroot & Hdirs & Hps).
    destruct (get_is_Some D x) as [spec Hget]; [apply Hkeys; set_solver|].
    destruct (each_pack_post _ _ _ _ _ _ _ _ Hget Hroot Hx)
      as (t' & d' & Hroot' & Hx' & Hman & Hframe).
    exists t'. split; [done|]. split.
    + intros n d Hn. destruct (decide (n = x)) as [->|Hne]; [apply Hkeys; set_solver|].
      destruct (Hframe n Hne) as [He|[He _]]; [|congruence].
      rewrite He in Hn. eauto.
    + intros q specq Hq Hgetq. destruct (decide (q = x)) as [->|Hne].
      * assert (specq = spec) as -> by congruence. eauto.
      * apply elem_of_app in Hq as [Hq|Hq]; [|set_solver].
        destruct (Hps q specq Hq Hgetq) as (d & Hd & Hm).
        exists d. split; [|done].
        destruct (Hframe q Hne) as [He|[_ [c Hc]]]; congruence.
Qed.

Lemma forEach_rmdir_noop export l s t :
  root export s = Some t →
  (∀ n d, n ∈ l → t !! n ≠ Some (Dir d)) →
  forEach (rmdirSyncRecursive export) l s = (Ok (), s).
Proof.
  intros Hroot. induction l as [|x l IH]; intros Hl; [done|].
  cbn [forEach]. unfold bind at 1. unfold rmdirSyncRecursive at 1.
  rewrite Hroot. destruct (t !! x) as [[c|d]|] eqn:Hx.
  - apply IH. intros n d Hn. apply Hl. set_solver.
  - exfalso. eapply (Hl x d); [set_solver|done].
  - apply IH. intros n d Hn. apply Hl. set_solver.
Qed.

(** On a settled cache the pruner does nothing. *)
Lemma cleanPacks_settled options D ps f s :
  settled_for (Options.export options) D ps s →
  cleanPacks (Given options) (Given D) (Some f) s = f None s.
Proof.
  intros (t & Hroot & Hdirs & _).
  unfold cleanPacks. cbn [Object_keys options_export].
  unfold bind at 1. unfold ret at 1. unfold bind at 1. unfold ret at 1.
  unfold bind at 1. unfold try_catch, mkdirsSync. rewrite Hroot.
  unfold bind at 1. unfold readdirSync. rewrite Hroot.
  unfold bind at 1. rewrite (forEach_rmdir_noop _ _ _ t); [done|done|].
  intros n d Hn Hd. unfold Js.difference in Hn.
  apply list_elem_of_filter in Hn as [Hn _]. apply Hn. eauto.
Qed.

(** On a settled cache the loop over tidy packs writes nothing. *)
Lemma forEach_settled export D j l : ∀ s,
  tidy_document D = true →
  (∀ x, x ∈ l → x ∈ Js.keys D) →
  settled_for export D (Js.keys D) s →
  ∃ s', forEach (λ x, each_pack export D x j) l s = (Ok (), s') ∧
        trace s' = trace s ∧ disk s' = disk s.
Proof.
  induction l as [|x l IH]; intros s Htidy Hkeys Hset; [by exists s|].
  cbn [forEach]. unfold bind at 1.
  destruct (get_is_Some D x) as [spec Hget]; [apply Hkeys; set_solver|].
  pose proof Hset as (t & Hroot & _ & Hps).
  destruct (Hps x spec) as (d & Hd & Hm); [apply Hkeys; set_solver|done|].
  rewrite (each_pack_converged _ _ _ _ _ _ _ _ Hget
             (tidy_document_spec _ _ _ Htidy Hget) Hroot Hd Hm).
  destruct (IH (done j None s)) as (s' & Hrun & Htr & Hdisk);
    [done|set_solver|by eapply settled_for_disk; [apply disk_done|]|].
  exists s'. split; [done|].
  destruct (done_fs j None s) as (_ & _ & _ & Htr').
  split; [congruence|]. by rewrite Hdisk, disk_done.
Qed.

End Settled.

Section Idempotence.

Lemma reload_unfold options D cb s :
  ∃ s_a, reloadAllMachinePacks options D cb s = writePacks options D cb s_a ∧
    is_Some (root (Options.export options) s_a) ∧
    pack_dirs (root (Options.export options) s_a) =
      pack_dirs (root (Options.export options) s) ∩ list_to_set (Js.keys D).
Proof.
  destruct (prune_dirs (Options.export options) (Js.keys D) s)
    as (s1 & names & s' & Hmk & Hrd & Hrm & Hsome & Hdirs).
  exists s'. split; [|done].
  unfold reloadAllMachinePacks, cleanPacks. cbn [Object_keys options_export].
  unfold bind at 1. unfold ret at 1. unfold bind at 1. unfold ret at 1.
  unfold bind at 1. rewrite Hmk. unfold bind at 1. rewrite Hrd.
  unfold bind at 1. by rewrite Hrm.
Qed.

Lemma disk_new_join n cb s : disk (new_join n cb s) = disk s.
Proof. done. Qed.

Lemma disk_invoke cb err s : disk (invoke cb err s) = disk s.
Proof. by destruct cb. Qed.

(** A completed reconciliation leaves the cache settled. *)
Lemma reload_settles options D cb s s1 :
  reloadAllMachinePacks options D cb s = (Ok (), s1) →
  settled_for (Options.export options) D (Js.keys D) s1.
Proof.
  destruct (reload_unfold options D cb s) as (s_a & -> & [t Hroot] & Hdirs).
  unfold writePacks, async_each.
  assert (settled_for (Options.export options) D []
            (new_join (length (Js.keys D)) cb s_a)) as Hset.
  { exists t. split; [by rewrite (disk_root _ _ _ (disk_new_join _ _ _))|].
    split; [|by intros ?? ?%elem_of_nil].
    intros n d Hn.
    assert (n ∈ pack_dirs (root (Options.export options) s_a)) as Hin.
    { rewrite Hroot. apply elem_of_pack_dirs. eauto. }
    rewrite Hdirs in Hin. set_solver. }
  destruct (Js.keys D) as [|x l] eqn:Hkeys.
  - intros [= <-]. eapply settled_for_disk; [apply disk_invoke|].
    destruct Hset as (t' & ? & ? & _). exists t'. split; [done|]. split; [done|].
    by intros ?? ?%elem_of_nil.
  - intros Hrun.
    eapply (forEach_settles _ _ _ _ []) in Hrun; [done|by intros ?; rewrite Hkeys|done].
Qed.

(** On a settled cache a reconciliation with a tidy document completes
    without any event. *)
Lemma reload_settled options D cb s :
  tidy_document D = true →
  settled_for (Options.export options) D (Js.keys D) s →
  ∃ s2, reloadAllMachinePacks options D cb s = (Ok (), s2) ∧
        trace s2 = trace s ∧ disk s2 = disk s.
Proof.
  intros Htidy Hset. unfold reloadAllMachinePacks.
  rewrite (cleanPacks_settled _ _ _ _ _ Hset).
  unfold writePacks, async_each.
  destruct (Js.keys D) as [|x l] eqn:Hkeys.
  - eexists. split; [done|]. split; [by destruct cb|].
    by rewrite disk_invoke, disk_new_join.
  - rewrite <- Hkeys in *.
    destruct (forEach_settled (Options.export options) D (length (joins s))
                (Js.keys D) (new_join (length (Js.keys D)) cb s))
      as (s2 & Hrun & Htr & Hdisk); [done|done| |].
    { eapply settled_for_disk; [apply disk_new_join|done]. }
    exists s2. split; [done|]. split; [done|]. by rewrite Hdisk.
Qed.

End Idempotence.

(** C1 (amended): for a document whose pack names are single path
    segments and in which, within each pack, no two unit keys share a
    base name, no base name contains ['/'] or is [__proto__], and every
    unit key carries a non-empty version: a reconciliation ([cleanPacks]
    then [writePacks]) that has completed is followed, whatever the
    install queue has done in between, by a reconciliation with the same
    document that completes with no event at all: no directory is made
    or removed, no unit, manifest or index file is written, no install
    is queued, and the disk is unchanged. *)
Theorem C1_second_run_writes_nothing_for_tidy_documents
    (options : Options.t) (D : document) (cb cb' : option nat)
    (s s1 s1' : state) :
  plain_names D = true →
  tidy_document D = true →
  reloadAllMachinePacks options D cb s = (Ok (), s1) →
  disk s1' = disk s1 →
  ∃ s2, reloadAllMachinePacks options D cb' s1' = (Ok (), s2) ∧
        trace s2 = trace s1' ∧ disk s2 = disk s1'.
Proof.
  intros _ Htidy Hrun Hdisk. apply reload_settled; [done|].
  eapply settled_for_disk; [done|]. by eapply reload_settles.
Qed.

Lemma C1_second_run_writes_nothing_for_tidy_documents_witness :
  let s1 := (reloadAllMachinePacks (Options.Make false) Example.D (Some 7)
               (boot "/app" None None)).2 in
  ∃ s2, reloadAllMachinePacks (Options.Make false) Example.D (Some 8) s1 = (Ok (), s2) ∧
        trace s2 = trace s1 ∧ disk s2 = disk s1.
Proof.
  intros s1.
  apply (C1_second_run_writes_nothing_for_tidy_documents (Options.Make false)
           Example.D (Some 7) (Some 8) (boot "/app" None None) s1 s1).
  - reflexivity.
  - vm_compute. reflexivity.
  - vm_compute. reflexivity.
  - reflexivity.
Defined.

(** * Further properties *)

(** ** Composition of frames *)

Section Preserves.
Context (R : state → state → Prop).
Hypothesis R_refl : ∀ s, R s s.
Hypothesis R_trans : ∀ s1 s2 s3, R s1 s2 → R s2 s3 → R s1 s3.

Lemma preserves_ret {A} (a : A) : preserves R (ret a).
Proof. intros s r s' [= <- <-]. apply R_refl. Qed.

Lemma preserves_throw {A} e : preserves R (throw (A := A) e).
Proof. intros s r s' [= <- <-]. apply R_refl. Qed.

Lemma preserves_bind {A B} (m : M A) (k : A → M B) :
  preserves R m → (∀ a, preserves R (k a)) → preserves R (bind m k).
Proof.
  intros Hm Hk s r s'. unfold bind.
  destruct (m s) as [[a|e] s1] eqn:Hms.
  - intros Hks. eapply R_trans; [by eapply Hm|by eapply Hk].
  - intros [= <- <-]. by eapply Hm.
Qed.

Lemma preserves_try_catch {A} (m : M A) (h : error → M A) :
  preserves R m → (∀ e, preserves R (h e)) → preserves R (try_catch m h).
Proof.
  intros Hm Hh s r s'. unfold try_catch.
  destruct (m s) as [[a|e] s1] eqn:Hms.
  - intros [= <- <-]. by eapply Hm.
  - intros Hhs. eapply R_trans; [by eapply Hm|by eapply Hh].
Qed.

Lemma preserves_forEach {A} (f : A → M unit) l :
  (∀ x, preserves R (f x)) → preserves R (forEach f l).
Proof.
  intros Hf. induction l as [|x l IH]; [apply preserves_ret|].
  cbn [forEach]. apply preserves_bind; [apply Hf|done].
Qed.

End Preserves.

Section SyncFrame.

Lemma sync_frame_refl export s : sync_frame export s s.
Proof.
  unfold sync_frame. repeat split; try done; exists []; by rewrite ?app_nil_r.
Qed.

Lemma sync_frame_trans export s1 s2 s3 :
  sync_frame export s1 s2 → sync_frame export s2 s3 → sync_frame export s1 s3.
Proof.
  intros (Hc & Hr & Hm & Hrun & [ts Ht] & [cs Hcs] & [evs [Hev Hall]])
         (Hc' & Hr' & Hm' & Hrun' & [ts' Ht'] & [cs' Hcs'] & [evs' [Hev' Hall']]).
  unfold sync_frame. repeat split; try congruence.
  - exists (ts ++ ts'). by rewrite Ht', Ht, app_assoc.
  - exists (cs ++ cs'). by rewrite Hcs', Hcs, app_assoc.
  - exists (evs ++ evs'). split; [by rewrite Hev', Hev, app_assoc|].
    by apply Forall_app.
Qed.

Lemma sync_frame_fs export s evs r :
  Forall (λ e, is_exec e = false) evs →
  sync_frame export s (emit_list evs (with_root export r s)).
Proof.
  intros Hevs. unfold sync_frame.
  destruct (sched_with_root export r s) as (Hm & Ht & Hr & _ & _ & Hc & Hcwd).
  cbn [emit_list cwd maintenance running tasks calls trace].
  rewrite trace_with_root.
  split; [done|]. split; [by destruct export|].
  split; [done|]. split; [done|].
  split; [exists []; by rewrite app_nil_r, Ht|].
  split; [exists []; by rewrite app_nil_r, Hc|]. eauto.
Qed.

Lemma sync_frame_done export j err s : sync_frame export s (done j err s).
Proof.
  destruct (done_fs j err s) as (Hc & H1 & H2 & Htr).
  destruct (done_queue j err s) as (Hm & Ht & Hr & _).
  unfold sync_frame. split; [done|]. split; [unfold root; by destruct export|].
  split; [done|]. split; [done|].
  split; [exists []; by rewrite app_nil_r|].
  split; [|exists []; by rewrite app_nil_r].
  unfold done, invoke. destruct (joins s !! j) as [jn|]; [|exists []; by rewrite app_nil_r].
  destruct err; [destruct (callback jn); simpl; eauto; exists []; by rewrite app_nil_r|].
  case_match; [|exists []; by rewrite app_nil_r].
  destruct (callback jn); simpl; eauto. exists []; by rewrite app_nil_r.
Qed.

Lemma sync_frame_invoke export cb err s : sync_frame export s (invoke cb err s).
Proof.
  destruct cb as [f|]; [|apply sync_frame_refl].
  unfold sync_frame, invoke.
  cbn [with_joins cwd maintenance running tasks calls trace].
  split; [done|]. split; [by destruct export|]. split; [done|]. split; [done|].
  split; [exists []; by rewrite app_nil_r|]. split; [eauto|].
  exists []. by rewrite app_nil_r.
Qed.

Lemma sync_frame_new_join export n cb s : sync_frame export s (new_join n cb s).
Proof.
  unfold sync_frame, new_join.
  cbn [with_joins cwd maintenance running tasks calls trace].
  split; [done|]. split; [by destruct export|]. split; [done|]. split; [done|].
  repeat split; exists []; by rewrite app_nil_r.
Qed.

Lemma sync_frame_push export dir j : preserves (sync_frame export) (push dir j).
Proof.
  intros s r s' [= <- <-]. unfold sync_frame.
  cbn [emit with_queue cwd maintenance running tasks calls trace].
  split; [done|]. split; [by destruct export|]. split; [done|]. split; [done|].
  split; [eauto|]. split; [exists []; by rewrite app_nil_r|].
  eexists. split; [done|]. by repeat constructor.
Qed.

(** The file operations: the state is left as it was, or changed by one
    event and a new content of the cache root. *)
Ltac fs_frame :=
  let H := fresh in
  intros ? ? ? H;
  repeat (case_match; simplify_eq);
  first [ apply sync_frame_refl
        | rewrite emit_emit_list; apply sync_frame_fs; by repeat constructor ].

Lemma sync_frame_mkdirsSync export : preserves (sync_frame export) (mkdirsSync export).
Proof. unfold mkdirsSync. fs_frame. Qed.

Lemma sync_frame_readdirSync export : preserves (sync_frame export) (readdirSync export).
Proof. unfold readdirSync. fs_frame. Qed.

Lemma sync_frame_rmdir export name :
  preserves (sync_frame export) (rmdirSyncRecursive export name).
Proof. unfold rmdirSyncRecursive. fs_frame. Qed.

Lemma sync_frame_mkdirSync export name :
  preserves (sync_frame export) (mkdirSync export name).
Proof. unfold mkdirSync. fs_frame. Qed.

Lemma sync_frame_readFileSync export segs :
  preserves (sync_frame export) (readFileSync export segs).
Proof. unfold readFileSync. fs_frame. Qed.

Lemma sync_frame_unlinkSync export segs :
  preserves (sync_frame export) (unlinkSync export segs).
Proof. unfold unlinkSync. fs_frame. Qed.

Lemma sync_frame_writeFileSync k export segs c :
  preserves (sync_frame export) (writeFileSync k export segs c).
Proof. unfold writeFileSync. fs_frame. Qed.

End SyncFrame.

Section SyncFrameRun.
Context (export : bool).

Local Abbreviation keeps m := (preserves (sync_frame export) m).

Lemma sf_bind {A B} (m : M A) (k : A → M B) :
  keeps m → (∀ a, keeps (k a)) → keeps (bind m k).
Proof. apply preserves_bind, sync_frame_trans. Qed.

Lemma sf_try {A} (m : M A) (h : error → M A) :
  keeps m → (∀ e, keeps (h e)) → keeps (try_catch m h).
Proof. apply preserves_try_catch, sync_frame_trans. Qed.

Lemma sf_ret {A} (a : A) : keeps (ret a).
Proof. apply preserves_ret, sync_frame_refl. Qed.

Lemma sf_throw {A} e : keeps (throw (A := A) e).
Proof. apply preserves_throw, sync_frame_refl. Qed.

Lemma sf_forEach {A} (f : A → M unit) l : (∀ x, keeps (f x)) → keeps (forEach f l).
Proof.
  apply preserves_forEach; [apply sync_frame_refl|apply sync_frame_trans].
Qed.

Lemma sync_frame_load machineDir : keeps (loadPackageJson export machineDir).
Proof.
  unfold loadPackageJson. apply sf_try.
  - apply sf_bind; [apply sync_frame_readFileSync|].
    intros [| | |]; simpl; first [apply sf_ret|apply sf_throw].
  - intros e. case_decide; [apply sf_ret|apply sf_throw].
Qed.

Lemma sync_frame_each_machines machineDir packageJson machines :
  ∀ n, keeps (each_machines export machineDir packageJson n machines).
Proof.
  induction machines as [|entry rest IH]; intros n; [apply sf_ret|].
  cbn [each_machines]. apply sf_bind; [|done].
  unfold each_machine. apply sf_bind; [|intros; apply sf_ret].
  case_match; [apply sync_frame_writeFileSync|apply sf_ret].
Qed.

Lemma sync_frame_each_pack data machineDir j :
  keeps (each_pack export data machineDir j).
Proof.
  unfold each_pack.
  apply sf_bind; [apply sf_try; [apply sync_frame_mkdirSync|intros; apply sf_ret]|].
  intros _. apply sf_bind; [apply sync_frame_load|]. intros packageJson.
  destruct (Js.get data machineDir) as [spec|]; [|apply sf_throw].
  apply sf_bind; [apply sf_forEach; intros; apply sync_frame_unlinkSync|].
  intros _. apply sf_bind; [apply sync_frame_each_machines|]. intros n.
  case_decide.
  - intros s r s' [= <- <-]. apply sync_frame_done.
  - apply sf_bind; [apply sync_frame_writeFileSync|]. intros _.
    apply sf_bind; [apply sync_frame_writeFileSync|]. intros _.
    intros s r s' Hpush. by eapply sync_frame_push.
Qed.

Lemma sync_frame_async_each arr (iterator : string → nat → M unit) cb :
  (∀ x j, keeps (iterator x j)) → keeps (async_each arr iterator cb).
Proof.
  intros Hit s r s'. unfold async_each. destruct arr as [|x l].
  - intros [= <- <-]. eapply sync_frame_trans;
      [apply sync_frame_new_join|apply sync_frame_invoke].
  - intros Hrun. eapply sync_frame_trans; [apply sync_frame_new_join|].
    eapply sf_forEach; [|done]. intros y. apply Hit.
Qed.

End SyncFrameRun.

Lemma sync_frame_writePacks options data cb :
  preserves (sync_frame (Options.export options)) (writePacks options data cb).
Proof.
  unfold writePacks. apply sync_frame_async_each. intros.
  apply sync_frame_each_pack.
Qed.

(** [cleanPacks] with its arguments in their places. *)
Lemma cleanPacks_given options D f :
  cleanPacks (Given options) (Given D) (Some f) =
  (try_catch (mkdirsSync (Options.export options)) (λ _, ret ()) ;;
   let* curMachinePacks := readdirSync (Options.export options) in
   forEach (rmdirSyncRecursive (Options.export options))
           (Js.difference curMachinePacks (Js.keys D)) ;;
   f None).
Proof. reflexivity. Qed.

Lemma sync_frame_cleanPacks options D f :
  (∀ err, preserves (sync_frame (Options.export options)) (f err)) →
  preserves (sync_frame (Options.export options))
            (cleanPacks (Given options) (Given D) (Some f)).
Proof.
  intros Hf. rewrite cleanPacks_given.
  apply sf_bind; [apply sf_try; [apply sync_frame_mkdirsSync|intros; apply sf_ret]|].
  intros _. apply sf_bind; [apply sync_frame_readdirSync|]. intros names.
  apply sf_bind; [apply sf_forEach; intros; apply sync_frame_rmdir|].
  intros _. apply Hf.
Qed.

Lemma sync_frame_reload options D cb :
  preserves (sync_frame (Options.export options)) (reloadAllMachinePacks options D cb).
Proof.
  unfold reloadAllMachinePacks. apply sync_frame_cleanPacks.
  intros [e|]; [|apply sync_frame_writePacks].
  intros s r s' [= <- <-]. apply sync_frame_invoke.
Qed.

(** X1: when the pack names of the document are single path segments
    and the base names of its units, and those recorded in the manifests
    on disk, have no ['/'], a reconciliation, whatever its outcome
    (completed or thrown), works under the cache root that
    [options.export] selects only: the other cache root and the working
    directory are left alone, the maintenance flag and the command in
    flight are not touched, no command is started, and the queue and the
    list of invoked callbacks only grow. *)
Theorem X1_reconciliation_stays_in_its_frame
    (options : Options.t) (D : document) (cb : option nat)
    (s s' : state) (r : result unit) :
  plain_names D = true →
  plain_manifests (root (Options.export options) s) = true →
  reloadAllMachinePacks options D cb s = (r, s') →
  sync_frame (Options.export options) s s'.
Proof. intros _ _. apply sync_frame_reload. Qed.

Lemma X1_reconciliation_stays_in_its_frame_witness :
  sync_frame false Stale.disk_with_root_file
    (reloadAllMachinePacks (Options.Make false) Stale.D (Some 7)
       Stale.disk_with_root_file).2.
Proof.
  apply (X1_reconciliation_stays_in_its_frame (Options.Make false) Stale.D (Some 7)
           Stale.disk_with_root_file _ (Ok ())).
  - reflexivity.
  - vm_compute. reflexivity.
  - vm_compute. reflexivity.
Defined.

Section KeepsFiles.
Context (export : bool).

Lemma keeps_files_refl s : keeps_files export s s.
Proof. intros q d Hq. eauto. Qed.

Lemma keeps_files_trans s1 s2 s3 :
  keeps_files export s1 s2 → keeps_files export s2 s3 → keeps_files export s1 s3.
Proof.
  intros H12 H23 q d Hq. destruct (H12 q d Hq) as (d2 & Hq2 & Hd2).
  destruct (H23 q d2 Hq2) as (d3 & Hq3 & Hd3). eauto.
Qed.

Lemma keeps_files_same_root s s' :
  root export s' = root export s → keeps_files export s s'.
Proof. intros Hr q d Hq. rewrite Hr. eauto. Qed.

Lemma keeps_files_update s t t' evs :
  root export s = Some t →
  (∀ q d, t !! q = Some (Dir d) →
     ∃ d', t' !! q = Some (Dir d') ∧ ∀ name, is_Some (d !! name) → is_Some (d' !! name)) →
  keeps_files export s (emit_list evs (with_root export (Some t') s)).
Proof.
  intros Hroot Ht q d. rewrite Hroot, root_emit_list, root_with_root.
  unfold pack_files. destruct (t !! q) as [[c|dq]|] eqn:Hq; try done.
  intros [= ->]. destruct (Ht q d Hq) as (d' & -> & Hd). eauto.
Qed.

Local Abbreviation keeps m := (preserves (keeps_files export) m).

Lemma kf_bind {A B} (m : M A) (k : A → M B) :
  keeps m → (∀ a, keeps (k a)) → keeps (bind m k).
Proof. apply preserves_bind, keeps_files_trans. Qed.

Lemma kf_try {A} (m : M A) (h : error → M A) :
  keeps m → (∀ e, keeps (h e)) → keeps (try_catch m h).
Proof. apply preserves_try_catch, keeps_files_trans. Qed.

Lemma kf_ret {A} (a : A) : keeps (ret a).
Proof. apply preserves_ret, keeps_files_refl. Qed.

Lemma kf_throw {A} e : keeps (throw (A := A) e).
Proof. apply preserves_throw, keeps_files_refl. Qed.

Lemma kf_forEach {A} (f : A → M unit) l : (∀ x, keeps (f x)) → keeps (forEach f l).
Proof.
  apply preserves_forEach; [apply keeps_files_refl|apply keeps_files_trans].
Qed.

Lemma keeps_files_mkdirSync name : keeps (mkdirSync export name).
Proof.
  intros s r s'. unfold mkdirSync.
  destruct (root export s) as [t|] eqn:Hroot; [|intros [= <- <-]; apply keeps_files_refl].
  destruct (t !! name) eqn:Hn; intros [= <- <-]; [apply keeps_files_refl|].
  rewrite emit_emit_list. eapply keeps_files_update; [done|].
  intros q d Hq. exists d. split; [|done].
  rewrite lookup_insert_ne; [done|congruence].
Qed.

Lemma keeps_files_readFileSync segs : keeps (readFileSync export segs).
Proof.
  intros s r s' H. unfold readFileSync in H.
  repeat (case_match; simplify_eq); apply keeps_files_refl.
Qed.

(** Unlinking an entry of the cache root itself can only take a plain
    file away. *)
Lemma keeps_files_unlinkSync_top name : keeps (unlinkSync export [name]).
Proof.
  intros s r s'. unfold unlinkSync.
  destruct (root export s) as [t|] eqn:Hroot; [|intros [= <- <-]; apply keeps_files_refl].
  destruct (t !! name) as [[c|d]|] eqn:Hn; intros [= <- <-];
    try apply keeps_files_refl.
  rewrite emit_emit_list. eapply keeps_files_update; [done|].
  intros q d Hq. exists d. split; [|done].
  rewrite lookup_delete_ne; [done|congruence].
Qed.

Lemma keeps_files_writeFileSync k pack file c :
  keeps (writeFileSync k export [pack; file] c).
Proof.
  intros s r s'. unfold writeFileSync.
  destruct (root export s) as [t|] eqn:Hroot; [|intros [= <- <-]; apply keeps_files_refl].
  destruct (t !! pack) as [[c'|d]|] eqn:Hn; intros [= <- <-];
    try apply keeps_files_refl.
  rewrite emit_emit_list. eapply keeps_files_update; [done|].
  intros q dq Hq. destruct (decide (q = pack)) as [->|Hne].
  - rewrite lookup_insert_eq. eexists. split; [done|].
    assert (dq = d) as -> by congruence. intros name Hname.
    destruct (decide (name = file)) as [->|?].
    + rewrite lookup_insert_eq. eauto.
    + by rewrite lookup_insert_ne.
  - rewrite lookup_insert_ne by done. eauto.
Qed.

Lemma keeps_files_load machineDir : keeps (loadPackageJson export machineDir).
Proof.
  unfold loadPackageJson. apply kf_try.
  - apply kf_bind; [apply keeps_files_readFileSync|].
    intros [| | |]; simpl; first [apply kf_ret|apply kf_throw].
  - intros e. case_decide; [apply kf_ret|apply kf_throw].
Qed.

Lemma keeps_files_each_machines machineDir packageJson machines :
  ∀ n, keeps (each_machines export machineDir packageJson n machines).
Proof.
  induction machines as [|entry rest IH]; intros n; [apply kf_ret|].
  cbn [each_machines]. apply kf_bind; [|done].
  unfold each_machine. apply kf_bind; [|intros; apply kf_ret].
  case_match; [apply keeps_files_writeFileSync|apply kf_ret].
Qed.

Lemma keeps_files_each_pack data machineDir j :
  keeps (each_pack export data machineDir j).
Proof.
  unfold each_pack.
  apply kf_bind; [apply kf_try; [apply keeps_files_mkdirSync|intros; apply kf_ret]|].
  intros _. apply kf_bind; [apply keeps_files_load|]. intros packageJson.
  destruct (Js.get data machineDir) as [spec|]; [|apply kf_throw].
  apply kf_bind; [apply kf_forEach; intros; apply keeps_files_unlinkSync_top|].
  intros _. apply kf_bind; [apply keeps_files_each_machines|]. intros n.
  case_decide.
  - intros s r s' [= <- <-]. apply keeps_files_same_root, root_done.
  - apply kf_bind; [apply keeps_files_writeFileSync|]. intros _.
    apply kf_bind; [apply keeps_files_writeFileSync|]. intros _.
    intros s r s' [= <- <-]. apply keeps_files_same_root.
    by rewrite root_emit, root_with_queue.
Qed.

End KeepsFiles.

(** X2: when the pack names of the document are single path segments
    and the base names of its units, and those recorded in the manifests
    on disk, have no ['/'], [writePacks], whatever its outcome, never
    removes a pack directory and never removes a file from one: every
    file found in a pack directory before is still in that directory
    afterwards (the loop over stale units only ever unlinks entries of
    the cache root itself). *)
Theorem X2_writePacks_never_removes_a_pack_file
    (options : Options.t) (D : document) (cb : option nat)
    (s s' : state) (r : result unit) :
  plain_names D = true →
  plain_manifests (root (Options.export options) s) = true →
  writePacks options D cb s = (r, s') →
  keeps_files (Options.export options) s s'.
Proof.
  unfold writePacks, async_each. intros _ _ Hrun.
  eapply keeps_files_trans with (s2 := new_join (length (Js.keys D)) cb s).
  { apply keeps_files_same_root. by destruct (Options.export options). }
  destruct (Js.keys D) as [|x l].
  - injection Hrun as <- <-. apply keeps_files_same_root.
    destruct cb; by destruct (Options.export options).
  - eapply kf_forEach; [|done]. intros y. apply keeps_files_each_pack.
Qed.

Lemma X2_writePacks_never_removes_a_pack_file_witness :
  keeps_files false Stale.disk_with_root_file
    (writePacks (Options.Make false) Stale.D (Some 7) Stale.disk_with_root_file).2.
Proof.
  apply (X2_writePacks_never_removes_a_pack_file (Options.Make false) Stale.D (Some 7)
           Stale.disk_with_root_file _ (Ok ())).
  - reflexivity.
  - vm_compute. reflexivity.
  - vm_compute. reflexivity.
Defined.

(** ** The pruner, state by state *)

Section PrunerRun.
Context (export : bool).

Lemma forEach_rmdir_run l : ∀ s t,
  root export s = Some t →
  ∃ evs t', forEach (rmdirSyncRecursive export) l s =
              (Ok (), emit_list evs (with_root export (Some t') s)) ∧
    Forall (λ e, is_rmdir e = true) evs ∧
    (∀ n, t' !! n = match t !! n with
                    | Some (Dir d) => if decide (n ∈ l) then None else Some (Dir d)
                    | x => x
                    end).
Proof.
  induction l as [|x l IH]; intros s t Hroot.
  - exists [], t. rewrite emit_list_nil, <- Hroot, with_root_id. split; [done|].
    split; [done|]. intros n.
    destruct (t !! n) as [[|]|]; first [done | by rewrite decide_False by set_solver].
  - cbn [forEach]. unfold bind at 1. unfold rmdirSyncRecursive at 1. rewrite Hroot.
    destruct (t !! x) as [[c|d]|] eqn:Hx.
    + destruct (IH s t Hroot) as (evs & t' & Hrun & Hevs & Hl).
      exists evs, t'. split; [done|]. split; [done|]. intros n. rewrite Hl.
      destruct (t !! n) as [[|]|] eqn:Hn; try done.
      assert (n ≠ x) by congruence.
      destruct (decide (n ∈ l)), (decide (n ∈ x :: l)); set_solver.
    + edestruct (IH (emit (Rmdir (full_path export [x] s))
                       (with_root export (Some (delete x t)) s)) (delete x t))
        as (evs & t' & Hrun & Hevs & Hl).
      { by rewrite root_emit, root_with_root. }
      exists (Rmdir (full_path export [x] s) :: evs), t'. rewrite Hrun.
      split.
      { f_equal. rewrite with_root_emit, with_root_with_root, emit_emit_list.
        by rewrite emit_list_emit_list. }
      split; [by constructor|]. intros n. rewrite Hl.
      destruct (decide (n = x)) as [->|Hne].
      * rewrite lookup_delete_eq, Hx. by rewrite decide_True by set_solver.
      * rewrite lookup_delete_ne by done.
        destruct (t !! n) as [[|]|] eqn:Hn; try done.
        destruct (decide (n ∈ l)), (decide (n ∈ x :: l)); set_solver.
    + destruct (IH s t Hroot) as (evs & t' & Hrun & Hevs & Hl).
      exists evs, t'. split; [done|]. split; [done|]. intros n. rewrite Hl.
      destruct (t !! n) as [[|]|] eqn:Hn; try done.
      assert (n ≠ x) by congruence.
      destruct (decide (n ∈ l)), (decide (n ∈ x :: l)); set_solver.
Qed.

(** What [cleanPacks] has done when it turns to its callback. *)
Lemma cleanPacks_run (D : document) (cb : option (option error → M unit)) s :
  ∃ evs t',
    cleanPacks (Given (Options.Make export)) (Given D) cb s =
      match cb with Some f => f None | None => throw TypeError end
        (emit_list evs (with_root export (Some t') s)) ∧
    Forall (λ e, is_mkdir e = true ∨ is_rmdir e = true) evs ∧
    (∀ n, t' !! n = pruned (Js.keys D) (default ∅ (root export s)) n).
Proof.
  unfold cleanPacks. cbn [Object_keys options_export Options.export].
  unfold bind at 1. unfold ret at 1. unfold bind at 1. unfold ret at 1.
  unfold bind at 1. unfold try_catch, mkdirsSync.
  destruct (root export s) as [t|] eqn:Hroot.
  - unfold bind at 1. unfold readdirSync. rewrite Hroot. unfold bind at 1.
    destruct (forEach_rmdir_run (Js.difference (map_to_list t).*1 (Js.keys D)) s t Hroot)
      as (evs & t' & -> & Hevs & Hl).
    exists evs, t'. split; [done|]. split.
    { eapply Forall_impl; [done|]. naive_solver. }
    intros n. rewrite Hl. unfold pruned. change (default ∅ (Some t)) with t.
    destruct (t !! n) as [[c|d]|] eqn:Hn; try done.
    unfold Js.difference.
    destruct (decide (n ∈ Js.keys D)) as [Hin|Hin].
    + rewrite decide_False; [done|]. rewrite list_elem_of_filter. tauto.
    + rewrite decide_True; [done|]. rewrite list_elem_of_filter, elem_of_readdir, Hn.
      eauto.
  - unfold bind at 1. unfold readdirSync. rewrite root_emit, root_with_root.
    rewrite map_to_list_empty. cbn [fmap list_fmap Js.difference filter list_filter forEach].
    unfold bind at 1. unfold ret at 1.
    exists [Mkdir (machinesDir export s)], ∅. rewrite emit_emit_list.
    split; [done|]. split; [constructor; [by left|done]|].
    intros n. unfold pruned. change (default ∅ None) with (∅ : gmap string node).
    by rewrite lookup_empty.
Qed.

End PrunerRun.

(** X3: when [cleanPacks] hands over to its callback the cache root
    exists and holds exactly this: every plain file it held, and every
    directory it held whose name is a key of [D], each with its contents
    as they were; the directories whose name is not a key are gone (a
    missing cache root is created empty). *)
Theorem X3_cleanPacks_leaves_what_it_keeps_untouched
    (options : Options.t) (D : document) (f : option error → M unit) (s : state) :
  ∃ s' t', cleanPacks (Given options) (Given D) (Some f) s = f None s' ∧
    root (Options.export options) s' = Some t' ∧
    ∀ n, t' !! n =
         pruned (Js.keys D) (default ∅ (root (Options.export options) s)) n.
Proof.
  destruct options as [export].
  destruct (cleanPacks_run export D (Some f) s) as (evs & t' & Hrun & _ & Hl).
  eexists _, t'. split; [exact Hrun|].
  by rewrite root_emit_list, root_with_root.
Qed.

(** X4: pruning is idempotent: run again on the state it has left, with
    the same document, [cleanPacks] changes nothing and goes straight to
    its callback. *)
Theorem X4_cleanPacks_is_idempotent
    (options : Options.t) (D : document) (f g : option error → M unit) (s : state) :
  ∃ s', cleanPacks (Given options) (Given D) (Some f) s = f None s' ∧
        cleanPacks (Given options) (Given D) (Some g) s' = g None s'.
Proof.
  destruct (prune_dirs (Options.export options) (Js.keys D) s)
    as (s1 & names & s' & Hmk & Hrd & Hrm & [t Hroot] & Hdirs).
  exists s'. split.
  - unfold cleanPacks. cbn [Object_keys options_export].
    unfold bind at 1. unfold ret at 1. unfold bind at 1. unfold ret at 1.
    unfold bind at 1. rewrite Hmk. unfold bind at 1. rewrite Hrd.
    unfold bind at 1. by rewrite Hrm.
  - apply (cleanPacks_settled _ _ []). exists t. split; [done|].
    split; [|by intros ?? ?%elem_of_nil].
    intros n d Hn.
    assert (n ∈ pack_dirs (root (Options.export options) s')) as Hin.
    { rewrite Hroot. apply elem_of_pack_dirs. eauto. }
    rewrite Hdirs in Hin. set_solver.
Qed.

(** X5: the ways [cleanPacks] fails.  Without a callback the pruning is
    done first and the call [cb()] then throws a TypeError; with no
    document ([Object.keys(undefined)]) or no options
    ([options.export] of undefined) the TypeError comes before anything
    is touched. *)
Theorem X5_cleanPacks_type_errors
    (options : Options.t) (D : document)
    (cb : option (option error → M unit)) (s : state) :
  (∃ s', cleanPacks (Given options) (Given D) None s = (Throw TypeError, s') ∧
         pack_dirs (root (Options.export options) s') =
           pack_dirs (root (Options.export options) s) ∩ list_to_set (Js.keys D)) ∧
  cleanPacks (Given options) Undefined cb s = (Throw TypeError, s) ∧
  cleanPacks Undefined (Given D) cb s = (Throw TypeError, s) ∧
  cleanPacks Undefined Undefined cb s = (Throw TypeError, s).
Proof.
  split; [|done].
  destruct (prune_dirs (Options.export options) (Js.keys D) s)
    as (s1 & names & s' & Hmk & Hrd & Hrm & _ & Hdirs).
  exists s'. split; [|done].
  unfold cleanPacks. cbn [Object_keys options_export].
  unfold bind at 1. unfold ret at 1. unfold bind at 1. unfold ret at 1.
  unfold bind at 1. rewrite Hmk. unfold bind at 1. rewrite Hrd.
  unfold bind at 1. by rewrite Hrm.
Qed.

(** X6: with an empty document a reconciliation removes every pack
    directory of the cache root, queues no install and invokes the
    completion callback at once, with no error. *)
Theorem X6_empty_document_clears_the_cache
    (options : Options.t) (cb : option nat) (s : state) :
  ∃ s', reloadAllMachinePacks options [] cb s = (Ok (), s') ∧
    pack_dirs (root (Options.export options) s') = ∅ ∧
    calls s' = calls s ++ invoked cb None ∧
    tasks s' = tasks s ∧ immediates s' = immediates s.
Proof.
  destruct options as [export]. unfold reloadAllMachinePacks.
  destruct (cleanPacks_run export []
              (Some (λ err, match err with
                            | Some e => λ s, (Ok (), invoke cb (Some e) s)
                            | None => writePacks (Options.Make export) [] cb
                            end)) s) as (evs & t' & -> & _ & Hl).
  unfold writePacks, async_each. cbn [Js.keys fmap list_fmap length Options.export].
  eexists. split; [done|]. split; [|split; [|split]].
  - assert (root export (invoke cb None (new_join 0 cb
              (emit_list evs (with_root export (Some t') s)))) = Some t') as ->.
    { destruct cb; cbn [invoke]; by destruct export. }
    apply set_eq. intros n. rewrite elem_of_pack_dirs, Hl. unfold pruned.
    split; [|set_solver]. intros [d Hd].
    by destruct (default ∅ (root export s) !! n) as [[c|d']|].
  - destruct cb; unfold invoke, invoked; destruct export; cbn; by rewrite ?app_nil_r.
  - destruct cb; cbn [invoke]; by destruct export.
  - destruct cb; cbn [invoke]; by destruct export.
Qed.

(** ** The install queue: order and progress *)

Section QueueOrder.

Lemma execs_app evs evs' : execs (evs ++ evs') = execs evs ++ execs evs'.
Proof. apply omap_app. Qed.

Lemma process_order s :
  execs (trace (process s)) ++ map task_cwd (tasks (process s)) =
    execs (trace s) ++ map task_cwd (tasks s) ∧
  length (execs (trace (process s))) + in_flight s =
    length (execs (trace s)) + in_flight (process s).
Proof.
  unfold process, in_flight. destruct (running s) as [r|] eqn:Hr.
  { cbn. by rewrite Hr. }
  destruct (tasks s) as [|t ts] eqn:Ht.
  { cbn. by rewrite Hr, Ht. }
  unfold worker, emit, with_queue. cbn [trace tasks running].
  rewrite execs_app, length_app, <- app_assoc. cbn. split; [done|lia].
Qed.

Lemma exited_cons a acts :
  exited (a :: acts) = exited [a] + exited acts.
Proof.
  unfold exited, exits. by destruct a as [d j|[|err]].
Qed.

Lemma enqueued_cons a acts :
  enqueued (a :: acts) = enqueued [a] ++ enqueued acts.
Proof. by destruct a. Qed.

Lemma order_step a s s' :
  run_action a s = Some s' →
  execs (trace s') ++ map task_cwd (tasks s') =
    execs (trace s) ++ map task_cwd (tasks s) ++ enqueued [a] ∧
  length (execs (trace s')) + in_flight s =
    length (execs (trace s)) + exited [a] + in_flight s'.
Proof.
  destruct a as [dir j|[|err]]; cbn [run_action run_step]; intros Hrun.
  - injection Hrun as <-. unfold push, in_flight, emit, with_queue.
    cbn [snd trace tasks running]. rewrite execs_app, map_app.
    change (exited [Enqueue dir j]) with 0. cbn.
    rewrite app_nil_r. split; [done|lia].
  - unfold tick in Hrun. destruct (immediates s) as [|n]; [done|].
    injection Hrun as <-.
    destruct (process_order (with_queue (maintenance s) (tasks s) (running s) n s))
      as [H1 H2].
    rewrite H1, app_nil_r. split; [done|]. change (exited [Env Tick]) with 0.
    etrans; [exact H2|]. unfold with_queue. cbn [trace]. lia.
  - unfold exec_exit in Hrun. destruct (running s) as [t|] eqn:Hr; [|done].
    injection Hrun as <-.
    set (s1 := with_queue _ _ _ _ s).
    destruct (done_queue (task_join t) err s1) as (Dm & Dt & Dr & Di).
    destruct (done_fs (task_join t) err s1) as (_ & _ & _ & Dtr).
    set (s2 := done _ _ s1) in *.
    set (s3 := match tasks s2 with [] => drain s2 | _ => s2 end).
    assert (trace s3 = trace s ∧ tasks s3 = tasks s ∧ running s3 = None)
      as (E1 & E2 & E3).
    { assert (trace s2 = trace s) by (by rewrite Dtr).
      assert (tasks s2 = tasks s) by (by rewrite Dt).
      assert (running s2 = None) by (by rewrite Dr).
      unfold s3. destruct (tasks s2) eqn:Ht; unfold drain;
        cbn [trace tasks running with_queue]; repeat split; congruence. }
    destruct (process_order s3) as [H1 H2].
    rewrite H1, E1, E2, app_nil_r. split; [done|].
    unfold in_flight in *. rewrite E3, E1 in H2. rewrite Hr.
    change (exited [Env (ExecExit err)]) with 1. lia.
Qed.

Lemma order_run acts : ∀ s s',
  run_actions acts s = Some s' →
  execs (trace s') ++ map task_cwd (tasks s') =
    execs (trace s) ++ map task_cwd (tasks s) ++ enqueued acts ∧
  length (execs (trace s')) + in_flight s =
    length (execs (trace s)) + exited acts + in_flight s'.
Proof.
  induction acts as [|a acts IH]; intros s s' Hrun; cbn [run_actions] in Hrun.
  - injection Hrun as <-. rewrite !app_nil_r. split; [done|].
    change (exited []) with 0. lia.
  - destruct (run_action a s) as [s1|] eqn:Ha; [|done].
    destruct (order_step _ _ _ Ha) as [H1 H2].
    destruct (IH _ _ Hrun) as [H3 H4].
    rewrite enqueued_cons, exited_cons. split; [|lia].
    rewrite H3, app_assoc, H1. by rewrite <- !app_assoc.
Qed.

Lemma run_actions_app acts acts' s :
  run_actions (acts ++ acts') s = run_actions acts s ≫= run_actions acts'.
Proof.
  revert s. induction acts as [|a acts IH]; intros s; [done|].
  cbn [app run_actions]. destruct (run_action a s); [apply IH|done].
Qed.

Lemma run_enqueues ts : ∀ s,
  run_actions (map enqueue ts) s =
    Some (emit_list (map (λ t, Push (task_cwd t)) ts)
            (with_queue (maintenance s) (tasks s ++ ts) (running s)
                        (length ts + immediates s) s)).
Proof.
  induction ts as [|t ts IH]; intros s.
  - cbn. f_equal. destruct s. unfold emit_list, with_queue. cbn.
    by rewrite !app_nil_r.
  - cbn [map run_actions enqueue run_action]. rewrite IH. f_equal.
    destruct s, t. unfold push, emit_list, emit, with_queue. cbn.
    rewrite <- !app_assoc. cbn. f_equal. lia.
Qed.

(** Once a command is in flight, as many exits as there are commands
    left (the one in flight and the pending ones) run them all, in
    order, whatever their exit statuses. *)
Lemma run_exits ts : ∀ t errs s,
  running s = Some t → tasks s = ts → length errs = S (length ts) →
  ∃ s', run_actions (map (λ e, Env (ExecExit e)) errs) s = Some s' ∧
    trace s' = trace s ++ map (λ t, Exec (task_cwd t)) ts ∧
    tasks s' = [] ∧ running s' = None ∧ maintenance s' = false.
Proof.
  induction ts as [|t' ts IH]; intros t errs s Hr Ht Hlen;
    (destruct errs as [|err errs]; [done|]);
    cbn [map run_actions run_action run_step]; unfold exec_exit; rewrite Hr.
  - destruct errs; [|done].
    set (s1 := with_queue _ _ _ _ s).
    destruct (done_queue (task_join t) err s1) as (Dm & Dt & Dr & Di).
    destruct (done_fs (task_join t) err s1) as (_ & _ & _ & Dtr).
    set (s2 := done _ _ s1) in *.
    assert (tasks s2 = tasks s ∧ running s2 = None ∧ trace s2 = trace s)
      as (Et & Er & Etr) by (by rewrite Dt, Dr, Dtr).
    rewrite Et, Ht. unfold process, drain. cbn [running tasks with_queue].
    rewrite Er, Et, Ht. cbn [map run_actions]. eexists. split; [done|].
    unfold with_queue. cbn [trace tasks running maintenance]. by rewrite Etr, app_nil_r.
  - set (s1 := with_queue _ _ _ _ s).
    destruct (done_queue (task_join t) err s1) as (Dm & Dt & Dr & Di).
    destruct (done_fs (task_join t) err s1) as (_ & _ & _ & Dtr).
    set (s2 := done _ _ s1) in *.
    assert (tasks s2 = tasks s ∧ running s2 = None ∧ trace s2 = trace s)
      as (Et & Er & Etr) by (by rewrite Dt, Dr, Dtr).
    rewrite Et, Ht. unfold process. rewrite Er, Et, Ht.
    edestruct (IH t' errs) as (s' & Hrun & Htr & Hrest); [| |by injection Hlen|].
    3:{ exists s'. split; [exact Hrun|]. split; [|exact Hrest].
        rewrite Htr. unfold worker, emit, with_queue. cbn [trace].
        rewrite Etr, <- app_assoc. done. }
    + done.
    + done.
Qed.

End QueueOrder.

(** X7: whatever is enqueued and however the event loop and the command
    exits interleave, the directories of the commands started so far
    followed by those still pending are the directories pushed, in push
    order: installs start first in, first out, none is lost, none runs
    twice.  And the commands started are the ones that have exited plus
    the one in flight, if any: two installs never run at once. *)
Theorem X7_installs_start_in_push_order_one_at_a_time
    (acts : list action) (s s' : state) :
  run_actions acts s = Some s' →
  execs (trace s') ++ map task_cwd (tasks s') =
    execs (trace s) ++ map task_cwd (tasks s) ++ enqueued acts ∧
  length (execs (trace s')) + in_flight s =
    length (execs (trace s)) + exited acts + in_flight s'.
Proof. apply order_run. Qed.

Lemma X7_installs_start_in_push_order_one_at_a_time_witness :
  execs (trace Example.failed) ++ map task_cwd (tasks Example.failed) =
    execs (trace Example.queued) ++ map task_cwd (tasks Example.queued) ++
      enqueued [Env Tick; Env (ExecExit (Some (ExecError 1)))] ∧
  length (execs (trace Example.failed)) + in_flight Example.queued =
    length (execs (trace Example.queued)) +
      exited [Env Tick; Env (ExecExit (Some (ExecError 1)))] + in_flight Example.failed.
Proof.
  apply (X7_installs_start_in_push_order_one_at_a_time
           [Env Tick; Env (ExecExit (Some (ExecError 1)))] Example.queued Example.failed).
  vm_compute. reflexivity.
Defined.

(** X8: the queue makes progress and a failed install does not stop it.
    On an idle queue, after any number of tasks pushed back to back, one
    deferred processing step and one command exit per task, whatever the
    exit statuses: every command has been started, in push order, after
    all the pushes; nothing is pending or in flight; and the maintenance
    flag is false again. *)
Theorem X8_queue_runs_every_install_whatever_the_exit_statuses
    (s : state) (t : task) (ts : list task) (errs : list (option error)) :
  idle s → length errs = S (length ts) →
  ∃ s', run_actions (map enqueue (t :: ts) ++
                     Env Tick :: map (λ e, Env (ExecExit e)) errs) s = Some s' ∧
    trace s' = trace s ++ map (λ t, Push (task_cwd t)) (t :: ts) ++
                          map (λ t, Exec (task_cwd t)) (t :: ts) ∧
    tasks s' = [] ∧ running s' = None ∧ maintenance s' = false.
Proof.
  intros (Ht & Hr & Hi) Hlen.
  rewrite run_actions_app, run_enqueues. cbn [mbind option_bind].
  cbn [run_actions run_action run_step]. unfold tick.
  rewrite Ht, Hr, Hi. cbn [length app immediates emit_list with_queue Nat.add].
  set (s0 := process _).
  assert (running s0 = Some t ∧ tasks s0 = ts ∧
          trace s0 = trace s ++ map (λ t, Push (task_cwd t)) (t :: ts) ++
                       [Exec (task_cwd t)]) as (Er & Et & Etr).
  { unfold s0, process, worker, emit, emit_list, with_queue.
    cbn [running tasks trace maintenance immediates]. by rewrite <- app_assoc. }
  destruct (run_exits ts t errs s0 Er Et Hlen) as (s' & Hrun & Htr & Hrest).
  exists s'. split; [exact Hrun|]. split; [|exact Hrest].
  rewrite Htr, Etr. cbn [map]. by rewrite <- !app_assoc.
Qed.

Lemma X8_queue_runs_every_install_whatever_the_exit_statuses_witness :
  ∃ s', run_actions (map enqueue [Task "/app/p" 0; Task "/app/q" 0] ++
                     Env Tick :: map (λ e, Env (ExecExit e)) [Some (ExecError 1); None])
          (new_join 2 (Some 7) (boot "/app" None None)) = Some s' ∧
    trace s' = trace (new_join 2 (Some 7) (boot "/app" None None)) ++
                 map (λ t, Push (task_cwd t)) [Task "/app/p" 0; Task "/app/q" 0] ++
                 map (λ t, Exec (task_cwd t)) [Task "/app/p" 0; Task "/app/q" 0] ∧
    tasks s' = [] ∧ running s' = None ∧ maintenance s' = false.
Proof.
  apply (X8_queue_runs_every_install_whatever_the_exit_statuses
           (new_join 2 (Some 7) (boot "/app" None None))
           (Task "/app/p" 0) [Task "/app/q" 0] [Some (ExecError 1); None]).
  - repeat split; reflexivity.
  - reflexivity.
Defined.

(** ** Unit keys *)

Section UnitKeys.

Lemma split_no_colon m : no_colon m = true → Js.split ":" m = [m].
Proof.
  induction m as [|c m IH]; [done|]. cbn [no_colon Js.split].
  rewrite andb_true_iff, negb_true_iff. intros [-> Hm]. by rewrite (IH Hm).
Qed.

Lemma split_colon m rest :
  no_colon m = true →
  Js.split ":" (m +:+ ":" +:+ rest) = m :: Js.split ":" rest.
Proof.
  induction m as [|c m IH]; [done|].
  cbn [no_colon]. rewrite andb_true_iff, negb_true_iff. intros [Hc Hm].
  change (String c m +:+ ":" +:+ rest) with (String c (m +:+ ":" +:+ rest)).
  cbn [Js.split]. by rewrite Hc, (IH Hm).
Qed.

Lemma master_of_unversioned m :
  no_colon m = true → master_of m = m ∧ version_of m = None.
Proof. intros Hm. unfold master_of, version_of. by rewrite split_no_colon. Qed.

End UnitKeys.

(** X9: how a unit key is read.  For a base name [m] and a version [v]
    without colons, the key [m:v] has base name [m] and version [v];
    anything after a second colon is ignored; and a key without a colon
    is its own base name and has no version (undefined). *)
Theorem X9_unit_keys_are_read_up_to_the_second_colon (m v rest : string) :
  no_colon m = true → no_colon v = true →
  (master_of (m +:+ ":" +:+ v) = m ∧ version_of (m +:+ ":" +:+ v) = Some v) ∧
  (master_of (m +:+ ":" +:+ v +:+ ":" +:+ rest) = m ∧
   version_of (m +:+ ":" +:+ v +:+ ":" +:+ rest) = Some v) ∧
  (master_of m = m ∧ version_of m = None).
Proof.
  intros Hm Hv. unfold master_of, version_of.
  rewrite !split_colon, (split_no_colon v), (split_no_colon m) by done. done.
Qed.

Lemma X9_unit_keys_are_read_up_to_the_second_colon_witness :
  (master_of ("auth__logout" +:+ ":" +:+ "0.1.0.1") = "auth__logout" ∧
   version_of ("auth__logout" +:+ ":" +:+ "0.1.0.1") = Some "0.1.0.1") ∧
  (master_of ("auth__logout" +:+ ":" +:+ "0.1.0.1" +:+ ":" +:+ "beta") = "auth__logout" ∧
   version_of ("auth__logout" +:+ ":" +:+ "0.1.0.1" +:+ ":" +:+ "beta") = Some "0.1.0.1") ∧
  (master_of "auth__logout" = "auth__logout" ∧ version_of "auth__logout" = None).
Proof.
  apply (X9_unit_keys_are_read_up_to_the_second_colon "auth__logout" "0.1.0.1" "beta");
    reflexivity.
Defined.

(** ** What the unit files hold *)

Section WriteThrough.

Lemma length_append a b :
  String.length (a +:+ b) = String.length a + String.length b.
Proof.
  induction a as [|c a IH]; [done|].
  change (String c a +:+ b) with (String c (a +:+ b)).
  cbn [String.length]. by rewrite IH.
Qed.

Lemma append_inj_r c : ∀ a b, a +:+ c = b +:+ c → a = b.
Proof.
  induction a as [|x a IH]; intros [|y b] Heq; [done| | |].
  - apply (f_equal String.length) in Heq.
    change (String y b +:+ c) with (String y (b +:+ c)) in Heq.
    cbn [String.length] in Heq. rewrite !length_append in Heq.
    cbn [String.length] in Heq. lia.
  - apply (f_equal String.length) in Heq.
    change (String x a +:+ c) with (String x (a +:+ c)) in Heq.
    cbn [String.length] in Heq. rewrite !length_append in Heq.
    cbn [String.length] in Heq. lia.
  - change (String x (a +:+ c) = String y (b +:+ c)) in Heq.
    injection Heq as -> Heq. by rewrite (IH _ Heq).
Qed.

Lemma unit_file_not_index m : m ≠ "index" → m +:+ ".js" ≠ "index.js".
Proof. intros Hm Heq. apply Hm. by apply (append_inj_r ".js"). Qed.

(** The last write to a name decides; when all writes to it agree, any
    of them does. *)
Lemma put_files_lookup fs : ∀ d k v,
  (k, v) ∈ fs → (∀ v', (k, v') ∈ fs → v' = v) → put_files d fs !! k = Some v.
Proof.
  induction fs as [|f fs IH]; intros d k v Hin Hall; [by apply elem_of_nil in Hin|].
  cbn [put_files foldl]. fold (put_files (<[f.1:=f.2]> d) fs).
  destruct (decide (k ∈ fs.*1)) as [Hk|Hk].
  - apply list_elem_of_fmap in Hk as ([k' v'] & -> & Hin').
    assert (v' = v) as -> by (apply Hall; set_solver).
    apply IH; [done|]. intros v'' Hv''. apply Hall. set_solver.
  - apply elem_of_cons in Hin as [<-|Hin].
    + rewrite put_files_other; [cbn [fst snd]; by rewrite lookup_insert_eq|].
      apply Forall_forall. intros f' Hf' Heq. apply Hk. rewrite <- Heq.
      apply list_elem_of_fmap. eauto.
    + exfalso. apply Hk. apply list_elem_of_fmap. by exists (k, v).
Qed.

Lemma same_master_same_entry (machines : Js.obj machineDef) e1 e2 :
  NoDup (map master_of (Js.keys machines)) →
  e1 ∈ machines → e2 ∈ machines → master_of e1.1 = master_of e2.1 → e1 = e2.
Proof.
  induction machines as [|e machines IH]; intros Hnd H1 H2 Heq;
    [by apply elem_of_nil in H1|].
  cbn [Js.keys fmap list_fmap map] in Hnd. apply NoDup_cons in Hnd as [Hnot Hnd].
  assert (∀ e', e' ∈ machines → master_of e'.1 ≠ master_of e.1) as Hfresh.
  { intros e' He' Hm. apply Hnot. rewrite <- Hm.
    apply list_elem_of_In, in_map, list_elem_of_In.
    unfold Js.keys. apply list_elem_of_fmap. eauto. }
  apply elem_of_cons in H1 as [->|H1], H2 as [->|H2].
  - done.
  - by destruct (Hfresh _ H2).
  - by destruct (Hfresh _ H1).
  - by apply IH.
Qed.

Lemma candidate_empty_no_machines spec :
  stringify_new (candidate spec) = emptyPackageJson → PackSpec.machines spec = [].
Proof.
  intros Heq. apply (f_equal PackageJson.machines) in Heq.
  cbn [stringify_new PackageJson.machines emptyPackageJson PackageJson.Make] in Heq.
  unfold candidate in Heq. rewrite candidate_machines in Heq.
  cbn [NewPackageJson.machines app] in Heq.
  destruct (PackSpec.machines spec); [done|discriminate].
Qed.

End WriteThrough.

(** X10: what a unit file holds after a completed pass over its pack.
    The pack's name is a single path segment; the base names of its
    units, and those recorded in the manifest that was loaded, have no
    ['/'].  When no two unit keys of the pack share a base name, the
    base name is not [index] and the definition has no numeric [length],
    the file [<base name>.js] in the pack's directory holds the text
    rendered from the desired definition if line 137 asked for a rewrite
    (nothing, the empty string or another version recorded in the
    manifest that was loaded), and otherwise exactly what it held
    before, if anything. *)
Theorem X10_unit_file_after_a_pass
    (export : bool) (data : document) (p : string) (j : nat)
    (spec : PackSpec.t) (old : PackageJson.t) (s s' : state)
    (key : string) (def : machineDef) :
  segment p = true →
  plain_units spec = true →
  forallb slash_free (Js.keys (PackageJson.machineVersions old)) = true →
  plain_def def = true →
  Js.get data p = Some spec →
  (loadPackageJson export p s).1 = Ok old →
  each_pack export data p j s = (Ok (), s') →
  NoDup (map master_of (Js.keys (PackSpec.machines spec))) →
  (key, def) ∈ PackSpec.machines spec →
  master_of key ≠ "index" →
  ∃ d', pack_files (root export s') p = Some d' ∧
    d' !! (master_of key +:+ ".js") =
      if replace_it old (master_of key) (version_of key) then Some (render def)
      else pack_files (root export s) p ≫= (.!! (master_of key +:+ ".js")).
Proof.
  intros _ _ _ _ Hget Hload Hrun Hnd Hin Hindex.
  destruct (root export s) as [t|] eqn:Hroot.
  2:{ destruct (each_pack_no_root _ _ _ _ _ _ _ Hget Hroot Hrun) as [Hc _].
      apply candidate_empty_no_machines in Hc. rewrite Hc in Hin.
      by apply elem_of_nil in Hin. }
  destruct (each_pack_ok _ _ _ _ _ _ _ _ Hget Hroot Hrun)
    as (d & old' & evs & t_u & Hd & Hold & _ & _ & _ & ->).
  rewrite (loaded_manifest _ _ _ _ _ Hroot Hd), Hold in Hload.
  injection Hload as ->.
  rewrite root_pack_outcome. unfold pack_files. rewrite lookup_insert_eq.
  eexists. split; [done|].
  set (f := master_of key +:+ ".js").
  set (writes := unit_writes old (PackSpec.machines spec)).
  assert ((if decide (stringify_new (candidate spec) = old)
           then put_files d writes
           else <["index.js" := index_js]>
                  (<["package.json" := Json (stringify_new (candidate spec))]>
                     (put_files d writes))) !! f = put_files d writes !! f) as ->.
  { case_decide; [done|].
    rewrite lookup_insert_ne by (symmetry; by apply unit_file_not_index).
    by rewrite lookup_insert_ne by (symmetry; apply unit_file_not_manifest). }
  destruct (replace_it old (master_of key) (version_of key)) eqn:Hrep.
  - apply put_files_lookup.
    + unfold writes, unit_writes. apply list_elem_of_fmap.
      exists (key, def). split; [done|]. by apply list_elem_of_filter.
    + intros v' Hv'. unfold writes, unit_writes in Hv'.
      apply list_elem_of_fmap in Hv' as (e & [= Hf ->] & He).
      apply list_elem_of_filter in He as [_ He].
      apply append_inj_r in Hf.
      by rewrite <- (same_master_same_entry _ (key, def) e Hnd Hin He Hf).
  - rewrite put_files_other.
    + destruct Hd as [->|[-> ->]]; [done|]. cbn. by rewrite lookup_empty.
    + apply Forall_forall. intros w Hw Hf. unfold writes, unit_writes in Hw.
      apply list_elem_of_fmap in Hw as (e & -> & He).
      apply list_elem_of_filter in He as [Hrep' He].
      apply append_inj_r in Hf.
      rewrite <- (same_master_same_entry _ (key, def) e Hnd Hin He (eq_sym Hf)) in Hrep'.
      cbn [fst] in Hrep'. congruence.
Qed.

Lemma X10_unit_file_after_a_pass_witness :
  ∃ d', pack_files (root false Example.synced) "packA" = Some d' ∧
    d' !! (master_of "u1:1.0" +:+ ".js") =
      if replace_it emptyPackageJson (master_of "u1:1.0") (version_of "u1:1.0")
      then Some (render Example.u1)
      else pack_files (root false Example.started) "packA"
             ≫= (.!! (master_of "u1:1.0" +:+ ".js")).
Proof.
  apply (X10_unit_file_after_a_pass false Example.D "packA" 0 Example.packA
           emptyPackageJson Example.started Example.synced "u1:1.0" Example.u1).
  - reflexivity.
  - reflexivity.
  - reflexivity.
  - reflexivity.
  - reflexivity.
  - reflexivity.
  - vm_compute. reflexivity.
  - apply (bool_decide_unpack _). vm_compute. reflexivity.
  - apply list_elem_of_here.
  - apply (bool_decide_unpack _). vm_compute. reflexivity.
Defined.

(** ** Where a pass stops, and where it cannot *)

Section PassRuns.

(** A pass over an existing pack directory with a readable manifest and
    no stale unit always completes. *)
Lemma each_pack_run_dir export data p j spec s t d old :
  Js.get data p = Some spec →
  root export s = Some t → t !! p = Some (Dir d) →
  manifest_of d = Ok old →
  Js.difference (Js.keys (PackageJson.machineVersions old))
                (map master_of (Js.keys (PackSpec.machines spec))) = [] →
  each_pack export data p j s =
    (Ok (), pack_outcome export p j spec old d [] t s).
Proof.
  intros Hget Hroot Hdir Hold Hstale. unfold each_pack.
  unfold bind at 1. rewrite (mkdir_attempt _ _ _ _ Hroot), Hdir.
  unfold bind at 1. rewrite (load_run _ _ _ _ Hroot), Hdir, Hold, Hget, Hstale.
  cbn [forEach]. unfold bind at 1. unfold ret at 1. unfold bind at 1.
  rewrite (each_machines_run _ _ _ _ _ _ t d Hroot Hdir).
  fold (candidate spec). unfold pack_outcome. cbn [app].
  destruct (decide (Json (stringify_new (candidate spec)) = Json old)) as [Heq|Hne].
  - injection Heq as Heq. by rewrite decide_True.
  - rewrite decide_False by congruence.
    unfold bind at 1. unfold writeFileSync at 1.
    rewrite root_emit_list, root_with_root, lookup_insert_eq.
    unfold bind at 1. unfold writeFileSync at 1.
    rewrite root_emit, root_with_root, lookup_insert_eq.
    repeat rewrite ?full_path_emit, ?full_path_with_root, ?full_path_emit_list,
      ?machinesDir_emit, ?machinesDir_with_root, ?machinesDir_emit_list.
    by rewrite push_normal, !insert_insert_eq.
Qed.

(** A pass over a pack that has no entry yet in the cache root always
    completes, and adds its directory. *)
Lemma each_pack_run_fresh export data p j spec s t :
  Js.get data p = Some spec →
  root export s = Some t → t !! p = None →
  ∃ s' d', each_pack export data p j s = (Ok (), s') ∧
    root export s' = Some (<[p := Dir d']> t).
Proof.
  intros Hget Hroot Hp. rewrite (each_pack_fresh _ _ _ _ _ _ Hroot Hp).
  erewrite (each_pack_run_dir _ _ _ _ spec _ (<[p := Dir ∅]> t) ∅ emptyPackageJson);
    [|done|by rewrite root_emit, root_with_root|by rewrite lookup_insert_eq|done|done].
  eexists _, _. split; [done|].
  by rewrite root_pack_outcome, insert_insert_eq.
Qed.

Lemma forEach_fresh export D j l : ∀ s t,
  NoDup l → (∀ x, x ∈ l → x ∈ Js.keys D) →
  root export s = Some t → (∀ x, x ∈ l → t !! x = None) →
  ∃ s', forEach (λ x, each_pack export D x j) l s = (Ok (), s').
Proof.
  induction l as [|x l IH]; intros s t Hnd Hkeys Hroot Hnew; [by exists s|].
  apply NoDup_cons in Hnd as [Hx Hnd].
  destruct (get_is_Some D x) as [spec Hget]; [apply Hkeys; set_solver|].
  destruct (each_pack_run_fresh export D x j spec s t Hget Hroot)
    as (s1 & d' & Hrun & Hroot1); [apply Hnew; set_solver|].
  destruct (IH s1 (<[x := Dir d']> t)) as (s' & Hrest); [done|set_solver|done| |].
  { intros y Hy. rewrite lookup_insert_ne by set_solver. apply Hnew. set_solver. }
  exists s'. cbn [forEach]. unfold bind at 1. by rewrite Hrun.
Qed.

Lemma replace_it_unversioned old m : replace_it old m None = true.
Proof.
  unfold replace_it. destruct (Js.get _ _); [|done].
  rewrite bool_decide_eq_false_2 by done. apply orb_true_r.
Qed.

End PassRuns.

(** X11: what a completed reconciliation leaves on disk, for a
    document whose pack names are single path segments and whose unit
    base names have no ['/']: the pack directories of the cache root are
    exactly the keys of the document, and the manifest loaded from each
    pack's directory is the candidate built from the pack's desired
    spec, printed as the module prints it. *)
Theorem X11_completed_reconciliation_matches_the_document
    (options : Options.t) (D : document) (cb : option nat) (s s1 : state) :
  plain_names D = true →
  reloadAllMachinePacks options D cb s = (Ok (), s1) →
  pack_dirs (root (Options.export options) s1) = list_to_set (Js.keys D) ∧
  ∀ p spec, Js.get D p = Some spec →
    ∃ d, pack_files (root (Options.export options) s1) p = Some d ∧
         manifest_of d = Ok (stringify_new (candidate spec)).
Proof.
  intros _ Hrun. destruct (reload_settles _ _ _ _ _ Hrun) as (t & Hroot & Hdirs & Hps).
  rewrite Hroot. split.
  - apply set_eq. intros n. rewrite elem_of_pack_dirs, elem_of_list_to_set. split.
    + intros [d Hd]. eauto.
    + intros Hn. destruct (get_is_Some D n Hn) as [spec Hget].
      destruct (Hps n spec Hn Hget) as (d & Hd & _). eauto.
  - intros p spec Hget.
    assert (p ∈ Js.keys D) as Hp by (apply get_is_Some_keys; eauto).
    destruct (Hps p spec Hp Hget) as (d & Hd & Hm).
    exists d. unfold pack_files. by rewrite Hd.
Qed.

Lemma X11_completed_reconciliation_matches_the_document_witness :
  pack_dirs (root false
    (reloadAllMachinePacks (Options.Make false) Stale.D (Some 7)
       Stale.disk_with_root_file).2) = list_to_set (Js.keys Stale.D) ∧
  ∀ p spec, Js.get Stale.D p = Some spec →
    ∃ d, pack_files (root false
           (reloadAllMachinePacks (Options.Make false) Stale.D (Some 7)
              Stale.disk_with_root_file).2) p = Some d ∧
         manifest_of d = Ok (stringify_new (candidate spec)).
Proof.
  apply (X11_completed_reconciliation_matches_the_document (Options.Make false)
           Stale.D (Some 7) Stale.disk_with_root_file _).
  - reflexivity.
  - vm_compute. reflexivity.
Defined.



(** X13: a plain file where a pack directory belongs blocks the
    reconciliation.  [cleanPacks] removes directories only, so the file
    survives it; the pass over the pack then fails to create the
    directory (silently) and to read the manifest below the file
    (ENOTDIR, which is not caught).  With the pack first in the
    document, the reconciliation throws ENOTDIR, the completion callback
    is not invoked and no install is queued. *)
Theorem X13_file_in_place_of_a_pack_directory
    (options : Options.t) (D : document) (cb : option nat) (s : state)
    (t : gmap string node) (p : string) (l : list string) (c : content) :
  Js.keys D = p :: l →
  root (Options.export options) s = Some t → t !! p = Some (File c) →
  ∃ s', reloadAllMachinePacks options D cb s = (Throw ENOTDIR, s') ∧
    calls s' = calls s ∧ tasks s' = tasks s ∧
    (root (Options.export options) s' ≫= (.!! p)) = Some (File c).
Proof.
  destruct options as [export]. cbn [Options.export].
  intros Hkeys Hroot Hp. unfold reloadAllMachinePacks.
  destruct (cleanPacks_run export D
              (Some (λ err, match err with
                            | Some e => λ s, (Ok (), invoke cb (Some e) s)
                            | None => writePacks (Options.Make export) D cb
                            end)) s) as (evs & t' & -> & _ & Hl).
  assert (t' !! p = Some (File c)) as Hp'.
  { rewrite Hl, Hroot. unfold pruned. change (default ∅ (Some t)) with t.
    by rewrite Hp. }
  unfold writePacks, async_each. rewrite Hkeys. cbn [forEach Options.export].
  unfold bind at 1. unfold each_pack at 1. unfold bind at 1.
  set (s_a := new_join _ _ _).
  assert (root export s_a = Some t') as Hroot'.
  { unfold s_a. by rewrite (disk_root _ _ _ (disk_new_join _ _ _)),
      root_emit_list, root_with_root. }
  rewrite (mkdir_attempt _ _ _ _ Hroot'), Hp'.
  unfold bind at 1. rewrite (load_run _ _ _ _ Hroot'), Hp'.
  exists s_a. split; [done|]. rewrite Hroot'. cbn [mbind option_bind].
  split; [|split; [|done]]; unfold s_a; by destruct export.
Qed.

Lemma X13_file_in_place_of_a_pack_directory_witness :
  ∃ s', reloadAllMachinePacks (Options.Make false) Example.D (Some 7)
          (boot "/app" None (Some {[ "packA" := File (Text "x") ]})) = (Throw ENOTDIR, s') ∧
    calls s' = calls (boot "/app" None (Some {[ "packA" := File (Text "x") ]})) ∧
    tasks s' = tasks (boot "/app" None (Some {[ "packA" := File (Text "x") ]})) ∧
    (root false s' ≫= (.!! "packA")) = Some (File (Text "x")).
Proof.
  apply (X13_file_in_place_of_a_pack_directory (Options.Make false) Example.D (Some 7)
           (boot "/app" None (Some {[ "packA" := File (Text "x") ]}))
           {[ "packA" := File (Text "x") ]} "packA" [] (Text "x")).
  - reflexivity.
  - reflexivity.
  - vm_compute. reflexivity.
Defined.

(** X14: a unit whose key carries no version (no colon) is written in
    every completed pass over its pack, whatever the manifest records:
    its version is undefined, which no recorded version equals. *)
Theorem X14_unversioned_unit_is_written_on_every_pass
    (export : bool) (data : document) (p : string) (j : nat)
    (spec : PackSpec.t) (s s' : state) (key : string) (def : machineDef) :
  Js.get data p = Some spec →
  (key, def) ∈ PackSpec.machines spec →
  no_colon key = true →
  each_pack export data p j s = (Ok (), s') →
  ∃ evs, trace s' = trace s ++ evs ∧
    Write UnitFile (full_path export [p; key +:+ ".js"] s) (render def) ∈ evs.
Proof.
  intros Hget Hin Hkey Hrun.
  destruct (master_of_unversioned key Hkey) as [Hm Hv].
  destruct (root export s) as [t|] eqn:Hroot.
  2:{ destruct (each_pack_no_root _ _ _ _ _ _ _ Hget Hroot Hrun) as [Hc _].
      apply candidate_empty_no_machines in Hc. rewrite Hc in Hin.
      by apply elem_of_nil in Hin. }
  destruct (each_pack_ok _ _ _ _ _ _ _ _ Hget Hroot Hrun)
    as (d & old & evs & t_u & _ & _ & _ & _ & _ & ->).
  rewrite pack_outcome_trace. eexists. split; [done|].
  apply elem_of_app. right. apply elem_of_app. left.
  apply list_elem_of_fmap. exists (key +:+ ".js", render def). split; [done|].
  unfold unit_writes. apply list_elem_of_fmap. exists (key, def).
  cbn [fst snd]. rewrite Hm. split; [done|].
  apply list_elem_of_filter. split; [|done].
  cbn [fst]. rewrite Hm, Hv. apply replace_it_unversioned.
Qed.

Lemma X14_unversioned_unit_is_written_on_every_pass_witness :
  ∃ evs, trace (each_pack false [("p", PackSpec.Make [("a", Example.u1)] None)] "p" 0
                  (new_join 1 None Stale.disk_with_root_file)).2 =
           trace (new_join 1 None Stale.disk_with_root_file) ++ evs ∧
    Write UnitFile (full_path false ["p"; "a" +:+ ".js"] (new_join 1 None Stale.disk_with_root_file))
          (render Example.u1) ∈ evs.
Proof.
  apply (X14_unversioned_unit_is_written_on_every_pass false
           [("p", PackSpec.Make [("a", Example.u1)] None)] "p" 0
           (PackSpec.Make [("a", Example.u1)] None)
           (new_join 1 None Stale.disk_with_root_file) _ "a" Example.u1).
  - reflexivity.
  - apply list_elem_of_here.
  - reflexivity.
  - vm_compute. reflexivity.
Defined.

(** X15: a first synchronisation cannot fail.  When the cache root is
    missing or empty, the document's keys are distinct (as the keys of
    an object are) and single path segments, the base names of its units
    have no ['/'] and no unit definition has a numeric [length], the
    reconciliation completes and leaves one pack directory per key. *)
Theorem X15_first_synchronisation_completes
    (options : Options.t) (D : document) (cb : option nat) (s : state) :
  plain_names D = true →
  plain_definitions D = true →
  NoDup (Js.keys D) →
  default ∅ (root (Options.export options) s) = ∅ →
  ∃ s', reloadAllMachinePacks options D cb s = (Ok (), s') ∧
    pack_dirs (root (Options.export options) s') = list_to_set (Js.keys D).
Proof.
  destruct options as [export]. cbn [Options.export]. intros _ _ Hnd Hempty.
  assert (∃ s', reloadAllMachinePacks (Options.Make export) D cb s = (Ok (), s'))
    as [s' Hrun].
  { unfold reloadAllMachinePacks.
    destruct (cleanPacks_run export D
                (Some (λ err, match err with
                              | Some e => λ s, (Ok (), invoke cb (Some e) s)
                              | None => writePacks (Options.Make export) D cb
                              end)) s) as (evs & t' & -> & _ & Hl).
    unfold writePacks, async_each. cbn [Options.export].
    destruct (Js.keys D) as [|x l] eqn:Hkeys; [by eexists|].
    rewrite <- Hkeys in *.
    apply (forEach_fresh export D _ (Js.keys D) _ t'); [done|done| |].
    - by rewrite (disk_root _ _ _ (disk_new_join _ _ _)), root_emit_list, root_with_root.
    - intros y _. rewrite Hl, Hempty. unfold pruned. by rewrite lookup_empty. }
  exists s'. split; [done|].
  destruct (reload_settles _ _ _ _ _ Hrun) as (t & Hroot & Hdirs & Hps).
  cbn [Options.export] in *. rewrite Hroot.
  apply set_eq. intros n. rewrite elem_of_pack_dirs, elem_of_list_to_set. split.
  - intros [d Hd]. eauto.
  - intros Hn. destruct (get_is_Some D n Hn) as [spec Hget].
    destruct (Hps n spec Hn Hget) as (d & Hd & _). eauto.
Qed.

Lemma X15_first_synchronisation_completes_witness :
  ∃ s', reloadAllMachinePacks (Options.Make false) Example.D (Some 7)
          (boot "/app" None None) = (Ok (), s') ∧
    pack_dirs (root false s') = list_to_set (Js.keys Example.D).
Proof.
  apply (X15_first_synchronisation_completes (Options.Make false) Example.D (Some 7)
           (boot "/app" None None)).
  - reflexivity.
  - reflexivity.
  - apply (bool_decide_unpack _). vm_compute. reflexivity.
  - reflexivity.
Defined.

(** ** From the reconciliation to the end of the installs *)

Section Settling.

Lemma writePacks_leaves options D cb s s1 :
  tasks s = [] → running s = None →
  writePacks options D (Some cb) s = (Ok (), s1) →
  run_inv (length (joins s)) (length (Js.keys D)) (length (tasks s1)) cb
          (calls s) 0 None s1 ∧
  running s1 = None ∧ immediates s1 = immediates s + length (tasks s1).
Proof.
  intros Hts Hr Hrun. unfold writePacks, async_each in Hrun.
  destruct (Js.keys D) as [|x l] eqn:Hkeys.
  - injection Hrun as <-. cbn [length].
    unfold run_inv, new_join, invoke.
    cbn [tasks running joins calls with_joins immediates].
    rewrite Hts, Hr. cbn [length]. split; [|split; [done|lia]].
    split; [done|]. split; [done|].
    split; [done|]. split; [done|]. split; [|done].
    exists 0. split; [|done]. by apply list_lookup_middle.
  - eapply (forEach_packs_sched _ _ _ (length (x :: l)) (Some cb) _ _ _ 0) in Hrun.
    + destruct Hrun as (pushed & Hall & Hlen & Hs). cbn zeta in Hs.
      unfold sched, new_join in Hs.
      cbn [maintenance tasks running immediates joins calls with_joins] in Hs.
      injection Hs as _ Ht Hr' Hi Hj Hc. rewrite Hts in Ht. cbn [app] in Ht.
      unfold run_inv. rewrite Ht, Hr', Hr, Hj, Hc, Hi. cbn [length] in *.
      split; [|done].
      split; [lia|]. split; [lia|]. split; [done|]. split; [done|]. split.
      * eexists. split.
        -- apply list_lookup_insert_eq. rewrite length_app. cbn [length]. lia.
        -- intros _. cbn [length]. lia.
      * f_equal. unfold received, invoked. cbn [length] in *.
        repeat case_decide; done || lia.
    + intros y Hy. by rewrite Hkeys.
    + unfold new_join. cbn [joins with_joins]. by apply list_lookup_middle.
    + lia.
Qed.

Lemma run_actions_env es : ∀ s, run_actions (map Env es) s = run_steps es s.
Proof.
  induction es as [|e es IH]; intros s; [done|].
  cbn [map run_actions run_action run_steps]. destruct (run_step e s); [apply IH|done].
Qed.

Lemma execs_started ts : execs (map (λ t, Exec (task_cwd t)) ts) = map task_cwd ts.
Proof. induction ts as [|t ts IH]; [done|]. cbn. by rewrite <- IH. Qed.

Lemma exits_exit errs : exits (map ExecExit errs) = length errs.
Proof.
  unfold exits. induction errs as [|e errs IH]; [done|].
  cbn [map]. rewrite filter_cons_True by done. cbn [length]. by rewrite IH.
Qed.

End Settling.

(** X16: from the reconciliation to the end of its installs.  When
    [writePacks], started on an idle queue, has completed and queued
    installs, then one turn of the event loop and one exit per queued
    install, whatever the exit statuses, leave the queue empty with no
    command in flight and the maintenance flag off; every queued install
    has been run, in order; and the completion callback has been invoked
    exactly once, with the first install error if there was one. *)
Theorem X16_reconciliation_settles_once_its_installs_exit
    (options : Options.t) (D : document) (cb : nat) (s s1 : state)
    (errs : list (option error)) :
  idle s →
  writePacks options D (Some cb) s = (Ok (), s1) →
  tasks s1 ≠ [] → length errs = length (tasks s1) →
  ∃ s2, run_steps (Tick :: map ExecExit errs) s1 = Some s2 ∧
    tasks s2 = [] ∧ running s2 = None ∧ maintenance s2 = false ∧
    execs (trace s2) = execs (trace s1) ++ map task_cwd (tasks s1) ∧
    calls s2 = calls s ++ [(cb, first_error (map ExecExit errs))].
Proof.
  intros (Hts & Hr & Hi) Hrun Hne Hlen.
  destruct (writePacks_leaves _ _ _ _ _ Hts Hr Hrun) as (Hinv & Hr1 & Hi1).
  destruct (tasks s1) as [|t ts] eqn:Ht1; [done|]. cbn [length] in *.
  assert (∃ s1', tick s1 = Some s1' ∧ running s1' = Some t ∧ tasks s1' = ts ∧
                 trace s1' = trace s1 ++ [Exec (task_cwd t)]) as (s1' & Htick & Er & Et & Etr).
  { unfold tick. rewrite Hi1, Hi. cbn [Nat.add]. eexists. split; [done|].
    unfold process. cbn [running tasks with_queue]. rewrite Hr1, Ht1.
    unfold worker, emit, with_queue. by cbn [running tasks trace]. }
  destruct (run_exits ts t errs s1' Er Et Hlen) as (s2 & Hexits & Htr & Hts2 & Hr2 & Hm2).
  rewrite <- map_map, run_actions_env in Hexits.
  assert (run_steps (Tick :: map ExecExit errs) s1 = Some s2) as Hsteps.
  { cbn [run_steps run_step]. by rewrite Htick. }
  exists s2. split; [done|]. split; [done|]. split; [done|]. split; [done|]. split.
  - rewrite Htr, Etr, <- app_assoc, execs_app. f_equal.
    change ([Exec (task_cwd t)] ++ map (λ t, Exec (task_cwd t)) ts)
      with (map (λ t, Exec (task_cwd t)) (t :: ts)).
    apply execs_started.
  - pose proof (run_inv_steps _ _ _ _ _ _ _ _ _ _ Hinv Hsteps) as (_ & _ & _ & _ & _ & Hc).
    rewrite Hc. f_equal. unfold received, combine_error.
    destruct (first_error (Tick :: map ExecExit errs)) eqn:Hfe;
      cbn [first_error] in Hfe; rewrite Hfe; [done|].
    rewrite decide_True; [done|]. rewrite exits_cons, exits_exit. change (exits [Tick]) with 0. lia.
Qed.

Lemma X16_reconciliation_settles_once_its_installs_exit_witness :
  ∃ s2, run_steps (Tick :: map ExecExit [Some (ExecError 1)]) Example.queued = Some s2 ∧
    tasks s2 = [] ∧ running s2 = None ∧ maintenance s2 = false ∧
    execs (trace s2) = execs (trace Example.queued) ++ map task_cwd (tasks Example.queued) ∧
    calls s2 = calls Example.empty_cache ++
                 [(7, first_error (map ExecExit [Some (ExecError 1)]))].
Proof.
  apply (X16_reconciliation_settles_once_its_installs_exit (Options.Make false)
           Example.D 7 Example.empty_cache Example.queued [Some (ExecError 1)]).
  - repeat split; reflexivity.
  - vm_compute. reflexivity.
  - vm_compute. discriminate.
  - vm_compute. reflexivity.
Defined.

(** ** The manifest built by the loop over the units *)

Section ManifestBuilt.

Lemma keys_replace {A} k (v : A) o : Js.keys (Js.replace k v o) = Js.keys o.
Proof.
  induction o as [|[k0 v0] o IH]; [done|]. cbn [Js.replace].
  case_decide; [done|]. cbn. f_equal. apply IH.
Qed.

Lemma keys_insert_index {A} n k (v : A) o :
  Js.keys (Js.insert_index n k v o) ≡ₚ k :: Js.keys o.
Proof.
  induction o as [|[k0 v0] o IH]; [done|]. cbn [Js.insert_index].
  destruct (Js.array_index k0) as [n'|]; [|done].
  destruct (n' <? n)%N; [|done].
  cbn [Js.keys fmap list_fmap fst] in *. rewrite IH. apply Permutation_swap.
Qed.

Lemma NoDup_keys_set {A} (o : Js.obj A) k v :
  NoDup (Js.keys o) → NoDup (Js.keys (Js.set o k v)).
Proof.
  intros Hnd. unfold Js.set, Js.has. case_decide; [done|].
  case_bool_decide as Hin.
  - by rewrite keys_replace.
  - destruct (Js.array_index k).
    + rewrite keys_insert_index. by apply NoDup_cons.
    + unfold Js.keys. rewrite fmap_app. apply NoDup_app. split; [done|].
      split; [|apply NoDup_singleton]. intros x Hx ?%list_elem_of_singleton.
      by subst.
Qed.

Lemma each_machines_value export machineDir packageJson machines : ∀ n s n' s',
  each_machines export machineDir packageJson n machines s = (Ok n', s') →
  n' = foldl candidate_step n (Js.keys machines).
Proof.
  induction machines as [|entry rest IH]; intros n s n' s' Hrun.
  - by injection Hrun as <- _.
  - cbn [each_machines] in Hrun. unfold bind at 1 in Hrun.
    destruct (each_machine export machineDir packageJson n entry s)
      as [[n1|e] s1] eqn:He; [|done].
    apply IH in Hrun as ->. cbn [Js.keys fmap list_fmap foldl]. f_equal.
    unfold each_machine, bind, ret in He.
    repeat case_match; by simplify_eq.
Qed.

Lemma candidate_deps ks : ∀ n,
  NewPackageJson.dependencies (foldl candidate_step n ks) =
  NewPackageJson.dependencies n.
Proof. induction ks as [|k ks IH]; intros n; [done|]. cbn [foldl]. by rewrite IH. Qed.

Lemma candidate_nodup ks : ∀ n,
  NoDup (Js.keys (NewPackageJson.machineVersions n)) →
  NoDup (Js.keys (NewPackageJson.machineVersions (foldl candidate_step n ks))).
Proof.
  induction ks as [|k ks IH]; intros n Hnd; [done|]. cbn [foldl]. apply IH.
  cbn [candidate_step NewPackageJson.machineVersions]. by apply NoDup_keys_set.
Qed.

Lemma candidate_keys_iff ks : ∀ n m,
  m ∈ Js.keys (NewPackageJson.machineVersions (foldl candidate_step n ks)) ↔
  (m ∈ map master_of ks ∧ m ≠ "__proto__") ∨
  m ∈ Js.keys (NewPackageJson.machineVersions n).
Proof.
  induction ks as [|k ks IH]; intros n m.
  - cbn. set_solver.
  - cbn [foldl map]. rewrite IH.
    cbn [candidate_step NewPackageJson.machineVersions]. rewrite keys_set.
    set_solver.
Qed.

Lemma candidate_last ks1 k ks2 n :
  master_of k ≠ "__proto__" →
  master_of k ∉ map master_of ks2 →
  Js.get (NewPackageJson.machineVersions (foldl candidate_step n (ks1 ++ k :: ks2)))
         (master_of k) = Some (version_of k).
Proof.
  intros Hk Hlast. rewrite foldl_app. cbn [foldl].
  rewrite candidate_versions_other by done.
  cbn [candidate_step NewPackageJson.machineVersions].
  rewrite get_set by done. by rewrite decide_True.
Qed.

End ManifestBuilt.

(** X17: the manifest that the loop over a pack's units builds, when
    the loop completes: it carries the spec's dependencies as they are;
    its machines list holds the base name of every unit key, in key
    order, repetitions included; its machineVersions has exactly one
    entry per distinct base name other than [__proto__], holding the
    version of the last key with that base name; the base name
    [__proto__] gets no entry (the assignment of line 146 goes to the
    accessor of [Object.prototype]). *)
Theorem X17_manifest_built_from_the_unit_keys
    (export : bool) (machineDir : string) (packageJson : PackageJson.t)
    (deps : option (Js.obj string)) (machines : Js.obj machineDef)
    (s s' : state) (n : NewPackageJson.t) :
  each_machines export machineDir packageJson (NewPackageJson.Make deps [] [])
                machines s = (Ok n, s') →
  NewPackageJson.dependencies n = deps ∧
  NewPackageJson.machines n = map master_of (Js.keys machines) ∧
  NoDup (Js.keys (NewPackageJson.machineVersions n)) ∧
  (∀ m, m ∈ Js.keys (NewPackageJson.machineVersions n) ↔
        m ∈ map master_of (Js.keys machines) ∧ m ≠ "__proto__") ∧
  (∀ before key after,
     Js.keys machines = before ++ key :: after →
     master_of key ∉ map master_of after →
     master_of key ≠ "__proto__" →
     Js.get (NewPackageJson.machineVersions n) (master_of key) = Some (version_of key)).
Proof.
  intros ->%each_machines_value. split; [|split; [|split; [|split]]].
  - by rewrite candidate_deps.
  - by rewrite candidate_machines.
  - apply candidate_nodup. cbn. apply NoDup_nil_2.
  - intros m. rewrite candidate_keys_iff. cbn. set_solver.
  - intros before key after -> Hlast Hkey. by apply candidate_last.
Qed.

Lemma X17_manifest_built_from_the_unit_keys_witness :
  let machines : Js.obj machineDef :=
    [("a:1", Example.u1); ("__proto__:1", Example.u1); ("a:2", Example.u1)] in
  let n := candidate (PackSpec.Make machines None) in
  NewPackageJson.dependencies n = None ∧
  NewPackageJson.machines n = map master_of (Js.keys machines) ∧
  NoDup (Js.keys (NewPackageJson.machineVersions n)) ∧
  (∀ m, m ∈ Js.keys (NewPackageJson.machineVersions n) ↔
        m ∈ map master_of (Js.keys machines) ∧ m ≠ "__proto__") ∧
  (∀ before key after,
     Js.keys machines = before ++ key :: after →
     master_of key ∉ map master_of after →
     master_of key ≠ "__proto__" →
     Js.get (NewPackageJson.machineVersions n) (master_of key) = Some (version_of key)).
Proof.
  intros machines n.
  apply (X17_manifest_built_from_the_unit_keys false "p" emptyPackageJson None
           machines Stale.disk
           (each_machines false "p" emptyPackageJson (NewPackageJson.Make None [] [])
              machines Stale.disk).2).
  vm_compute. reflexivity.
Defined.

(** ** [writePacks] without a cache root *)

Section NoRoot.

Lemma each_machines_no_root export machineDir n entry rest s :
  root export s = None →
  each_machines export machineDir emptyPackageJson n (entry :: rest) s =
    (Throw ENOENT, s).
Proof.
  intros Hroot. cbn [each_machines]. unfold bind at 1. unfold each_machine.
  unfold bind at 1. cbn [replace_it emptyPackageJson PackageJson.Make PackageJson.machineVersions Js.get].
  unfold writeFileSync. by rewrite Hroot.
Qed.

End NoRoot.

(** X18: [writePacks] relies on [cleanPacks] for the cache root.  When
    the cache root directory does not exist, the pass over a pack (its
    name a single path segment, the base names of its units without
    ['/'], its definitions without numeric [length]) with anything to
    write (a unit, or a manifest that differs from the empty one) throws
    ENOENT and leaves the state as it was: the pack's directory cannot
    be created below a missing directory, and that failure of
    [mkdirSync] is swallowed. *)
Theorem X18_pass_without_cache_root_throws
    (export : bool) (data : document) (p : string) (j : nat)
    (spec : PackSpec.t) (s : state) :
  segment p = true →
  plain_units spec = true →
  plain_defs spec = true →
  Js.get data p = Some spec →
  root export s = None →
  stringify_new (candidate spec) ≠ emptyPackageJson →
  each_pack export data p j s = (Throw ENOENT, s).
Proof.
  intros _ _ _ Hget Hroot Hne. unfold each_pack.
  unfold bind at 1. rewrite (mkdir_attempt_no_root _ _ _ Hroot).
  unfold bind at 1. rewrite (load_run_no_root _ _ _ Hroot), Hget.
  cbn [emptyPackageJson PackageJson.Make PackageJson.machineVersions Js.keys fmap list_fmap
       Js.difference filter list_filter forEach].
  unfold bind at 1. unfold ret at 1. unfold bind at 1.
  destruct (PackSpec.machines spec) as [|entry rest] eqn:Hm.
  - cbn [each_machines]. unfold ret at 1.
    rewrite decide_False.
    + unfold bind at 1. unfold writeFileSync at 1. by rewrite Hroot.
    + intros [= Heq]. apply Hne. unfold candidate. rewrite Hm, Heq. reflexivity.
  - fold emptyPackageJson. by rewrite each_machines_no_root.
Qed.

Lemma X18_pass_without_cache_root_throws_witness :
  each_pack false Example.D "packA" 0 (boot "/app" None None) =
    (Throw ENOENT, boot "/app" None None).
Proof.
  apply (X18_pass_without_cache_root_throws false Example.D "packA" 0 Example.packA
           (boot "/app" None None)).
  - reflexivity.
  - reflexivity.
  - reflexivity.
  - reflexivity.
  - reflexivity.
  - vm_compute. discriminate.
Defined.

(** ** A pass stays in its pack *)

Section OtherPacks.
Context (export : bool) (p : string).

Lemma same_others_refl s : same_others export p s s.
Proof. by intros q Hq. Qed.

Lemma same_others_trans s1 s2 s3 :
  same_others export p s1 s2 → same_others export p s2 s3 →
  same_others export p s1 s3.
Proof. intros H12 H23 q Hq. by rewrite (H23 q Hq), (H12 q Hq). Qed.

Lemma same_others_same_root s s' :
  root export s' = root export s → same_others export p s s'.
Proof. intros Hr q Hq. by rewrite Hr. Qed.

Lemma same_others_update s t t' evs :
  root export s = Some t →
  (∀ q, q ≠ p → t' !! q = t !! q ∨ (t' !! q = None ∧ ∃ c, t !! q = Some (File c))) →
  same_others export p s (emit_list evs (with_root export (Some t') s)).
Proof.
  intros Hroot Ht q Hq. rewrite Hroot, root_emit_list, root_with_root.
  unfold pack_files. destruct (Ht q Hq) as [->|[-> [c ->]]]; done.
Qed.

Local Abbreviation stays m := (preserves (same_others export p) m).

Lemma so_bind {A B} (m : M A) (k : A → M B) :
  stays m → (∀ a, stays (k a)) → stays (bind m k).
Proof. apply preserves_bind, same_others_trans. Qed.

Lemma so_try {A} (m : M A) (h : error → M A) :
  stays m → (∀ e, stays (h e)) → stays (try_catch m h).
Proof. apply preserves_try_catch, same_others_trans. Qed.

Lemma so_ret {A} (a : A) : stays (ret a).
Proof. apply preserves_ret, same_others_refl. Qed.

Lemma so_throw {A} e : stays (throw (A := A) e).
Proof. apply preserves_throw, same_others_refl. Qed.

Lemma so_forEach {A} (f : A → M unit) l : (∀ x, stays (f x)) → stays (forEach f l).
Proof.
  apply preserves_forEach; [apply same_others_refl|apply same_others_trans].
Qed.

Lemma same_others_mkdirSync : stays (mkdirSync export p).
Proof.
  intros s r s'. unfold mkdirSync.
  destruct (root export s) as [t|] eqn:Hroot; [|intros [= <- <-]; apply same_others_refl].
  destruct (t !! p) eqn:Hn; intros [= <- <-]; [apply same_others_refl|].
  rewrite emit_emit_list. eapply same_others_update; [done|].
  intros q Hq. left. by rewrite lookup_insert_ne.
Qed.

Lemma same_others_readFileSync segs : stays (readFileSync export segs).
Proof.
  intros s r s' H. unfold readFileSync in H.
  repeat (case_match; simplify_eq); apply same_others_refl.
Qed.

Lemma same_others_unlinkSync_top name : stays (unlinkSync export [name]).
Proof.
  intros s r s'. unfold unlinkSync.
  destruct (root export s) as [t|] eqn:Hroot; [|intros [= <- <-]; apply same_others_refl].
  destruct (t !! name) as [[c|d]|] eqn:Hn; intros [= <- <-];
    try apply same_others_refl.
  rewrite emit_emit_list. eapply same_others_update; [done|].
  intros q Hq. destruct (decide (q = name)) as [->|Hne].
  - right. rewrite lookup_delete_eq. eauto.
  - left. by rewrite lookup_delete_ne.
Qed.

Lemma same_others_writeFileSync k file c :
  stays (writeFileSync k export [p; file] c).
Proof.
  intros s r s'. unfold writeFileSync.
  destruct (root export s) as [t|] eqn:Hroot; [|intros [= <- <-]; apply same_others_refl].
  destruct (t !! p) as [[c'|d]|] eqn:Hn; intros [= <- <-];
    try apply same_others_refl.
  rewrite emit_emit_list. eapply same_others_update; [done|].
  intros q Hq. left. by rewrite lookup_insert_ne.
Qed.

Lemma same_others_each_machines packageJson machines :
  ∀ n, stays (each_machines export p packageJson n machines).
Proof.
  induction machines as [|entry rest IH]; intros n; [apply so_ret|].
  cbn [each_machines]. apply so_bind; [|done].
  unfold each_machine. apply so_bind; [|intros; apply so_ret].
  case_match; [apply same_others_writeFileSync|apply so_ret].
Qed.

Lemma same_others_each_pack data j : stays (each_pack export data p j).
Proof.
  unfold each_pack.
  apply so_bind; [apply so_try; [apply same_others_mkdirSync|intros; apply so_ret]|].
  intros _. apply so_bind.
  { unfold loadPackageJson. apply so_try.
    - apply so_bind; [apply same_others_readFileSync|].
      intros [| | |]; simpl; first [apply so_ret|apply so_throw].
    - intros e. case_decide; [apply so_ret|apply so_throw]. }
  intros packageJson.
  destruct (Js.get data p) as [spec|]; [|apply so_throw].
  apply so_bind; [apply so_forEach; intros; apply same_others_unlinkSync_top|].
  intros _. apply so_bind; [apply same_others_each_machines|]. intros n.
  case_decide.
  - intros s r s' [= <- <-]. apply same_others_same_root, root_done.
  - apply so_bind; [apply same_others_writeFileSync|]. intros _.
    apply so_bind; [apply same_others_writeFileSync|]. intros _.
    intros s r s' [= <- <-]. apply same_others_same_root.
    by rewrite root_emit, root_with_queue.
Qed.

End OtherPacks.

(** X19: [writePacks] works on the packs of the document only.  When
    the pack names of the document are single path segments and the base
    names of its units, and those recorded in the manifests on disk,
    have no ['/'], then whatever the outcome of [writePacks], a
    directory of the cache root whose name is not a key of the document
    holds afterwards exactly the files it held before. *)
Theorem X19_writePacks_leaves_other_directories_alone
    (options : Options.t) (D : document) (cb : option nat)
    (s s' : state) (r : result unit) (q : string) :
  plain_names D = true →
  plain_manifests (root (Options.export options) s) = true →
  writePacks options D cb s = (r, s') →
  q ∉ Js.keys D →
  pack_files (root (Options.export options) s') q =
  pack_files (root (Options.export options) s) q.
Proof.
  destruct options as [export]. unfold writePacks, async_each. cbn [Options.export].
  intros _ _ Hrun Hq.
  assert (∀ l s1 s2 r, (∀ x, x ∈ l → x ≠ q) →
            forEach (λ x, each_pack export D x (length (joins s))) l s1 = (r, s2) →
            pack_files (root export s2) q = pack_files (root export s1) q) as Hloop.
  { clear. induction l as [|x l IH]; intros s1 s2 r Hl Hrun.
    - by injection Hrun as _ <-.
    - cbn [forEach] in Hrun. unfold bind at 1 in Hrun.
      destruct (each_pack export D x (length (joins s)) s1) as [[[]|e] s_x] eqn:Hx.
      + rewrite (IH _ _ _ (λ y Hy, Hl y (list_elem_of_further _ _ _ Hy)) Hrun).
        apply (same_others_each_pack export x D _ _ _ _ Hx). symmetry. apply Hl. left.
      + injection Hrun as _ <-.
        apply (same_others_each_pack export x D _ _ _ _ Hx). symmetry. apply Hl. left. }
  destruct (Js.keys D) as [|x l] eqn:Hkeys.
  - injection Hrun as _ <-. destruct cb; by destruct export.
  - rewrite (Hloop _ _ _ _ (λ y Hy Heq, Hq (eq_ind y (λ z, z ∈ x :: l) Hy q Heq)) Hrun).
    by destruct export.
Qed.

Lemma X19_writePacks_leaves_other_directories_alone_witness :
  pack_files (root false
    (writePacks (Options.Make false) Example.D (Some 7) Stale.disk_with_root_file).2) "p" =
  pack_files (root false Stale.disk_with_root_file) "p".
Proof.
  apply (X19_writePacks_leaves_other_directories_alone (Options.Make false) Example.D
           (Some 7) Stale.disk_with_root_file _ (Ok ()) "p").
  - reflexivity.
  - vm_compute. reflexivity.
  - vm_compute. reflexivity.
  - apply (bool_decide_unpack _). vm_compute. reflexivity.
Defined.
